(** * Safe transaction processor: wallet-state replay engine

    Shallow embedding of [history/indexers/tx_processor.py] (class
    [SafeTxProcessor]) and of the query helpers of [history/models.py] it
    calls, with the properties of the replay engine proved over it.

    Python objects become records, the Django tables become finite maps keyed
    by their primary key (or lists of rows where there is none), the
    processor's in-process cache is a finite map from address strings to
    status objects, and every method is a function in a state-and-exception
    monad: an exception leaves the state as it was at the [raise], as in
    Python. *)

From stdpp Require Import gmap strings list fin_maps sorting.
From Stdlib Require Import ZArith NArith Lia.

Local Open Scope Z_scope.
Local Open Scope string_scope.

(** ** Versions ([packaging.version.Version]) *)

Module PyVersion.

(** A parsed version once [Version(Version(s).base_version)] has dropped
    the pre, post, dev and local segments: an epoch and the release
    numbers. *)
Record Version := mkVersion { epoch : N; release : list N }.

(** [itertools.dropwhile(lambda x: x == 0, ...)] *)
Fixpoint dropwhile_zero (l : list N) : list N :=
  match l with
  | [] => []
  | x :: l' => if N.eqb x 0 then dropwhile_zero l' else l
  end.

(** [_cmpkey]: the release with its trailing zeros removed.  For a base
    version the other four components of the key are the same constants,
    so the key is [(epoch, _release)]. *)
Definition strip_release (r : list N) : list N := rev (dropwhile_zero (rev r)).

(** Python's ordering of two tuples of integers. *)
Fixpoint tuple_compare (a b : list N) : comparison :=
  match a, b with
  | [], [] => Eq
  | [], _ :: _ => Lt
  | _ :: _, [] => Gt
  | x :: a', y :: b' =>
      match N.compare x y with
      | Eq => tuple_compare a' b'
      | c => c
      end
  end.

Definition compare (a b : Version) : comparison :=
  match N.compare (epoch a) (epoch b) with
  | Eq => tuple_compare (strip_release (release a)) (strip_release (release b))
  | c => c
  end.

(** [Version.__lt__] and [Version.__le__] *)
Definition lt (a b : Version) : bool :=
  match compare a b with Lt => true | _ => false end.

Definition le (a b : Version) : bool :=
  match compare a b with Gt => false | _ => true end.

End PyVersion.

Abbreviation Version := PyVersion.Version.

(** [self.signature_breaking_versions]: [Version("1.0.0")] (the gas field was
    renamed) and [Version("1.3.0")] (the chain id entered the signed
    payload). *)
Definition signature_breaking_versions : list Version :=
  [ PyVersion.mkVersion 0 [1; 0; 0]%N ; PyVersion.mkVersion 0 [1; 3; 0]%N ].

Section VersionOracle.

(** [fun s => Version(Version(s).base_version)] of the [packaging]
    library; [None] stands for [InvalidVersion]. *)
Variable parse_base_version : string -> option Version.

(** The [for] loop of [is_version_breaking_signatures]. *)
Fixpoint breaking_between (old_version new_version : Version)
    (boundaries : list Version) : bool :=
  match boundaries with
  | [] => false
  | breaking_version :: rest =>
      if PyVersion.lt old_version breaking_version
         && PyVersion.le breaking_version new_version
      then true
      else breaking_between old_version new_version rest
  end.

Definition is_version_breaking_signatures
    (old_safe_version new_safe_version : string) : option bool :=
  match parse_base_version old_safe_version with
  | None => None
  | Some old_version =>
      match parse_base_version new_safe_version with
      | None => None
      | Some new_version =>
          let '(old_version, new_version) :=
            if PyVersion.lt new_version old_version
            then (new_version, old_version)
            else (old_version, new_version) in
          Some (breaking_between old_version new_version
                  signature_breaking_versions)
      end
  end.

End VersionOracle.

(** ** Python values and exceptions

    Addresses are the checksummed hexadecimal strings Python holds
    ([string]); byte strings ([bytes], [HexBytes]) are lists of byte values
    ([list N]). *)

Definition NULL_ADDRESS : string := "0x0000000000000000000000000000000000000000".

(** The JSON values found in [InternalTxDecoded.arguments]. *)
Inductive value :=
| VNone
| VInt (n : Z)
| VStr (s : string)
| VList (l : list string).

(** Python truthiness, as used by [or], [and], [not] and [if]. *)
Definition truthy (v : value) : bool :=
  match v with
  | VNone => false
  | VInt n => negb (Z.eqb n 0)
  | VStr s => negb (String.eqb s "")
  | VList l => match l with [] => false | _ => true end
  end.

Definition truthy_str (s : string) : bool := negb (String.eqb s "").

Definition truthy_opt_str (o : option string) : bool :=
  match o with Some s => truthy_str s | None => false end.

(** The exception classes of the module, the RPC error of [web3] and one
    constructor for every other Python exception ([KeyError], [TypeError],
    [AttributeError], [InvalidVersion], database errors). *)
Inductive exn :=
| TxProcessorException
| OwnerCannotBeRemoved
| ModuleCannotBeDisabled
| CannotFindPreviousTrace
| UserOperationFailed
| Web3RPCError
| PyError.

(** [isinstance(e, TxProcessorException)] *)
Definition is_TxProcessorException (e : exn) : bool :=
  match e with
  | TxProcessorException | OwnerCannotBeRemoved | ModuleCannotBeDisabled
  | CannotFindPreviousTrace | UserOperationFailed => true
  | Web3RPCError | PyError => false
  end.

Definition is_CannotFindPreviousTrace (e : exn) : bool :=
  match e with CannotFindPreviousTrace => true | _ => false end.

(** ** Model classes *)

Record Log := mkLog {
  log_address : option string;    (* [None]: the log has no "address" key *)
  log_topics : list (list N);
  log_data : list N
}.

Record EthereumTx := mkEthereumTx {
  tx_hash : list N;
  tx_logs : option (list Log);
  transaction_index : option Z
}.

(** [trace_address] is kept as the list of child indices that the stored
    comma-separated string encodes ([trace_address_as_list]). *)
Record InternalTx := mkInternalTx {
  id : Z;
  ethereum_tx : EthereumTx;
  timestamp : Z;
  block_number : Z;
  _from : option string;
  to : option string;
  gas_used : Z;
  trace_address : list Z
}.

Record InternalTxDecoded := mkInternalTxDecoded {
  internal_tx : InternalTx;
  function_name : string;
  arguments : gmap string value
}.

Definition internal_tx_id (d : InternalTxDecoded) : Z := id (internal_tx d).

(** [SafeStatusBase], the shape shared by [SafeLastStatus] and [SafeStatus]. *)
Record SafeLastStatus := mkSafeLastStatus {
  status_internal_tx : InternalTx;
  address : string;
  owners : list string;
  threshold : Z;
  nonce : Z;
  master_copy : string;
  fallback_handler : string;
  guard : option string;
  enabled_modules : list string
}.

Abbreviation SafeStatus := SafeLastStatus (only parsing).

Definition set_internal_tx (s : SafeLastStatus) (x : InternalTx) : SafeLastStatus :=
  mkSafeLastStatus x (address s) (owners s) (threshold s) (nonce s)
    (master_copy s) (fallback_handler s) (guard s) (enabled_modules s).
Definition set_address (s : SafeLastStatus) (x : string) : SafeLastStatus :=
  mkSafeLastStatus (status_internal_tx s) x (owners s) (threshold s) (nonce s)
    (master_copy s) (fallback_handler s) (guard s) (enabled_modules s).
Definition set_owners (s : SafeLastStatus) (x : list string) : SafeLastStatus :=
  mkSafeLastStatus (status_internal_tx s) (address s) x (threshold s) (nonce s)
    (master_copy s) (fallback_handler s) (guard s) (enabled_modules s).
Definition set_threshold (s : SafeLastStatus) (x : Z) : SafeLastStatus :=
  mkSafeLastStatus (status_internal_tx s) (address s) (owners s) x (nonce s)
    (master_copy s) (fallback_handler s) (guard s) (enabled_modules s).
Definition set_nonce (s : SafeLastStatus) (x : Z) : SafeLastStatus :=
  mkSafeLastStatus (status_internal_tx s) (address s) (owners s) (threshold s) x
    (master_copy s) (fallback_handler s) (guard s) (enabled_modules s).
Definition set_master_copy (s : SafeLastStatus) (x : string) : SafeLastStatus :=
  mkSafeLastStatus (status_internal_tx s) (address s) (owners s) (threshold s)
    (nonce s) x (fallback_handler s) (guard s) (enabled_modules s).
Definition set_fallback_handler (s : SafeLastStatus) (x : string) : SafeLastStatus :=
  mkSafeLastStatus (status_internal_tx s) (address s) (owners s) (threshold s)
    (nonce s) (master_copy s) x (guard s) (enabled_modules s).
Definition set_guard (s : SafeLastStatus) (x : option string) : SafeLastStatus :=
  mkSafeLastStatus (status_internal_tx s) (address s) (owners s) (threshold s)
    (nonce s) (master_copy s) (fallback_handler s) x (enabled_modules s).
Definition set_enabled_modules (s : SafeLastStatus) (x : list string) : SafeLastStatus :=
  mkSafeLastStatus (status_internal_tx s) (address s) (owners s) (threshold s)
    (nonce s) (master_copy s) (fallback_handler s) (guard s) x.

Record SafeContract := mkSafeContract {
  sc_ethereum_tx_id : option (list N);
  banned : bool
}.

(** [MultisigTransaction]; the primary key [safe_tx_hash] is the key of the
    table.  Fields copied from the call keep the JSON value they had. *)
Record MultisigTransaction := mkMultisigTransaction {
  mt_created : Z;
  mt_safe : string;
  mt_ethereum_tx_id : option (list N);
  mt_to : value;
  mt_value : value;
  mt_data : option (list N);
  mt_operation : value;
  mt_safe_tx_gas : value;
  mt_base_gas : value;
  mt_gas_price : value;
  mt_gas_token : value;
  mt_refund_receiver : value;
  mt_nonce : Z;
  mt_signatures : option (list N);
  mt_failed : option bool;
  mt_trusted : bool
}.

Record MultisigConfirmation := mkMultisigConfirmation {
  mc_created : Z;
  mc_ethereum_tx_id : option (list N);
  mc_multisig_transaction : option (list N);
  mc_multisig_transaction_hash : option (list N);
  mc_owner : string;
  mc_signature : option (list N);
  mc_signature_type : Z
}.

(** [ModuleTransaction]; the primary key [internal_tx] is the key of the table. *)
Record ModuleTransaction := mkModuleTransaction {
  mo_created : Z;
  mo_safe : string;
  mo_module : string;
  mo_to : value;
  mo_value : value;
  mo_data : option (list N);
  mo_operation : value;
  mo_failed : bool
}.

Record SafeRelevantTransaction := mkSafeRelevantTransaction {
  rt_ethereum_tx_id : list N;
  rt_safe : string;
  rt_timestamp : Z
}.

Record SafeContractDelegate := mkSafeContractDelegate {
  safe_contract_id : option string;
  delegate : string;
  delegator : string
}.

Record SafeMessageConfirmation := mkSafeMessageConfirmation {
  smc_owner : string;
  smc_message_hash : list N
}.

(** What the external libraries hand back. *)
Record SafeSignature := mkSafeSignature {
  sig_owner : string;
  sig_signature : list N;
  sig_export_signature : list N;
  sig_signature_type : Z
}.

Record SafeTx := mkSafeTx {
  stx_safe : option string;
  stx_to : value;
  stx_value : value;
  stx_data : value;
  stx_operation : value;
  stx_safe_tx_gas : value;
  stx_base_gas : value;
  stx_gas_price : value;
  stx_gas_token : value;
  stx_refund_receiver : value;
  stx_signatures : list N;
  stx_safe_nonce : Z;
  stx_safe_version : string;
  stx_chain_id : Z
}.

(** A trace as returned by the tracing node: [trace["action"].get("from")]
    is all the processor reads from it. *)
Record Trace := mkTrace { action_from : option string }.

Inductive rpc_result :=
| RpcReturn (previous_trace : option Trace)   (* [None]: nothing found *)
| RpcRaise.                                   (* [Web3RPCError] *)

(** ** The database and the processor's state *)

Record Database := mkDatabase {
  internal_txs_decoded : gmap Z bool;        (* [processed], by [internal_tx_id] *)
  decoded_updates : list (list Z);           (* the UPDATE statements issued on that table *)
  safe_contracts : gmap string SafeContract;
  safe_last_statuses : gmap string SafeLastStatus;
  safe_statuses : gmap Z SafeLastStatus;     (* history, by [internal_tx_id] *)
  safe_master_copies : gmap string string;   (* version, by address *)
  multisig_transactions : gmap (list N) MultisigTransaction;
  multisig_confirmations : list MultisigConfirmation;
  module_transactions : gmap Z ModuleTransaction;
  safe_relevant_transactions : list SafeRelevantTransaction;
  safe_contract_delegates : list SafeContractDelegate;
  safe_message_confirmations : list SafeMessageConfirmation
}.

Record State := mkState {
  db : Database;
  safe_last_status_cache : gmap string SafeLastStatus
}.

Definition set_internal_txs_decoded (d : Database) (x : gmap Z bool) : Database :=
  mkDatabase x (decoded_updates d) (safe_contracts d) (safe_last_statuses d)
    (safe_statuses d) (safe_master_copies d) (multisig_transactions d)
    (multisig_confirmations d) (module_transactions d)
    (safe_relevant_transactions d) (safe_contract_delegates d)
    (safe_message_confirmations d).
Definition set_decoded_updates (d : Database) (x : list (list Z)) : Database :=
  mkDatabase (internal_txs_decoded d) x (safe_contracts d) (safe_last_statuses d)
    (safe_statuses d) (safe_master_copies d) (multisig_transactions d)
    (multisig_confirmations d) (module_transactions d)
    (safe_relevant_transactions d) (safe_contract_delegates d)
    (safe_message_confirmations d).
Definition set_safe_contracts (d : Database) (x : gmap string SafeContract) : Database :=
  mkDatabase (internal_txs_decoded d) (decoded_updates d) x (safe_last_statuses d)
    (safe_statuses d) (safe_master_copies d) (multisig_transactions d)
    (multisig_confirmations d) (module_transactions d)
    (safe_relevant_transactions d) (safe_contract_delegates d)
    (safe_message_confirmations d).
Definition set_safe_last_statuses (d : Database) (x : gmap string SafeLastStatus) : Database :=
  mkDatabase (internal_txs_decoded d) (decoded_updates d) (safe_contracts d) x
    (safe_statuses d) (safe_master_copies d) (multisig_transactions d)
    (multisig_confirmations d) (module_transactions d)
    (safe_relevant_transactions d) (safe_contract_delegates d)
    (safe_message_confirmations d).
Definition set_safe_statuses (d : Database) (x : gmap Z SafeLastStatus) : Database :=
  mkDatabase (internal_txs_decoded d) (decoded_updates d) (safe_contracts d)
    (safe_last_statuses d) x (safe_master_copies d) (multisig_transactions d)
    (multisig_confirmations d) (module_transactions d)
    (safe_relevant_transactions d) (safe_contract_delegates d)
    (safe_message_confirmations d).
Definition set_multisig_transactions (d : Database)
    (x : gmap (list N) MultisigTransaction) : Database :=
  mkDatabase (internal_txs_decoded d) (decoded_updates d) (safe_contracts d)
    (safe_last_statuses d) (safe_statuses d) (safe_master_copies d) x
    (multisig_confirmations d) (module_transactions d)
    (safe_relevant_transactions d) (safe_contract_delegates d)
    (safe_message_confirmations d).
Definition set_multisig_confirmations (d : Database)
    (x : list MultisigConfirmation) : Database :=
  mkDatabase (internal_txs_decoded d) (decoded_updates d) (safe_contracts d)
    (safe_last_statuses d) (safe_statuses d) (safe_master_copies d)
    (multisig_transactions d) x (module_transactions d)
    (safe_relevant_transactions d) (safe_contract_delegates d)
    (safe_message_confirmations d).
Definition set_module_transactions (d : Database)
    (x : gmap Z ModuleTransaction) : Database :=
  mkDatabase (internal_txs_decoded d) (decoded_updates d) (safe_contracts d)
    (safe_last_statuses d) (safe_statuses d) (safe_master_copies d)
    (multisig_transactions d) (multisig_confirmations d) x
    (safe_relevant_transactions d) (safe_contract_delegates d)
    (safe_message_confirmations d).
Definition set_safe_relevant_transactions (d : Database)
    (x : list SafeRelevantTransaction) : Database :=
  mkDatabase (internal_txs_decoded d) (decoded_updates d) (safe_contracts d)
    (safe_last_statuses d) (safe_statuses d) (safe_master_copies d)
    (multisig_transactions d) (multisig_confirmations d) (module_transactions d)
    x (safe_contract_delegates d) (safe_message_confirmations d).
Definition set_safe_contract_delegates (d : Database)
    (x : list SafeContractDelegate) : Database :=
  mkDatabase (internal_txs_decoded d) (decoded_updates d) (safe_contracts d)
    (safe_last_statuses d) (safe_statuses d) (safe_master_copies d)
    (multisig_transactions d) (multisig_confirmations d) (module_transactions d)
    (safe_relevant_transactions d) x (safe_message_confirmations d).
Definition set_safe_message_confirmations (d : Database)
    (x : list SafeMessageConfirmation) : Database :=
  mkDatabase (internal_txs_decoded d) (decoded_updates d) (safe_contracts d)
    (safe_last_statuses d) (safe_statuses d) (safe_master_copies d)
    (multisig_transactions d) (multisig_confirmations d) (module_transactions d)
    (safe_relevant_transactions d) (safe_contract_delegates d) x.

(** ** The state-and-exception monad *)

Inductive outcome (A : Type) :=
| Return (a : A)
| Raise (e : exn).
Arguments Return {A} a.
Arguments Raise {A} e.

Definition M (A : Type) : Type := State -> State * outcome A.

Definition ret {A} (a : A) : M A := fun st => (st, Return a).

Definition raise {A} (e : exn) : M A := fun st => (st, Raise e).

Definition bind {A B} (m : M A) (k : A -> M B) : M B :=
  fun st =>
    match m st with
    | (st', Return a) => k a st'
    | (st', Raise e) => (st', Raise e)
    end.

#[global] Instance M_ret : MRet M := @ret.
#[global] Instance M_bind : MBind M := fun A B k m => bind m k.

Definition get_db : M Database := fun st => (st, Return (db st)).

Definition modify_db (f : Database -> Database) : M unit :=
  fun st => (mkState (f (db st)) (safe_last_status_cache st), Return tt).

Definition get_cache : M (gmap string SafeLastStatus) :=
  fun st => (st, Return (safe_last_status_cache st)).

Definition modify_cache
    (f : gmap string SafeLastStatus -> gmap string SafeLastStatus) : M unit :=
  fun st => (mkState (db st) (f (safe_last_status_cache st)), Return tt).

(** [try: m finally: cleanup] *)
Definition try_finally {A} (m : M A) (cleanup : M unit) : M A :=
  fun st =>
    match m st with
    | (st', o) =>
        match cleanup st' with
        | (st'', Return _) => (st'', o)
        | (st'', Raise e) => (st'', Raise e)
        end
    end.

(** [@transaction.atomic]: an exception leaving the block rolls the database
    back; the in-process cache is not part of the transaction. *)
Definition atomic {A} (m : M A) : M A :=
  fun st =>
    match m st with
    | (st', Return a) => (st', Return a)
    | (st', Raise e) => (mkState (db st) (safe_last_status_cache st'), Raise e)
    end.

(** [arguments[k]]: [KeyError] when the key is missing. *)
Definition getitem (args : gmap string value) (k : string) : M value :=
  match args !! k with
  | Some v => ret v
  | None => raise PyError
  end.

(** The decoder produces strings for addresses, integers for amounts and a
    list of strings for [_owners]; a value of another JSON type cannot be
    stored in the column it is meant for and raises. *)
Definition as_str (v : value) : M string :=
  match v with VStr s => ret s | _ => raise PyError end.

Definition as_int (v : value) : M Z :=
  match v with VInt n => ret n | _ => raise PyError end.

Definition as_str_list (v : value) : M (list string) :=
  match v with VList l => ret l | _ => raise PyError end.

Definition as_opt_str (v : value) : M (option string) :=
  match v with
  | VStr s => ret (Some s)
  | VNone => ret None
  | _ => raise PyError
  end.

Definition require {A} (o : option A) : M A :=
  match o with Some a => ret a | None => raise PyError end.

(** ** Query helpers of [models.py] *)

(** [InternalTxDecoded.set_processed]: [save(update_fields=["processed"])]
    raises when the row is not in the table. *)
Definition set_processed (d : InternalTxDecoded) : M unit :=
  database ← get_db;
  match internal_txs_decoded database !! internal_tx_id d with
  | None => raise PyError
  | Some _ =>
      modify_db (fun database =>
        set_decoded_updates
          (set_internal_txs_decoded database
             (<[internal_tx_id d := true]> (internal_txs_decoded database)))
          (decoded_updates database ++ [[internal_tx_id d]]))
  end.

(** [InternalTxDecoded.objects.filter(internal_tx__in=ids).update(processed=True)] *)
Definition update_processed (ids : list Z) : M unit :=
  modify_db (fun database =>
    set_decoded_updates
      (set_internal_txs_decoded database
         (map_imap (fun k processed =>
                      Some (if bool_decide (k ∈ ids) then true else processed))
            (internal_txs_decoded database)))
      (decoded_updates database ++ [ids])).

(** [SafeContractManager.get_banned_addresses(addresses)], over a non-empty
    collection of addresses. *)
Definition get_banned_addresses (addresses : list (option string))
    (database : Database) : gset string :=
  dom (filter (fun kv => banned kv.2 = true ∧ Some kv.1 ∈ addresses)
         (safe_contracts database)).

(** [SafeMasterCopyManager.get_version_for_address] *)
Definition get_version_for_address (a : string) (database : Database)
    : option string :=
  safe_master_copies database !! a.

(** [MultisigTransactionQuerySet.queued]: the subquery is the highest nonce
    among the executed transactions of the wallet, [-1] when there is none. *)
Definition executed (t : MultisigTransaction) : bool :=
  match mt_ethereum_tx_id t with Some _ => true | None => false end.

Definition is_safe (safe_address : option string) (t : MultisigTransaction) : bool :=
  bool_decide (Some (mt_safe t) = safe_address).

Definition max_executed_nonce (safe_address : option string)
    (txs : gmap (list N) MultisigTransaction) : Z :=
  map_fold (fun _ t acc =>
              if executed t && is_safe safe_address t
              then Z.max (mt_nonce t) acc else acc)
    (-1) txs.

Definition queued (safe_address : option string)
    (txs : gmap (list N) MultisigTransaction)
    : gmap (list N) MultisigTransaction :=
  filter (fun kv => executed kv.2 = false
                    ∧ max_executed_nonce safe_address txs < mt_nonce kv.2
                    ∧ is_safe safe_address kv.2 = true) txs.

(** [MultisigTransaction.objects.queued(safe).delete()]; the confirmations
    that reference a deleted transaction go with it ([on_delete=CASCADE]). *)
Definition delete_queued (safe_address : option string) (database : Database)
    : Database :=
  let doomed := queued safe_address (multisig_transactions database) in
  set_multisig_confirmations
    (set_multisig_transactions database
       (filter (fun kv => doomed !! kv.1 = None) (multisig_transactions database)))
    (List.filter
       (fun c => match mc_multisig_transaction c with
                 | Some h => bool_decide (doomed !! h = None)
                 | None => true
                 end)
       (multisig_confirmations database)).

(** [MultisigConfirmationManager.remove_unused_confirmations] *)
Definition remove_unused_confirmations (safe : option string)
    (current_safe_nonce : Z) (owner : string) (database : Database) : Database :=
  set_multisig_confirmations database
    (List.filter
       (fun c =>
          negb (String.eqb (mc_owner c) owner
                && match mc_multisig_transaction c with
                   | None => false
                   | Some h =>
                       match multisig_transactions database !! h with
                       | None => false
                       | Some t =>
                           negb (executed t) && is_safe safe t
                           && (current_safe_nonce <=? mt_nonce t)%Z
                       end
                   end))
       (multisig_confirmations database)).

(** [SafeContractDelegateManager.remove_delegates_for_owner_in_safe] *)
Definition remove_delegates_for_owner_in_safe (safe_address owner_address : string)
    (database : Database) : Database :=
  set_safe_contract_delegates database
    (List.filter
       (fun g => negb (bool_decide (safe_contract_id g = Some safe_address)
                       && String.eqb (delegator g) owner_address))
       (safe_contract_delegates database)).

(** [SafeMessageConfirmation.objects.filter(owner=owner).delete()] *)
Definition delete_message_confirmations (owner : string) (database : Database)
    : Database :=
  set_safe_message_confirmations database
    (List.filter (fun c => negb (String.eqb (smc_owner c) owner))
       (safe_message_confirmations database)).

(** [SafeStatusQuerySet.sorted_by_mined]: [a] comes before [b] when it has the
    higher nonce, then block number, then transaction index (a missing index
    sorts first in descending order), then row id. *)
Definition compare_desc_opt (a b : option Z) : comparison :=
  match a, b with
  | None, None => Eq
  | None, Some _ => Gt
  | Some _, None => Lt
  | Some x, Some y => Z.compare x y
  end.

Definition mined_compare (a b : SafeLastStatus) : comparison :=
  match Z.compare (nonce a) (nonce b) with
  | Eq =>
      match Z.compare (block_number (status_internal_tx a))
                      (block_number (status_internal_tx b)) with
      | Eq =>
          match compare_desc_opt
                  (transaction_index (ethereum_tx (status_internal_tx a)))
                  (transaction_index (ethereum_tx (status_internal_tx b))) with
          | Eq => Z.compare (id (status_internal_tx a)) (id (status_internal_tx b))
          | c => c
          end
      | c => c
      end
  | c => c
  end.

(** [SafeStatusQuerySet.last_for_address] *)
Definition last_for_address (a : string) (database : Database)
    : option SafeLastStatus :=
  map_fold (fun _ s best =>
              if String.eqb (address s) a
              then match best with
                   | None => Some s
                   | Some b => match mined_compare s b with
                               | Gt => Some s
                               | _ => Some b
                               end
                   end
              else best)
    None (safe_statuses database).

(** Modelled from the spec: the [post_save] receiver of [SafeLastStatus]
    ([history/signals.py] is not among the sources).  The docstring of
    [store_new_safe_status] says that "an entry to [SafeStatus] is added too
    via a Django signal", and the specification that the snapshot and the
    latest row are always written together, the snapshot referencing the
    call that produced it; [SafeStatus] has [internal_tx] as primary key. *)
Definition add_to_historical_table (s : SafeLastStatus) (database : Database)
    : Database :=
  set_safe_statuses database
    (<[id (status_internal_tx s) := s]> (safe_statuses database)).

(** [SafeLastStatus.save()], with the signal it sends. *)
Definition save_safe_last_status (s : SafeLastStatus) (database : Database)
    : Database :=
  add_to_historical_table s
    (set_safe_last_statuses database
       (<[address s := s]> (safe_last_statuses database))).

(** [SafeLastStatusManager.get_or_generate]; [None] stands for
    [SafeLastStatus.DoesNotExist].  The row read back has the address it was
    looked up by, which is the primary key. *)
Definition get_or_generate (a : string) : M (option SafeLastStatus) :=
  database ← get_db;
  match safe_last_statuses database !! a with
  | Some s => ret (Some (set_address s a))
  | None =>
      match last_for_address a database with
      | Some safe_status =>
          modify_db (save_safe_last_status safe_status);;
          ret (Some safe_status)
      | None => ret None
      end
  end.

(** ** The processor ([SafeTxProcessor]) *)

(** [list.remove(x)]: the first occurrence goes. *)
Fixpoint list_remove (x : string) (l : list string) : list string :=
  match l with
  | [] => []
  | y :: l' => if String.eqb y x then l' else y :: list_remove x l'
  end.

(** [b[-20:]] *)
Definition last_20 (b : list N) : list N := drop (length b - 20)%nat b.

Section SafeTxProcessor.

(** External collaborators: the [packaging], [hexbytes] and [safe_eth]
    libraries, the RPC nodes and the account-abstraction service. *)
Variable parse_base_version : string -> option Version.
Variable HexBytes : value -> option (list N).
Variable safe_tx_failure_events_topics : list (list N).
Variable safe_tx_module_failure_topics : list (list N).
Variable safe_tx_hash : SafeTx -> list N.
Variable parse_signature : list N -> list N -> list SafeSignature.
Variable build_for_owner : string -> list N -> SafeSignature.
Variable get_chain_id : Z.
(** [self.ethereum_tracing_client], [None] when no tracing node is
    configured, with its [tracing.get_previous_trace]. *)
Variable ethereum_tracing_client :
  option (list N -> list Z -> rpc_result).
Variable process_aa_transaction : option string -> EthereumTx -> nat.

Definition clear_cache (safe_address : option string) : M bool :=
  if truthy_opt_str safe_address then
    match safe_address with
    | Some a =>
        cache ← get_cache;
        match cache !! a with
        | Some _ => modify_cache (delete a);; ret true
        | None => ret false
        end
    | None => ret false
    end
  else
    modify_cache (fun _ => ∅);; ret true.

(** [is_failed]; [None] is the [TypeError] of iterating over [logs = None]. *)
Fixpoint is_failed_logs (logs : list Log) (h : list N) : bool :=
  match logs with
  | [] => false
  | log :: rest =>
      match log_topics log with
      | topic0 :: _ =>
          if negb (bool_decide (log_data log = []))
             && bool_decide (topic0 ∈ safe_tx_failure_events_topics)
          then
            if (length (log_topics log) =? 2)%nat
               && bool_decide (log_topics log !! 1%nat = Some h)
            then true
            else if bool_decide (take 32 (log_data log) = h)
            then true
            else is_failed_logs rest h
          else is_failed_logs rest h
      | [] => is_failed_logs rest h
      end
  end.

Definition is_failed (tx : EthereumTx) (h : list N) : M bool :=
  match tx_logs tx with
  | None => raise PyError
  | Some logs => ret (is_failed_logs logs h)
  end.

(** [is_module_failed]; [HexBytes(module_address)] is evaluated, and may
    raise, only for a log that passed the three tests before it. *)
Fixpoint is_module_failed_logs (logs : list Log) (module_address : option string)
    (safe_address : option string) : option bool :=
  match logs with
  | [] => Some false
  | log :: rest =>
      if (length (log_topics log) =? 2)%nat
         && match log_address log with
            | Some a => bool_decide (Some a = safe_address)
            | None => true
            end
         && match log_topics log !! 0%nat with
            | Some topic0 => bool_decide (topic0 ∈ safe_tx_module_failure_topics)
            | None => false
            end
      then
        match module_address with
        | None => None
        | Some m =>
            match HexBytes (VStr m) with
            | None => None
            | Some mb =>
                if bool_decide (last_20 <$> (log_topics log !! 1%nat) = Some mb)
                then Some true
                else is_module_failed_logs rest module_address safe_address
            end
        end
      else is_module_failed_logs rest module_address safe_address
  end.

Definition is_module_failed (tx : EthereumTx) (module_address : option string)
    (safe_address : option string) : M bool :=
  match tx_logs tx with
  | None => raise PyError
  | Some logs => require (is_module_failed_logs logs module_address safe_address)
  end.

Definition get_safe_version_from_master_copy (master_copy : string)
    : M (option string) :=
  database ← get_db;
  ret (get_version_for_address master_copy database).

(** [get_last_safe_status_for_address]: the cached object if there is one,
    else the database.  The boolean tells whether the object returned is
    the one the cache holds, so that assigning to its attributes changes
    the cache entry as well. *)
Definition get_last_safe_status_for_address (a : option string)
    : M (option (SafeLastStatus * bool)) :=
  match a with
  | None => ret None
  | Some a =>
      cache ← get_cache;
      match cache !! a with
      | Some s => ret (Some (s, true))
      | None =>
          r ← get_or_generate a;
          ret ((fun s => (s, false)) <$> r)
      end
  end.

(** An attribute assignment on the status object in hand: visible through
    the cache when the object came from there. *)
Definition assign (a : option string) (shared : bool) (s : SafeLastStatus)
    : M unit :=
  match a, shared with
  | Some a, true => modify_cache (<[a := s]>)
  | _, _ => ret tt
  end.

Definition store_new_safe_status (safe_last_status : SafeLastStatus)
    (itx : InternalTx) : M SafeLastStatus :=
  let s := set_internal_tx safe_last_status itx in
  modify_db (save_safe_last_status s);;
  modify_cache (<[address s := s]>);;
  ret s.

(** [v in l] for a JSON value and a list of strings. *)
Definition value_in (v : value) (l : list string) : bool :=
  match v with
  | VStr s => bool_decide (s ∈ l)
  | _ => false
  end.

Definition swap_owner (itx : InternalTx) (safe_status : SafeLastStatus)
    (owner_v : value) (new_owner_v : value) : M SafeLastStatus :=
  let contract_address := _from itx in
  if negb (value_in owner_v (owners safe_status)) then
    raise OwnerCannotBeRemoved
  else
    owner ← as_str owner_v;
    s ← (if truthy new_owner_v then
           new_owner ← as_str new_owner_v;
           let new_owners :=
             List.map (fun current_owner =>
                         if String.eqb current_owner owner then new_owner
                         else current_owner)
               (owners safe_status) in
           (if bool_decide (owners safe_status = new_owners) then ret tt
            else modify_db (remove_delegates_for_owner_in_safe
                              (address safe_status) owner));;
           ret (set_owners safe_status new_owners)
         else
           modify_db (remove_delegates_for_owner_in_safe
                        (address safe_status) owner);;
           ret (set_owners safe_status (list_remove owner (owners safe_status))));
    modify_db (remove_unused_confirmations contract_address (nonce s) owner);;
    modify_db (delete_message_confirmations owner);;
    ret s.

Definition disable_module (itx : InternalTx) (safe_status : SafeLastStatus)
    (module_v : value) : M SafeLastStatus :=
  if negb (value_in module_v (enabled_modules safe_status)) then
    raise ModuleCannotBeDisabled
  else
    module ← as_str module_v;
    ret (set_enabled_modules safe_status
           (list_remove module (enabled_modules safe_status))).

(** [try: m except Web3RPCError: handler] *)
Definition except_Web3RPCError {A} (m : M A) (handler : M A) : M A :=
  fun st =>
    match m st with
    | (st', Raise Web3RPCError) => handler st'
    | r => r
    end.

(** [self.ethereum_tracing_client.tracing.get_previous_trace(
      internal_tx.ethereum_tx_id, internal_tx.trace_address_as_list,
      skip_delegate_calls=True)] *)
Definition get_previous_trace (itx : InternalTx) : M (option Trace) :=
  match ethereum_tracing_client with
  | None => raise PyError
  | Some tracing =>
      match tracing (tx_hash (ethereum_tx itx)) (trace_address itx) with
      | RpcReturn previous_trace => ret previous_trace
      | RpcRaise => raise Web3RPCError
      end
  end.

Definition truthy_opt_bytes (o : option (list N)) : bool :=
  match o with Some (_ :: _) => true | _ => false end.

Definition none_if_empty (b : list N) : option (list N) :=
  match b with [] => None | _ => Some b end.

(** [SafeRelevantTransaction.objects.get_or_create(ethereum_tx=..., safe=...,
    defaults={"timestamp": ...})] *)
Definition get_or_create_relevant (itx : InternalTx) : M unit :=
  database ← get_db;
  match _from itx with
  | None => raise PyError
  | Some safe =>
      if existsb (fun r => bool_decide (rt_ethereum_tx_id r = tx_hash (ethereum_tx itx))
                           && String.eqb (rt_safe r) safe)
           (safe_relevant_transactions database)
      then ret tt
      else modify_db (fun database =>
             set_safe_relevant_transactions database
               (safe_relevant_transactions database
                ++ [mkSafeRelevantTransaction (tx_hash (ethereum_tx itx)) safe
                      (timestamp itx)]))
  end.

Definition same_confirmation (h : list N) (owner : string)
    (c : MultisigConfirmation) : bool :=
  bool_decide (mc_multisig_transaction_hash c = Some h) && String.eqb (mc_owner c) owner.

(** [MultisigConfirmation.objects.get_or_create(multisig_transaction_hash=h,
    owner=owner, defaults=...)]: the row found or created, and the table. *)
Definition get_or_create_confirmation (h : list N) (owner : string)
    (defaults : MultisigConfirmation) (l : list MultisigConfirmation)
    : MultisigConfirmation * list MultisigConfirmation :=
  match List.find (same_confirmation h owner) l with
  | Some c => (c, l)
  | None => (defaults, (l ++ [defaults])%list)
  end.

(** [multisig_confirmation.save(update_fields=...)] *)
Definition save_confirmation (h : list N) (owner : string)
    (c' : MultisigConfirmation) (l : list MultisigConfirmation)
    : list MultisigConfirmation :=
  List.map (fun c => if same_confirmation h owner c then c' else c) l.

(** The [execTransactionFromModule] / [execTransactionFromModuleReturnData]
    branch. *)
Definition process_module_transaction (d : InternalTxDecoded) : M unit :=
  let itx := internal_tx d in
  let contract_address := _from itx in
  module_address ←
    match arguments d !! "module" with
    | Some v => as_opt_str v
    | None =>
        previous_trace ← except_Web3RPCError (get_previous_trace itx) (ret None);
        match previous_trace with
        | None => raise CannotFindPreviousTrace
        | Some trace => ret (action_from trace)
        end
    end;
  failed ← is_module_failed (ethereum_tx itx) module_address contract_address;
  data_v ← getitem (arguments d) "data";
  module_data ← require (HexBytes data_v);
  to_v ← getitem (arguments d) "to";
  value_v ← getitem (arguments d) "value";
  operation_v ← getitem (arguments d) "operation";
  database ← get_db;
  match module_transactions database !! id itx with
  | Some _ => ret tt
  | None =>
      safe ← require contract_address;
      module ← require module_address;
      modify_db (fun database =>
        set_module_transactions database
          (<[id itx := mkModuleTransaction (timestamp itx) safe module to_v
                         value_v (none_if_empty module_data) operation_v failed]>
             (module_transactions database)))
  end;;
  get_or_create_relevant itx;;
  let number_detected_user_operations :=
    process_aa_transaction contract_address (ethereum_tx itx) in
  ret tt.

(** The [approveHash] branch. *)
Definition process_approve_hash (d : InternalTxDecoded) : M unit :=
  let itx := internal_tx d in
  hash_v ← getitem (arguments d) "hashToApprove";
  owner_o ←
    match arguments d !! "owner" with
    | Some v => as_opt_str v
    | None =>
        previous_trace ← get_previous_trace itx;
        match previous_trace with
        | None => raise CannotFindPreviousTrace
        | Some trace => ret (action_from trace)
        end
    end;
  owner ← require owner_o;
  h ← require (HexBytes hash_v);
  let safe_signature := build_for_owner owner h in
  database ← get_db;
  let defaults :=
    mkMultisigConfirmation (timestamp itx) (Some (tx_hash (ethereum_tx itx)))
      None (Some h) owner (Some (sig_export_signature safe_signature))
      (sig_signature_type safe_signature) in
  let '(c, l) := get_or_create_confirmation h owner defaults
                   (multisig_confirmations database) in
  let l' :=
    if truthy_opt_bytes (mc_ethereum_tx_id c) then l
    else save_confirmation h owner
           (mkMultisigConfirmation (mc_created c) (Some (tx_hash (ethereum_tx itx)))
              (mc_multisig_transaction c) (mc_multisig_transaction_hash c)
              (mc_owner c) (mc_signature c) (mc_signature_type c)) l in
  modify_db (fun database => set_multisig_confirmations database l').

(** One turn of the loop over [SafeSignature.parse_signature(...)]. *)
Definition confirm_signature (itx : InternalTx) (h : list N)
    (l : list MultisigConfirmation) (safe_signature : SafeSignature)
    : list MultisigConfirmation :=
  let defaults :=
    mkMultisigConfirmation (timestamp itx) None (Some h) (Some h)
      (sig_owner safe_signature) (Some (sig_export_signature safe_signature))
      (sig_signature_type safe_signature) in
  let '(c, l) := get_or_create_confirmation h (sig_owner safe_signature)
                   defaults l in
  if bool_decide (mc_signature c = Some (sig_signature safe_signature)) then l
  else save_confirmation h (sig_owner safe_signature)
         (mkMultisigConfirmation (mc_created c) (mc_ethereum_tx_id c)
            (mc_multisig_transaction c) (mc_multisig_transaction_hash c)
            (mc_owner c) (Some (sig_export_signature safe_signature))
            (sig_signature_type safe_signature)) l.

(** The [execTransaction] branch. *)
Definition process_exec_transaction (d : InternalTxDecoded)
    (safe_last_status : SafeLastStatus) : M unit :=
  let itx := internal_tx d in
  let args := arguments d in
  let contract_address := _from itx in
  resolved_nonce ←
    match args !! "nonce" with
    | Some v => as_int v
    | None => ret (nonce safe_last_status)
    end;
  '(base_gas, safe_version) ←
    match args !! "baseGas" with
    | Some v =>
        version ← get_safe_version_from_master_copy (master_copy safe_last_status);
        ret (v, if truthy_opt_str version then default "1.3.0" version else "1.3.0")
    | None =>
        v ← getitem args "dataGas";
        ret (v, "0.0.1")
    end;
  to_v ← getitem args "to";
  value_v ← getitem args "value";
  data_v ← getitem args "data";
  operation_v ← getitem args "operation";
  safe_tx_gas_v ← getitem args "safeTxGas";
  gas_price_v ← getitem args "gasPrice";
  gas_token_v ← getitem args "gasToken";
  refund_receiver_v ← getitem args "refundReceiver";
  signatures_v ← getitem args "signatures";
  signatures ← require (HexBytes signatures_v);
  data_b ← require (HexBytes data_v);
  let safe_tx :=
    mkSafeTx contract_address to_v value_v data_v operation_v safe_tx_gas_v
      base_gas gas_price_v gas_token_v refund_receiver_v signatures
      resolved_nonce safe_version get_chain_id in
  let h := safe_tx_hash safe_tx in
  failed ← is_failed (ethereum_tx itx) h;
  database ← get_db;
  multisig_tx ←
    match multisig_transactions database !! h with
    | Some t => ret t
    | None =>
        safe ← require contract_address;
        let t :=
          mkMultisigTransaction (timestamp itx) safe
            (Some (tx_hash (ethereum_tx itx))) to_v value_v (none_if_empty data_b)
            operation_v safe_tx_gas_v base_gas gas_price_v gas_token_v
            refund_receiver_v resolved_nonce (Some signatures) (Some failed) true in
        modify_db (fun database =>
          set_multisig_transactions database
            (<[h := t]> (multisig_transactions database)));;
        ret t
    end;
  get_or_create_relevant itx;;
  (if truthy_opt_bytes (mt_ethereum_tx_id multisig_tx) then ret tt
   else
     let t :=
       mkMultisigTransaction (mt_created multisig_tx) (mt_safe multisig_tx)
         (Some (tx_hash (ethereum_tx itx))) (mt_to multisig_tx)
         (mt_value multisig_tx) (mt_data multisig_tx) (mt_operation multisig_tx)
         (mt_safe_tx_gas multisig_tx) (mt_base_gas multisig_tx)
         (mt_gas_price multisig_tx) (mt_gas_token multisig_tx)
         (mt_refund_receiver multisig_tx) (mt_nonce multisig_tx)
         (Some signatures) (Some failed) true in
     modify_db (fun database =>
       set_multisig_transactions database
         (<[h := t]> (multisig_transactions database))));;
  modify_db (fun database =>
    set_multisig_confirmations database
      (fold_left (confirm_signature itx h) (parse_signature signatures h)
         (multisig_confirmations database)));;
  store_new_safe_status (set_nonce safe_last_status (resolved_nonce + 1)) itx;;
  ret tt.

(** The [setup] branch. *)
Definition process_setup (d : InternalTxDecoded) : M unit :=
  let itx := internal_tx d in
  let args := arguments d in
  owners_v ← getitem args "_owners";
  threshold_v ← getitem args "_threshold";
  let fallback_handler_v := default (VStr NULL_ADDRESS) (args !! "fallbackHandler") in
  contract_address ← require (_from itx);
  database ← get_db;
  match safe_contracts database !! contract_address with
  | Some safe_contract =>
      if truthy_opt_bytes (sc_ethereum_tx_id safe_contract) then ret tt
      else modify_db (fun database =>
             set_safe_contracts database
               (<[contract_address :=
                    mkSafeContract (Some (tx_hash (ethereum_tx itx)))
                      (banned safe_contract)]> (safe_contracts database)))
  | None =>
      modify_db (fun database =>
        set_safe_contracts database
          (<[contract_address :=
               mkSafeContract (Some (tx_hash (ethereum_tx itx))) false]>
             (safe_contracts database)))
  end;;
  owner_list ← as_str_list owners_v;
  threshold_n ← as_int threshold_v;
  fallback ← as_str fallback_handler_v;
  master ← require (to itx);
  store_new_safe_status
    (mkSafeLastStatus itx contract_address owner_list threshold_n 0 master
       fallback None []) itx;;
  ret tt.

(** [__process_decoded_transaction] *)
Definition __process_decoded_transaction (d : InternalTxDecoded) : M bool :=
  let itx := internal_tx d in
  let contract_address := _from itx in
  let fn := function_name d in
  let args := arguments d in
  if (gas_used itx <? 1000)%Z then ret false
  else if String.eqb fn "setup"
          && negb (bool_decide (contract_address = Some NULL_ADDRESS))
  then process_setup d;; ret true
  else
    found ← get_last_safe_status_for_address contract_address;
    match found with
    | None => ret false
    | Some (safe_last_status, shared) =>
        if bool_decide (fn ∈ ["addOwnerWithThreshold"; "removeOwner";
                              "removeOwnerWithThreshold"])
        then
          threshold_v ← getitem args "_threshold";
          new_threshold ← (if truthy threshold_v then as_int threshold_v
                           else ret (threshold safe_last_status));
          let s := set_threshold safe_last_status new_threshold in
          assign contract_address shared s;;
          owner_v ← getitem args "owner";
          s ← (if String.eqb fn "addOwnerWithThreshold"
               then owner ← as_str owner_v;
                    ret (set_owners s (owner :: owners s))
               else swap_owner itx s owner_v VNone);
          store_new_safe_status s itx;;
          ret true
        else if String.eqb fn "swapOwner" then
          old_owner_v ← getitem args "oldOwner";
          new_owner_v ← getitem args "newOwner";
          s ← swap_owner itx safe_last_status old_owner_v new_owner_v;
          store_new_safe_status s itx;;
          ret true
        else if String.eqb fn "changeThreshold" then
          threshold_v ← getitem args "_threshold";
          new_threshold ← as_int threshold_v;
          store_new_safe_status (set_threshold safe_last_status new_threshold) itx;;
          ret true
        else if String.eqb fn "changeMasterCopy" then
          old_safe_version ←
            get_safe_version_from_master_copy (master_copy safe_last_status);
          master_copy_v ← getitem args "_masterCopy";
          new_master_copy ← as_str master_copy_v;
          let s := set_master_copy safe_last_status new_master_copy in
          assign contract_address shared s;;
          new_safe_version ← get_safe_version_from_master_copy (master_copy s);
          breaking ←
            (if truthy_opt_str old_safe_version && truthy_opt_str new_safe_version
             then require (is_version_breaking_signatures parse_base_version
                             (default "" old_safe_version)
                             (default "" new_safe_version))
             else ret false) : M bool;
          (if breaking : bool then modify_db (delete_queued contract_address)
           else ret tt);;
          store_new_safe_status s itx;;
          ret true
        else if String.eqb fn "setFallbackHandler" then
          handler_v ← getitem args "handler";
          handler ← as_str handler_v;
          store_new_safe_status (set_fallback_handler safe_last_status handler) itx;;
          ret true
        else if String.eqb fn "setGuard" then
          guard_v ← getitem args "guard";
          new_guard ← as_opt_str guard_v;
          let new_guard :=
            if bool_decide (new_guard = Some NULL_ADDRESS) then None else new_guard in
          store_new_safe_status (set_guard safe_last_status new_guard) itx;;
          ret true
        else if String.eqb fn "enableModule" then
          module_v ← getitem args "module";
          module ← as_str module_v;
          store_new_safe_status
            (set_enabled_modules safe_last_status
               (enabled_modules safe_last_status ++ [module])%list) itx;;
          ret true
        else if String.eqb fn "disableModule" then
          module_v ← getitem args "module";
          s ← disable_module itx safe_last_status module_v;
          store_new_safe_status s itx;;
          ret true
        else if bool_decide (fn ∈ ["execTransactionFromModule";
                                   "execTransactionFromModuleReturnData"])
        then process_module_transaction d;; ret true
        else if String.eqb fn "approveHash" then
          process_approve_hash d;; ret true
        else if String.eqb fn "execTransaction" then
          process_exec_transaction d safe_last_status;; ret true
        else if String.eqb fn "execTransactionFromModule" then
          ret true
        else ret false
    end.

(** [process_decoded_transaction], the single-call entry point. *)
Definition process_decoded_transaction (d : InternalTxDecoded) : M bool :=
  atomic (
    let contract_address := _from (internal_tx d) in
    clear_cache contract_address;;
    try_finally
      (processed_successfully ← __process_decoded_transaction d;
       set_processed d;;
       ret processed_successfully)
      (clear_cache contract_address;; ret tt)).

(** [contract_address in banned_addresses] *)
Definition is_banned (contract_address : option string)
    (banned_addresses : gset string) : bool :=
  match contract_address with
  | Some a => bool_decide (a ∈ banned_addresses)
  | None => false
  end.

(** The body of the [for] loop of [process_decoded_transactions]: the
    result list so far in, the result list out. *)
Fixpoint process_loop (banned_addresses : gset string)
    (internal_txs_decoded : list InternalTxDecoded) (results : list bool)
    : M (list bool) :=
  match internal_txs_decoded with
  | [] => ret results
  | d :: rest =>
      let contract_address := _from (internal_tx d) in
      if is_banned contract_address banned_addresses
      then process_loop banned_addresses rest (results ++ [false])%list
      else
        fun st =>
          match __process_decoded_transaction d st with
          | (st', Return result) =>
              process_loop banned_addresses rest (results ++ [result])%list st'
          | (st', Raise e) =>
              if is_CannotFindPreviousTrace e then (st', Raise e)
              else if is_TxProcessorException e
              then process_loop banned_addresses rest (results ++ [false])%list st'
              else (st', Raise e)
          end
  end.

(** The [finally] clause: one [clear_cache] per address of the batch. *)
Fixpoint clear_caches (contract_addresses : list (option string)) : M unit :=
  match contract_addresses with
  | [] => ret tt
  | a :: rest => clear_cache a;; clear_caches rest
  end.

(** [contract_addresses]: the set is kept as the list of the calls'
    addresses; membership and the effect of clearing each member are the
    same. *)
Definition contract_addresses (internal_txs_decoded : list InternalTxDecoded)
    : list (option string) :=
  List.map (fun d => _from (internal_tx d)) internal_txs_decoded.

(** [process_decoded_transactions], the batch entry point. *)
Definition process_decoded_transactions
    (internal_txs_decoded : list InternalTxDecoded) : M (list bool) :=
  atomic (
    match internal_txs_decoded with
    | [] => ret []
    | _ =>
        database ← get_db;
        let banned_addresses :=
          get_banned_addresses (contract_addresses internal_txs_decoded)
            database in
        try_finally
          (results ← process_loop banned_addresses internal_txs_decoded [];
           update_processed (List.map internal_tx_id internal_txs_decoded);;
           ret results)
          (clear_caches (contract_addresses internal_txs_decoded))
    end).

End SafeTxProcessor.

(** ** Further queries of [models.py] *)

(** [MultisigTransactionManager.last_nonce]: the nonce of the last executed
    transaction of the wallet, [None] when none is executed. *)
Definition last_nonce (safe : string) (txs : gmap (list N) MultisigTransaction)
    : option Z :=
  map_fold (fun _ t acc =>
              if executed t && String.eqb (mt_safe t) safe
              then Some (match acc with
                         | Some m => Z.max (mt_nonce t) m
                         | None => mt_nonce t
                         end)
              else acc)
    None txs.

(** [SafeStatusQuerySet.sorted_by_mined().first()] over the rows that pass a
    filter. *)
Definition first_by_mined (keep : SafeLastStatus -> bool)
    (table : gmap Z SafeLastStatus) : option SafeLastStatus :=
  map_fold (fun _ s best =>
              if keep s
              then match best with
                   | None => Some s
                   | Some b => match mined_compare s b with
                               | Gt => Some s
                               | _ => Some b
                               end
                   end
              else best)
    None table.

(** [SafeStatus.previous]: the last status of the wallet with a lower nonce. *)
Definition previous (self : SafeLastStatus) (database : Database)
    : option SafeLastStatus :=
  first_by_mined
    (fun s => String.eqb (address s) (address self) && (nonce s <? nonce self)%Z)
    (safe_statuses database).

(** What Python's [x and y] gives on an integer and a boolean: the integer
    when it is zero, the boolean otherwise. *)
Inductive int_or_bool :=
| AnInt (n : Z)
| ABool (b : bool).

Definition truthy_int_or_bool (v : int_or_bool) : bool :=
  match v with
  | AnInt n => negb (Z.eqb n 0)
  | ABool b => b
  end.

(** [SafeStatus.objects.distinct("nonce").filter(address=..., nonce__lte=...)]:
    the distinct nonces of the wallet's snapshots up to a nonce. *)
Definition distinct_nonces (a : string) (up_to : Z) (database : Database)
    : gset Z :=
  map_fold (fun _ s acc =>
              if String.eqb (address s) a && (nonce s <=? up_to)%Z
              then {[ nonce s ]} ∪ acc
              else acc)
    ∅ (safe_statuses database).

(** [SafeStatusBase.is_corrupted] *)
Definition is_corrupted (self : SafeLastStatus) (database : Database)
    : int_or_bool :=
  let safe_status_count :=
    Z.of_nat (size (distinct_nonces (address self) (nonce self) database)) in
  if (safe_status_count =? 0)%Z then AnInt safe_status_count
  else ABool (safe_status_count <=? nonce self)%Z.

(** The query sets of [InternalTxDecoded] are taken over the rows of the
    table: the stored calls, each with the [processed] flag the database has
    for it. *)
Definition is_processed (database : Database) (d : InternalTxDecoded) : bool :=
  bool_decide (internal_txs_decoded database !! internal_tx_id d = Some true).

Definition is_not_processed (database : Database) (d : InternalTxDecoded) : bool :=
  bool_decide (internal_txs_decoded database !! internal_tx_id d = Some false).

(** [InternalTxDecodedQuerySet.for_safe], [.processed] and [.not_processed] *)
Definition for_safe (safe_address : string) (rows : list InternalTxDecoded)
    : list InternalTxDecoded :=
  List.filter (fun d => bool_decide (_from (internal_tx d) = Some safe_address)) rows.

Definition processed (database : Database) (rows : list InternalTxDecoded)
    : list InternalTxDecoded :=
  List.filter (is_processed database) rows.

Definition not_processed (database : Database) (rows : list InternalTxDecoded)
    : list InternalTxDecoded :=
  List.filter (is_not_processed database) rows.

(** The order of [order_by_processing_queue]: [setup] calls first, then by
    block number, by transaction index (ascending, a missing index last) and
    by row id. *)
Definition is_setup (d : InternalTxDecoded) : Z :=
  if String.eqb (function_name d) "setup" then 0 else 1.

Definition compare_asc_opt (a b : option Z) : comparison :=
  match a, b with
  | None, None => Eq
  | None, Some _ => Gt
  | Some _, None => Lt
  | Some x, Some y => Z.compare x y
  end.

Definition queue_compare (a b : InternalTxDecoded) : comparison :=
  match Z.compare (is_setup a) (is_setup b) with
  | Eq =>
      match Z.compare (block_number (internal_tx a))
                      (block_number (internal_tx b)) with
      | Eq =>
          match compare_asc_opt
                  (transaction_index (ethereum_tx (internal_tx a)))
                  (transaction_index (ethereum_tx (internal_tx b))) with
          | Eq => Z.compare (internal_tx_id a) (internal_tx_id b)
          | c => c
          end
      | c => c
      end
  | c => c
  end.

Definition queue_leb (a b : InternalTxDecoded) : bool :=
  match queue_compare a b with Gt => false | _ => true end.

Fixpoint queue_insert (d : InternalTxDecoded) (l : list InternalTxDecoded)
    : list InternalTxDecoded :=
  match l with
  | [] => [d]
  | x :: l' => if queue_leb d x then d :: l else x :: queue_insert d l'
  end.

(** [InternalTxDecodedQuerySet.order_by_processing_queue] *)
Definition order_by_processing_queue (rows : list InternalTxDecoded)
    : list InternalTxDecoded :=
  foldr queue_insert [] rows.

(** [InternalTxDecodedQuerySet.pending_for_safes] and [.pending_for_safe] *)
Definition pending_for_safes (database : Database) (rows : list InternalTxDecoded)
    : list InternalTxDecoded :=
  order_by_processing_queue (not_processed database rows).

Definition pending_for_safe (safe_address : string) (database : Database)
    (rows : list InternalTxDecoded) : list InternalTxDecoded :=
  List.filter (fun d => bool_decide (_from (internal_tx d) = Some safe_address))
    (pending_for_safes database rows).

(** [InternalTxDecodedManager.out_of_order_for_safe]: a call of the wallet is
    not processed although a call of a later block is. *)
Definition max_block_number (rows : list InternalTxDecoded) : option Z :=
  foldr (fun d acc =>
           Some (match acc with
                 | Some m => Z.max (block_number (internal_tx d)) m
                 | None => block_number (internal_tx d)
                 end))
    None rows.

Definition out_of_order_for_safe (safe_address : string) (database : Database)
    (rows : list InternalTxDecoded) : bool :=
  match max_block_number (processed database (for_safe safe_address rows)) with
  | None => false
  | Some newest =>
      existsb (fun d => (block_number (internal_tx d) <? newest)%Z)
        (not_processed database (for_safe safe_address rows))
  end.

(** ** The default batch of [TxProcessor] *)

Section TxProcessor.

(** The abstract method. *)
Variable abstract_process_decoded_transaction : InternalTxDecoded -> M bool.

(** [TxProcessor.process_decoded_transactions]: the list comprehension
    calls the method on each call in turn. *)
Fixpoint default_process_decoded_transactions
    (internal_txs_decoded : list InternalTxDecoded) : M (list bool) :=
  match internal_txs_decoded with
  | [] => ret []
  | decoded_transaction :: rest =>
      r ← abstract_process_decoded_transaction decoded_transaction;
      rs ← default_process_decoded_transactions rest;
      ret (r :: rs)
  end.

End TxProcessor.

(** ** Notions used to state the properties *)

(** The smaller and the larger of two versions, in the order of [packaging]. *)
Definition smaller_version (a b : Version) : Version :=
  if PyVersion.le a b then a else b.

Definition larger_version (a b : Version) : Version :=
  if PyVersion.le a b then b else a.

(** A boundary lies strictly above [lo] and at or below [hi]. *)
Definition boundary_between (lo hi boundary : Version) : Prop :=
  PyVersion.lt lo boundary = true ∧ PyVersion.le boundary hi = true.

(** [m] relates every state it starts in to the state it ends in, whether
    it returns or raises. *)
Definition respects {A} (R : State -> State -> Prop) (m : M A) : Prop :=
  forall st st' o, m st = (st', o) -> R st st'.

(** The table of decoded calls and the statements issued on it are as before. *)
Definition same_decoded (st st' : State) : Prop :=
  internal_txs_decoded (db st') = internal_txs_decoded (db st)
  /\ decoded_updates (db st') = decoded_updates (db st).

(** The wallet statuses (latest rows, history and cache) are as before. *)
Definition same_statuses (st st' : State) : Prop :=
  safe_last_statuses (db st') = safe_last_statuses (db st)
  /\ safe_statuses (db st') = safe_statuses (db st)
  /\ safe_last_status_cache st' = safe_last_status_cache st.

(** The database is as before. *)
Definition same_db (st st' : State) : Prop := db st' = db st.

(** The nonce an [execTransaction] call resolves to: the one the L2 event
    carries, else the nonce of the status in hand. *)
Definition resolved_nonce (d : InternalTxDecoded) (s : SafeLastStatus) : Z :=
  match arguments d !! "nonce" with
  | Some (VInt n) => n
  | _ => nonce s
  end.

(** [d] is a call that removes or replaces the owner [owner_v], with the
    arguments the decoder gives such a call: [oldOwner] and [newOwner] for
    [swapOwner]; [owner] and a [_threshold] that is an integer or null for
    [removeOwner] and [removeOwnerWithThreshold]. *)
Definition owner_removal_call (d : InternalTxDecoded) (owner_v : value) : Prop :=
  (function_name d = "swapOwner"
   /\ arguments d !! "oldOwner" = Some owner_v
   /\ is_Some (arguments d !! "newOwner"))
  \/ ((function_name d = "removeOwner"
       \/ function_name d = "removeOwnerWithThreshold")
      /\ arguments d !! "owner" = Some owner_v
      /\ exists threshold_v,
           arguments d !! "_threshold" = Some threshold_v
           /\ (truthy threshold_v = true -> exists n, threshold_v = VInt n)).

(** The same call under another function name. *)
Definition with_function_name (d : InternalTxDecoded) (fn : string)
    : InternalTxDecoded :=
  mkInternalTxDecoded (internal_tx d) fn (arguments d).


(** The table of module transactions is as before. *)
Definition same_module_transactions (st st' : State) : Prop :=
  module_transactions (db st') = module_transactions (db st).

(** Every cached status sits under its own address, and that address is one
    of [addresses]. *)
Definition cache_good (addresses : list (option string)) (st : State) : Prop :=
  forall k s, safe_last_status_cache st !! k = Some s ->
              address s = k /\ Some k ∈ addresses.


(** ** Notions used to state the further properties *)

(** The function names [__process_decoded_transaction] has a branch for. *)
Definition known_function_names : list string :=
  ["setup"; "addOwnerWithThreshold"; "removeOwner"; "removeOwnerWithThreshold";
   "swapOwner"; "changeThreshold"; "changeMasterCopy"; "setFallbackHandler";
   "setGuard"; "enableModule"; "disableModule"; "execTransactionFromModule";
   "execTransactionFromModuleReturnData"; "approveHash"; "execTransaction"].

(** The threshold an owner call leaves: the one it carries, the current one
    when it carries none. *)
Definition new_threshold (threshold_v : value) (s : SafeLastStatus) : Z :=
  match threshold_v with
  | VInt n => if Z.eqb n 0 then threshold s else n
  | _ => threshold s
  end.

(** The [_threshold] argument as the decoder gives it: an integer or null. *)
Definition threshold_argument (d : InternalTxDecoded) (threshold_v : value) : Prop :=
  arguments d !! "_threshold" = Some threshold_v
  /\ (truthy threshold_v = true -> exists n, threshold_v = VInt n).

(** The three places a stored status is found in. *)
Definition stored_status (st : State) (a : string) (s : SafeLastStatus) : Prop :=
  safe_last_status_cache st !! a = Some s
  /\ safe_last_statuses (db st) !! a = Some s
  /\ safe_statuses (db st) !! id (status_internal_tx s) = Some s.

(** [l] with [x] put in the place of every [y]. *)
Definition replace_owner (y x : string) (l : list string) : list string :=
  List.map (fun current_owner =>
              if String.eqb current_owner y then x else current_owner) l.

(** What the unique constraint of [MultisigConfirmation] is on: the hash of
    the transaction, when the row has one, and the owner. *)
Definition confirmation_key (c : MultisigConfirmation)
    : option (list N * string) :=
  (fun h => (h, mc_owner c)) <$> mc_multisig_transaction_hash c.

Definition unique_confirmations (l : list MultisigConfirmation) : Prop :=
  NoDup (omap confirmation_key l).

(** Confirmations that were unique stay unique. *)
Definition keeps_confirmations_unique (st st' : State) : Prop :=
  unique_confirmations (multisig_confirmations (db st)) ->
  unique_confirmations (multisig_confirmations (db st')).

(** ** Concrete collaborators and sample data

    Stand-ins for the external libraries and nodes, used to run the
    processor on concrete calls. *)

Module Fixture.

Definition digit (c : Ascii.ascii) : option N :=
  let n := Ascii.N_of_ascii c in
  if (48 <=? n)%N && (n <=? 57)%N then Some (n - 48)%N else None.

(** Plain release strings, [N(.N)*]: the fragment of the version grammar
    without epoch, pre, post, dev or local segment, which is its own base
    version. *)
Fixpoint parse_release (s : string) (current : option N) (acc : list N)
    : option (list N) :=
  match s with
  | EmptyString =>
      match current with
      | Some n => Some (rev (n :: acc))
      | None => None
      end
  | String c s' =>
      if (Ascii.N_of_ascii c =? 46)%N then
        match current with
        | Some n => parse_release s' None (n :: acc)
        | None => None
        end
      else
        match digit c with
        | Some k => parse_release s' (Some (10 * default 0%N current + k)%N) acc
        | None => None
        end
  end.

Definition parse_base_version (s : string) : option Version :=
  PyVersion.mkVersion 0 <$> parse_release s None [].

(** Byte strings are written as the character codes of their text. *)
Definition HexBytes (v : value) : option (list N) :=
  match v with
  | VStr s => Some (Ascii.N_of_ascii <$> String.list_ascii_of_string s)
  | _ => None
  end.

Definition safe_tx_failure_events_topics : list (list N) := [[1%N]].
Definition safe_tx_module_failure_topics : list (list N) := [[2%N]].

Definition safe_tx_hash (t : SafeTx) : list N :=
  [Z.to_N (stx_safe_nonce t); 77%N].

Definition parse_signature (signatures h : list N) : list SafeSignature :=
  match signatures with
  | [] => []
  | _ => [mkSafeSignature "0xOwnerA" signatures signatures 2]
  end.

Definition build_for_owner (owner : string) (h : list N) : SafeSignature :=
  mkSafeSignature owner h h 1.

Definition get_chain_id : Z := 1.

(** A tracing node that finds no trace, and one that fails. *)
Definition tracing_none : option (list N -> list Z -> rpc_result) :=
  Some (fun _ _ => RpcReturn None).
Definition tracing_rpc_error : option (list N -> list Z -> rpc_result) :=
  Some (fun _ _ => RpcRaise).

Definition process_aa_transaction (a : option string) (t : EthereumTx) : nat := 0.

Definition run {A} (tracing : option (list N -> list Z -> rpc_result))
    (f : (string -> option Version) -> (value -> option (list N)) ->
         list (list N) -> list (list N) -> (SafeTx -> list N) ->
         (list N -> list N -> list SafeSignature) ->
         (string -> list N -> SafeSignature) -> Z ->
         option (list N -> list Z -> rpc_result) ->
         (option string -> EthereumTx -> nat) -> A) : A :=
  f parse_base_version HexBytes safe_tx_failure_events_topics
    safe_tx_module_failure_topics safe_tx_hash parse_signature build_for_owner
    get_chain_id tracing process_aa_transaction.

Definition empty_db : Database :=
  mkDatabase ∅ [] ∅ ∅ ∅ ∅ ∅ [] ∅ [] [] [].

Definition wallet : string := "0xWallet".
Definition master_copy_1_1_1 : string := "0xMasterCopy111".
Definition master_copy_1_3_0 : string := "0xMasterCopy130".

Definition tx0 : EthereumTx := mkEthereumTx [9%N] (Some []) (Some 0).

Definition itx (n : Z) (gas : Z) : InternalTx :=
  mkInternalTx n tx0 100 10 (Some wallet) (Some master_copy_1_1_1) gas [0].

Definition call (n : Z) (fn : string) (args : list (string * value))
    : InternalTxDecoded :=
  mkInternalTxDecoded (itx n 5000) fn (list_to_map args).

Definition setup_call : InternalTxDecoded :=
  call 1 "setup" [("_owners", VList ["0xOwnerA"; "0xOwnerB"]);
                  ("_threshold", VInt 1)].

Definition status0 : SafeLastStatus :=
  mkSafeLastStatus (itx 1 5000) wallet ["0xOwnerA"; "0xOwnerB"] 1 0
    master_copy_1_1_1 NULL_ADDRESS None [].

(** A database that knows the wallet, its status and two master copies,
    with the three calls of a batch stored and not processed. *)
Definition db0 : Database :=
  mkDatabase (list_to_map [(2, false); (3, false); (4, false)]) []
    {[ wallet := mkSafeContract (Some [9%N]) false ]}
    {[ wallet := status0 ]}
    {[ 1 := status0 ]}
    (list_to_map [(master_copy_1_1_1, "1.1.1"); (master_copy_1_3_0, "1.3.0")])
    ∅ [] ∅ [] [] [].

Definition st0 : State := mkState db0 ∅.

(** The calls of the examples. *)
Definition add_owner_call : InternalTxDecoded :=
  call 2 "addOwnerWithThreshold" [("owner", VStr "0xOwnerC"); ("_threshold", VInt 2)].

Definition remove_absent_owner_call : InternalTxDecoded :=
  call 3 "removeOwner" [("owner", VStr "0xNobody"); ("_threshold", VInt 5)].

Definition change_threshold_call : InternalTxDecoded :=
  call 4 "changeThreshold" [("_threshold", VInt 1)].

Definition exec_transaction_call : InternalTxDecoded :=
  call 2 "execTransaction"
    [("to", VStr "0xTo"); ("value", VInt 0); ("data", VStr "");
     ("operation", VInt 0); ("safeTxGas", VInt 0); ("baseGas", VInt 0);
     ("gasPrice", VInt 0); ("gasToken", VStr NULL_ADDRESS);
     ("refundReceiver", VStr NULL_ADDRESS); ("signatures", VStr "")].

Definition module_call : InternalTxDecoded :=
  call 2 "execTransactionFromModule"
    [("module", VStr "0xModule"); ("to", VStr "0xTo"); ("value", VInt 0);
     ("data", VStr ""); ("operation", VInt 0)].

Definition approve_hash_call : InternalTxDecoded :=
  call 2 "approveHash" [("hashToApprove", VStr "0xHash")].


Definition low_gas_call : InternalTxDecoded :=
  mkInternalTxDecoded (itx 2 500) "setup"
    (list_to_map [("_owners", VList ["0xOwnerA"]); ("_threshold", VInt 1)]).

(** Three transactions: one executed with nonce 0, one proposed with
    nonce 1 and one proposed for another wallet. *)
Definition multisig_tx (safe : string) (executed_in : option (list N)) (n : Z)
    : MultisigTransaction :=
  mkMultisigTransaction 50 safe executed_in (VStr "0xTo") (VInt 0) None (VInt 0)
    (VInt 0) (VInt 0) (VInt 0) (VStr NULL_ADDRESS) (VStr NULL_ADDRESS) n None
    None true.

Definition db_with_queue : Database :=
  set_multisig_transactions db0
    (list_to_map [([1%N], multisig_tx wallet (Some [8%N]) 0);
                  ([2%N], multisig_tx wallet None 1);
                  ([3%N], multisig_tx "0xOtherWallet" None 1)]).


(** A database that has no status for the wallet, and a cache that still
    holds one. *)
Definition db_without_status : Database :=
  mkDatabase (list_to_map [(2, false); (3, false); (4, false)]) []
    ∅ ∅ ∅ ∅ ∅ [] ∅ [] [] [].

Definition st_cached_beforehand : State :=
  mkState db_without_status {[ wallet := status0 ]}.

(** More calls, and databases for them. *)
Definition swap_owner_call : InternalTxDecoded :=
  call 2 "swapOwner" [("oldOwner", VStr "0xOwnerA"); ("newOwner", VStr "0xOwnerC")].

Definition remove_owner_call : InternalTxDecoded :=
  call 3 "removeOwner" [("owner", VStr "0xOwnerB"); ("_threshold", VInt 1)].

Definition remove_added_owner_call : InternalTxDecoded :=
  call 3 "removeOwner" [("owner", VStr "0xOwnerC"); ("_threshold", VInt 1)].

Definition enable_module_call : InternalTxDecoded :=
  call 2 "enableModule" [("module", VStr "0xModule")].

Definition disable_module_call : InternalTxDecoded :=
  call 3 "disableModule" [("module", VStr "0xModule")].

Definition set_guard_call : InternalTxDecoded :=
  call 2 "setGuard" [("guard", VStr NULL_ADDRESS)].

Definition unknown_function_call : InternalTxDecoded :=
  call 2 "transferOwnership" [].

Definition approve_hash_by_owner_call : InternalTxDecoded :=
  call 2 "approveHash" [("hashToApprove", VStr "0xHash"); ("owner", VStr "0xOwnerA")].

(** The latest row of the wallet is gone, its snapshot is there. *)
Definition db_latest_row_lost : Database := set_safe_last_statuses db0 ∅.

(** Snapshots of the wallet with the nonces 0 and 2. *)
Definition status_nonce_2 : SafeLastStatus :=
  set_internal_tx (set_nonce status0 2) (itx 5 5000).

Definition db_with_gap : Database :=
  set_safe_statuses db0 (list_to_map [(1, status0); (5, status_nonce_2)]).

(** The wallet is banned. *)
Definition db_banned : Database :=
  set_safe_contracts db0 {[ wallet := mkSafeContract (Some [9%N]) true ]}.


Definition module_failed_tx : EthereumTx :=
  mkEthereumTx [9%N]
    (Some [mkLog (Some wallet)
             [[2%N]; default [] (HexBytes (VStr "0xModule"))] []])
    (Some 0).

End Fixture.

(** * Properties *)

(** ** The order on versions *)

Module PyVersionFacts.
Import PyVersion.

Lemma tuple_compare_antisym a b :
  tuple_compare a b = CompOpp (tuple_compare b a).
Proof.
  revert b; induction a as [|x a IH]; intros [|y b]; simpl; try reflexivity.
  rewrite (N.compare_antisym y x).
  destruct (N.compare y x); simpl; auto.
Qed.

Lemma tuple_compare_eq a b : tuple_compare a b = Eq -> a = b.
Proof.
  revert b; induction a as [|x a IH]; intros [|y b]; simpl; try discriminate; auto.
  destruct (N.compare x y) eqn:E; try discriminate.
  apply N.compare_eq in E. intros H. f_equal; auto.
Qed.

Lemma tuple_compare_refl a : tuple_compare a a = Eq.
Proof.
  induction a as [|x a IH]; simpl; auto. now rewrite N.compare_refl.
Qed.

Lemma tuple_compare_lt_trans a b c :
  tuple_compare a b = Lt -> tuple_compare b c = Lt -> tuple_compare a c = Lt.
Proof.
  revert b c; induction a as [|x a IH]; intros [|y b] [|z c]; simpl;
    try discriminate; auto.
  destruct (N.compare x y) eqn:Exy; try discriminate;
    destruct (N.compare y z) eqn:Eyz; try discriminate; intros H1 H2.
  - apply N.compare_eq in Exy, Eyz. subst. rewrite N.compare_refl. eauto.
  - apply N.compare_eq in Exy. subst. now rewrite Eyz.
  - apply N.compare_eq in Eyz. subst. now rewrite Exy.
  - rewrite N.compare_lt_iff in Exy, Eyz.
    assert (x < z)%N as Hxz by lia.
    rewrite <- N.compare_lt_iff in Hxz. now rewrite Hxz.
Qed.

Lemma compare_antisym a b : compare a b = CompOpp (compare b a).
Proof.
  unfold compare. rewrite (N.compare_antisym (epoch b) (epoch a)).
  destruct (N.compare (epoch b) (epoch a)); simpl; auto.
  apply tuple_compare_antisym.
Qed.

Lemma compare_refl a : compare a a = Eq.
Proof. unfold compare. rewrite N.compare_refl. apply tuple_compare_refl. Qed.

(** Versions that compare equal have the same key, so they compare alike
    with any third version. *)
Lemma compare_eq_l a b c : compare a b = Eq -> compare a c = compare b c.
Proof.
  unfold compare. destruct (N.compare (epoch a) (epoch b)) eqn:E; try discriminate.
  apply N.compare_eq in E. intros H%tuple_compare_eq. now rewrite E, H.
Qed.

Lemma compare_eq_r a b c : compare a b = Eq -> compare c a = compare c b.
Proof.
  intros H. rewrite (compare_antisym c a), (compare_antisym c b).
  now rewrite (compare_eq_l a b c H).
Qed.

Lemma compare_lt_trans a b c :
  compare a b = Lt -> compare b c = Lt -> compare a c = Lt.
Proof.
  unfold compare.
  destruct (N.compare (epoch a) (epoch b)) eqn:Eab; try discriminate;
    destruct (N.compare (epoch b) (epoch c)) eqn:Ebc; try discriminate; intros H1 H2.
  - apply N.compare_eq in Eab, Ebc. rewrite Eab, Ebc, N.compare_refl.
    eapply tuple_compare_lt_trans; eauto.
  - apply N.compare_eq in Eab. now rewrite Eab, Ebc.
  - apply N.compare_eq in Ebc. now rewrite <- Ebc, Eab.
  - rewrite N.compare_lt_iff in Eab, Ebc.
    assert (epoch a < epoch c)%N as H by lia.
    rewrite <- N.compare_lt_iff in H. now rewrite H.
Qed.

Lemma lt_not_le a b : lt b a = negb (le a b).
Proof.
  unfold lt, le. rewrite (compare_antisym b a).
  destruct (compare a b); reflexivity.
Qed.

(** Nothing lies strictly above the larger and at or below the smaller. *)
Lemma no_boundary_backwards a b c :
  le a b = true -> lt b c = true -> le c a = true -> False.
Proof.
  unfold le, lt. intros Hab Hbc Hca.
  destruct (compare b c) eqn:Ebc; try discriminate.
  destruct (compare a b) eqn:Eab; try discriminate.
  - rewrite (compare_eq_r a b c Eab), (compare_antisym c b), Ebc in Hca.
    discriminate.
  - rewrite (compare_antisym c a), (compare_lt_trans a b c Eab Ebc) in Hca.
    discriminate.
Qed.

End PyVersionFacts.

(** ** Signature-breaking version changes *)

Lemma breaking_between_spec old_version new_version boundaries :
  breaking_between old_version new_version boundaries = true <->
  exists boundary, boundary ∈ boundaries
                   /\ boundary_between old_version new_version boundary.
Proof.
  unfold boundary_between.
  induction boundaries as [|bv rest IH]; simpl.
  - split; [discriminate | intros (x & Hx & _); inversion Hx].
  - destruct (PyVersion.lt old_version bv && PyVersion.le bv new_version) eqn:E.
    + split; [intros _ | reflexivity].
      apply andb_true_iff in E. exists bv. split; [left | exact E].
    + rewrite IH. split.
      * intros (x & Hx & Hb). exists x. split; [now right | exact Hb].
      * intros (x & Hx & Hlt & Hle). apply elem_of_cons in Hx as [-> | Hx].
        -- rewrite Hlt, Hle in E. discriminate.
        -- exists x. auto.
Qed.


(** The swap of [is_version_breaking_signatures] puts the smaller version
    first. *)
Lemma swap_orders_versions old_version new_version :
  (if PyVersion.lt new_version old_version
   then (new_version, old_version) else (old_version, new_version))
  = (smaller_version old_version new_version,
     larger_version old_version new_version).
Proof.
  unfold smaller_version, larger_version.
  rewrite PyVersionFacts.lt_not_le.
  destruct (PyVersion.le old_version new_version); reflexivity.
Qed.


(** On two valid version strings the answer is whether a boundary lies
    between the smaller and the larger base version. *)
Lemma is_version_breaking_signatures_on_valid
    (parse_base_version : string -> option Version) (a b : string) va vb :
  parse_base_version a = Some va ->
  parse_base_version b = Some vb ->
  exists answer,
    is_version_breaking_signatures parse_base_version a b = Some answer
    /\ (answer = true <->
        exists boundary,
          boundary ∈ signature_breaking_versions
          /\ boundary_between (smaller_version va vb)
               (larger_version va vb) boundary).
Proof.
  intros Ha Hb. unfold is_version_breaking_signatures.
  rewrite Ha, Hb, swap_orders_versions.
  eexists. split; [reflexivity |]. apply breaking_between_spec.
Qed.



(** The answer does not depend on which of the two is the old version: the
    boundary may be crossed in either direction. *)
Lemma is_version_breaking_signatures_either_direction
    (parse_base_version : string -> option Version) (a b : string) va vb :
  parse_base_version a = Some va ->
  parse_base_version b = Some vb ->
  is_version_breaking_signatures parse_base_version a b = Some true <->
  exists boundary,
    boundary ∈ signature_breaking_versions
    /\ (boundary_between va vb boundary \/ boundary_between vb va boundary).
Proof.
  intros Ha Hb.
  destruct (is_version_breaking_signatures_on_valid
              parse_base_version a b va vb Ha Hb) as (answer & -> & Hiff).
  split.
  - intros [= ->]. destruct (proj1 Hiff eq_refl) as (bv & Hin & Hbt).
    exists bv. split; [exact Hin |].
    unfold smaller_version, larger_version in Hbt.
    destruct (PyVersion.le va vb); auto.
  - intros (bv & Hin & Hbt). f_equal. apply Hiff. exists bv. split; [exact Hin |].
    unfold smaller_version, larger_version, boundary_between in *.
    destruct (PyVersion.le va vb) eqn:Hle.
    + destruct Hbt as [Hbt | [H1 H2]]; [exact Hbt |].
      exfalso. exact (PyVersionFacts.no_boundary_backwards va vb bv Hle H1 H2).
    + destruct Hbt as [[H1 H2] | Hbt]; [| exact Hbt].
      exfalso.
      assert (PyVersion.le vb va = true) as Hle'.
      { unfold PyVersion.le in *. rewrite PyVersionFacts.compare_antisym.
        destruct (PyVersion.compare va vb); simpl; auto; discriminate. }
      exact (PyVersionFacts.no_boundary_backwards vb va bv Hle' H1 H2).
Qed.

(** ** The monad *)

#[global] Instance same_decoded_preorder : PreOrder same_decoded.
Proof.
  split.
  - intros st. split; reflexivity.
  - intros a b c [H1 H2] [H3 H4]. split; congruence.
Qed.

#[global] Instance same_statuses_preorder : PreOrder same_statuses.
Proof.
  split.
  - intros st. repeat split; reflexivity.
  - intros a b c (H1 & H2 & H3) (H4 & H5 & H6). repeat split; congruence.
Qed.

#[global] Instance same_module_transactions_preorder :
  PreOrder same_module_transactions.
Proof.
  split.
  - intros st. reflexivity.
  - intros a b c H1 H2. unfold same_module_transactions in *. congruence.
Qed.

#[global] Instance same_db_preorder : PreOrder same_db.
Proof.
  split.
  - intros st. reflexivity.
  - intros a b c H1 H2. unfold same_db in *. congruence.
Qed.

Section MonadFacts.
Context {A B : Type}.

Lemma bind_Return (m : M A) (k : A -> M B) st st1 a :
  m st = (st1, Return a) -> (m ≫= k) st = k a st1.
Proof. intros H. unfold mbind, M_bind, bind. now rewrite H. Qed.

Lemma bind_Raise (m : M A) (k : A -> M B) st st1 e :
  m st = (st1, Raise e) -> (m ≫= k) st = (st1, Raise e).
Proof. intros H. unfold mbind, M_bind, bind. now rewrite H. Qed.

Lemma bind_Return_inv (m : M A) (k : A -> M B) st st' b :
  (m ≫= k) st = (st', Return b) ->
  exists a st1, m st = (st1, Return a) /\ k a st1 = (st', Return b).
Proof.
  unfold mbind, M_bind, bind. destruct (m st) as [st1 [a|e]]; intros H.
  - eauto.
  - discriminate.
Qed.

Lemma bind_Raise_inv (m : M A) (k : A -> M B) st st' e :
  (m ≫= k) st = (st', Raise e) ->
  m st = (st', Raise e)
  \/ exists a st1, m st = (st1, Return a) /\ k a st1 = (st', Raise e).
Proof.
  unfold mbind, M_bind, bind. destruct (m st) as [st1 [a|e1]]; intros H.
  - right. eauto.
  - left. injection H as -> ->. reflexivity.
Qed.

Variable R : State -> State -> Prop.
Context `{!PreOrder R}.

Lemma respects_ret (a : A) : respects R (mret a).
Proof. intros st st' o [= <- _]. reflexivity. Qed.

Lemma respects_raise (e : exn) : respects R (@raise A e).
Proof. intros st st' o [= <- _]. reflexivity. Qed.

Lemma respects_bind (m : M A) (k : A -> M B) :
  respects R m -> (forall a, respects R (k a)) -> respects R (m ≫= k).
Proof.
  intros Hm Hk st st' o. unfold mbind, M_bind, bind.
  destruct (m st) as [st1 [a|e]] eqn:E; intros H.
  - transitivity st1; [eapply Hm | eapply Hk]; eauto.
  - injection H as <- _. eapply Hm; eauto.
Qed.

End MonadFacts.

Section MonadFacts2.
Context {A : Type}.
Variable R : State -> State -> Prop.
Context `{!PreOrder R}.

Lemma respects_get_db : respects R get_db.
Proof. intros st st' o [= <- _]. reflexivity. Qed.

Lemma respects_get_cache : respects R get_cache.
Proof. intros st st' o [= <- _]. reflexivity. Qed.

Lemma respects_modify_db f :
  (forall st, R st (mkState (f (db st)) (safe_last_status_cache st))) ->
  respects R (modify_db f).
Proof. intros H st st' o [= <- _]. apply H. Qed.

Lemma respects_modify_cache f :
  (forall st, R st (mkState (db st) (f (safe_last_status_cache st)))) ->
  respects R (modify_cache f).
Proof. intros H st st' o [= <- _]. apply H. Qed.

Lemma respects_try_finally (m : M A) (cleanup : M unit) :
  respects R m -> respects R cleanup -> respects R (try_finally m cleanup).
Proof.
  intros Hm Hc st st' o. unfold try_finally.
  destruct (m st) as [st1 o1] eqn:E1.
  destruct (cleanup st1) as [st2 [u|e]] eqn:E2; intros [= <- _];
    (transitivity st1; [eapply Hm | eapply Hc]; eauto).
Qed.

End MonadFacts2.

Lemma respects_except {A} R `{!PreOrder R} (m handler : M A) :
  respects R m -> respects R handler -> respects R (except_Web3RPCError m handler).
Proof.
  intros Hm Hh st st' o. unfold except_Web3RPCError.
  destruct (m st) as [st1 [a|e]] eqn:E.
  - intros [= <- _]. eapply Hm; eauto.
  - destruct e; try (intros [= <- _]; eapply Hm; eauto).
    intros H. transitivity st1; [eapply Hm | eapply Hh]; eauto.
Qed.

Lemma respects_atomic {A} R `{!PreOrder R} (m : M A) :
  respects R m ->
  (forall st st', R st st' -> R st (mkState (db st) (safe_last_status_cache st'))) ->
  respects R (atomic m).
Proof.
  intros Hm Hroll st st' o. unfold atomic.
  destruct (m st) as [st1 [a|e]] eqn:E; intros [= <- _].
  - eapply Hm; eauto.
  - apply Hroll. eapply Hm; eauto.
Qed.

(** Walks through a monadic definition: every database update met has to
    leave the relation alone, which [reflexivity] checks on the setters. *)
Ltac respects_side := intros; repeat split; reflexivity.

Ltac respects_go :=
  repeat first
    [ match goal with |- PreOrder _ => apply _ end
    | apply respects_ret
    | apply respects_raise
    | apply respects_get_db
    | apply respects_get_cache
    | apply respects_bind; [ .. | intros ]
    | apply respects_except
    | apply respects_modify_db; solve [respects_side]
    | apply respects_modify_cache; solve [respects_side]
    | match goal with
      | |- respects _ (match ?x with _ => _ end) => destruct x
      | |- respects _ (if ?x then _ else _) => destruct x
      end
    | progress unfold getitem, as_str, as_int, as_str_list, as_opt_str, require,
        is_failed, is_module_failed, get_safe_version_from_master_copy,
        get_last_safe_status_for_address, get_or_generate, assign,
        store_new_safe_status, swap_owner, disable_module, get_previous_trace,
        get_or_create_relevant, process_module_transaction, process_approve_hash,
        process_exec_transaction, process_setup ].

(** Takes the first step off a run that returned. *)
Ltac peel H :=
  let a := fresh "a" in
  let st := fresh "st" in
  let H1 := fresh "Hstep" in
  apply bind_Return_inv in H as (a & st & H1 & H);
  try match type of H with
      | context [let '(_, _) := ?x in _] => destruct x
      end.

(** ** Clearing the cache *)

Lemma clear_cache_spec (a : option string) st :
  exists b cache',
    clear_cache a st = (mkState (db st) cache', Return b)
    /\ (forall k, a = Some k -> cache' !! k = None)
    /\ (forall k, cache' !! k = None
                  \/ cache' !! k = safe_last_status_cache st !! k).
Proof.
  unfold clear_cache. destruct (truthy_opt_str a) eqn:Ht.
  - destruct a as [a|]; [| discriminate].
    unfold mbind, M_bind, bind, get_cache.
    destruct (safe_last_status_cache st !! a) eqn:E.
    + exists true, (delete a (safe_last_status_cache st)). simpl.
      split; [reflexivity |]. split.
      * intros k [= <-]. apply lookup_delete_eq.
      * intros k. destruct (decide (a = k)) as [<- | Hne].
        -- left. apply lookup_delete_eq.
        -- right. now apply lookup_delete_ne.
    + exists false, (safe_last_status_cache st). destruct st; simpl in *.
      split; [reflexivity |]. split.
      * intros k [= <-]. exact E.
      * intros k. now right.
  - exists true, ∅. split; [reflexivity |]. split.
    + intros k _. apply lookup_empty.
    + intros k. left. apply lookup_empty.
Qed.

Lemma clear_caches_spec (l : list (option string)) st :
  exists cache',
    clear_caches l st = (mkState (db st) cache', Return tt)
    /\ (forall k, Some k ∈ l -> cache' !! k = None)
    /\ (forall k, cache' !! k = None
                  \/ cache' !! k = safe_last_status_cache st !! k).
Proof.
  revert st. induction l as [|a l IH]; intros st.
  - exists (safe_last_status_cache st). destruct st; simpl. split; [reflexivity |].
    split; [intros k Hk; inversion Hk | intros k; now right].
  - destruct (clear_cache_spec a st) as (b & c1 & E1 & Hdel1 & Hmono1).
    destruct (IH (mkState (db st) c1)) as (c2 & E2 & Hdel2 & Hmono2).
    exists c2. simpl. erewrite bind_Return by exact E1. split; [exact E2 |]. split.
    + intros k Hk. apply elem_of_cons in Hk as [Hk | Hk].
      * destruct (Hmono2 k) as [H | H]; [exact H |].
        rewrite H. simpl. apply Hdel1. now symmetry.
      * now apply Hdel2.
    + intros k. destruct (Hmono2 k) as [H | H]; [now left |].
      simpl in H. rewrite H. apply Hmono1.
Qed.

(** ** Queued transactions *)

Lemma executed_true t : executed t = true <-> mt_ethereum_tx_id t <> None.
Proof. unfold executed. destruct (mt_ethereum_tx_id t); split; congruence. Qed.

Lemma is_safe_true wallet t : is_safe wallet t = true <-> Some (mt_safe t) = wallet.
Proof. unfold is_safe. apply bool_decide_eq_true. Qed.

Lemma max_executed_nonce_spec wallet txs n :
  max_executed_nonce wallet txs < n <->
  -1 < n /\ forall h t, txs !! h = Some t ->
                        mt_ethereum_tx_id t <> None ->
                        Some (mt_safe t) = wallet ->
                        mt_nonce t < n.
Proof.
  unfold max_executed_nonce. revert n.
  apply (map_fold_weak_ind
           (fun r m => forall n,
              r < n <-> -1 < n /\ forall h t, m !! h = Some t ->
                                             mt_ethereum_tx_id t <> None ->
                                             Some (mt_safe t) = wallet ->
                                             mt_nonce t < n)).
  - intros n. split; [intros H; split; [exact H |] | tauto].
    intros h t Hh. rewrite lookup_empty in Hh. discriminate.
  - intros i x m r Hi IH n.
    assert ((forall h t, <[i:=x]> m !! h = Some t ->
                         mt_ethereum_tx_id t <> None ->
                         Some (mt_safe t) = wallet -> mt_nonce t < n)
            <-> ((mt_ethereum_tx_id x <> None -> Some (mt_safe x) = wallet ->
                  mt_nonce x < n)
                 /\ forall h t, m !! h = Some t ->
                                mt_ethereum_tx_id t <> None ->
                                Some (mt_safe t) = wallet -> mt_nonce t < n))
      as Hsplit.
    { split.
      - intros H. split.
        + apply (H i). apply lookup_insert_eq.
        + intros h t Hh. apply (H h).
          rewrite lookup_insert_ne; [exact Hh | congruence].
      - intros [Hx Hm] h t Hh. destruct (decide (i = h)) as [<- | Hne].
        + rewrite lookup_insert_eq in Hh. injection Hh as <-. exact Hx.
        + rewrite lookup_insert_ne in Hh by exact Hne. exact (Hm h t Hh). }
    rewrite Hsplit. specialize (IH n).
    destruct (executed x && is_safe wallet x) eqn:E.
    + apply andb_true_iff in E as [He Hs].
      apply executed_true in He. apply is_safe_true in Hs.
      split.
      * intros H. assert (r < n) as Hr by lia. apply IH in Hr. intuition lia.
      * intros (H1 & Hx & Hm). specialize (Hx He Hs).
        assert (r < n) by (apply IH; tauto). lia.
    + assert (~ (mt_ethereum_tx_id x <> None /\ Some (mt_safe x) = wallet)) as Hn.
      { intros [He Hs]. apply executed_true in He. apply is_safe_true in Hs.
        rewrite He, Hs in E. discriminate. }
      rewrite IH. tauto.
Qed.




Section ProcessorFacts.

Variable parse_base_version : string -> option Version.
Variable HexBytes : value -> option (list N).
Variable safe_tx_failure_events_topics : list (list N).
Variable safe_tx_module_failure_topics : list (list N).
Variable safe_tx_hash : SafeTx -> list N.
Variable parse_signature : list N -> list N -> list SafeSignature.
Variable build_for_owner : string -> list N -> SafeSignature.
Variable get_chain_id : Z.
Variable ethereum_tracing_client : option (list N -> list Z -> rpc_result).
Variable process_aa_transaction : option string -> EthereumTx -> nat.

Local Abbreviation process :=
  (__process_decoded_transaction parse_base_version HexBytes
     safe_tx_failure_events_topics safe_tx_module_failure_topics safe_tx_hash
     parse_signature build_for_owner get_chain_id ethereum_tracing_client
     process_aa_transaction).
Local Abbreviation process_one :=
  (process_decoded_transaction parse_base_version HexBytes
     safe_tx_failure_events_topics safe_tx_module_failure_topics safe_tx_hash
     parse_signature build_for_owner get_chain_id ethereum_tracing_client
     process_aa_transaction).
Local Abbreviation process_many :=
  (process_decoded_transactions parse_base_version HexBytes
     safe_tx_failure_events_topics safe_tx_module_failure_topics safe_tx_hash
     parse_signature build_for_owner get_chain_id ethereum_tracing_client
     process_aa_transaction).
Local Abbreviation loop :=
  (process_loop parse_base_version HexBytes
     safe_tx_failure_events_topics safe_tx_module_failure_topics safe_tx_hash
     parse_signature build_for_owner get_chain_id ethereum_tracing_client
     process_aa_transaction).

(** *** The gas guard *)

(** C6.  A call whose trace used less than 1000 gas is reported
    unsuccessful whatever its function name, and the state (database and
    cache) is left exactly as it was. *)
Theorem low_gas_call_is_rejected (d : InternalTxDecoded) (st : State) :
  gas_used (internal_tx d) < 1000 ->
  process d st = (st, Return false).
Proof.
  intros Hgas. unfold __process_decoded_transaction.
  apply Z.ltb_lt in Hgas. rewrite Hgas. reflexivity.
Qed.

(** *** Processing one call never touches the table of decoded calls *)

Lemma process_respects_decoded d : respects same_decoded (process d).
Proof. unfold __process_decoded_transaction. respects_go. Qed.

Lemma loop_respects_decoded banned l results :
  respects same_decoded (loop banned l results).
Proof.
  revert results. induction l as [|d l IH]; intros results; simpl.
  - respects_go.
  - destruct (is_banned _ banned); [apply IH |].
    intros st st' o.
    destruct (process d st) as [st1 [r|e]] eqn:E.
    + intros H. transitivity st1; [eapply process_respects_decoded | eapply IH]; eauto.
    + destruct (is_CannotFindPreviousTrace e).
      * intros [= <- _]. eapply process_respects_decoded; eauto.
      * destruct (is_TxProcessorException e).
        -- intros H. transitivity st1;
             [eapply process_respects_decoded | eapply IH]; eauto.
        -- intros [= <- _]. eapply process_respects_decoded; eauto.
Qed.

Lemma loop_length banned l results st st' r :
  loop banned l results st = (st', Return r) ->
  length r = (length results + length l)%nat.
Proof.
  revert results st. induction l as [|d l IH]; intros results st; simpl.
  - intros [= _ <-]. lia.
  - destruct (is_banned _ banned).
    + intros H%IH. rewrite length_app in H. simpl in H. lia.
    + destruct (process d st) as [st1 [b|e]].
      * intros H%IH. rewrite length_app in H. simpl in H. lia.
      * destruct (is_CannotFindPreviousTrace e); [discriminate |].
        destruct (is_TxProcessorException e); [| discriminate].
        intros H%IH. rewrite length_app in H. simpl in H. lia.
Qed.

(** *** The batch, from its loop *)

Lemma process_many_nonempty l st :
  l <> [] ->
  process_many l st
  = atomic
      (database ← get_db;
       try_finally
         (results ← loop (get_banned_addresses (contract_addresses l) database) l [];
          update_processed (List.map internal_tx_id l);;
          ret results)
         (clear_caches (contract_addresses l))) st.
Proof. destruct l; [congruence | reflexivity]. Qed.

Lemma process_many_returns l st st1 results :
  l <> [] ->
  loop (get_banned_addresses (contract_addresses l) (db st)) l [] st
  = (st1, Return results) ->
  exists st2 cache',
    update_processed (List.map internal_tx_id l) st1 = (st2, Return tt)
    /\ process_many l st = (mkState (db st2) cache', Return results)
    /\ (forall k, Some k ∈ contract_addresses l -> cache' !! k = None)
    /\ (forall k, cache' !! k = None
                  \/ cache' !! k = safe_last_status_cache st1 !! k).
Proof.
  intros Hne Hloop.
  destruct (update_processed (List.map internal_tx_id l) st1) as [st2 o] eqn:Eu.
  assert (o = Return tt /\ safe_last_status_cache st2 = safe_last_status_cache st1)
    as [-> Hc].
  { unfold update_processed, modify_db in Eu. injection Eu as <- <-. auto. }
  destruct (clear_caches_spec (contract_addresses l) st2) as (c & Ec & Hdel & Hmono).
  exists st2, c. split; [reflexivity |]. split; [| split].
  - rewrite process_many_nonempty by exact Hne.
    unfold atomic, try_finally.
    unfold mbind at 1, M_bind at 1, bind at 1, get_db at 1. cbv beta iota.
    erewrite bind_Return by exact Hloop.
    erewrite bind_Return by exact Eu.
    unfold ret at 1. rewrite Ec. reflexivity.
  - exact Hdel.
  - intros k. rewrite <- Hc. apply Hmono.
Qed.

Lemma process_many_raises l st st1 e :
  l <> [] ->
  loop (get_banned_addresses (contract_addresses l) (db st)) l [] st
  = (st1, Raise e) ->
  exists cache',
    process_many l st = (mkState (db st) cache', Raise e)
    /\ (forall k, Some k ∈ contract_addresses l -> cache' !! k = None)
    /\ (forall k, cache' !! k = None
                  \/ cache' !! k = safe_last_status_cache st1 !! k).
Proof.
  intros Hne Hloop.
  destruct (clear_caches_spec (contract_addresses l) st1)
    as (c & Ec & Hdel & Hmono).
  exists c. split; [| split; assumption].
  rewrite process_many_nonempty by exact Hne.
  unfold atomic, try_finally.
  unfold mbind at 1, M_bind at 1, bind at 1, get_db at 1. cbv beta iota.
  erewrite bind_Raise by exact Hloop.
  rewrite Ec. reflexivity.
Qed.

Lemma process_many_empty st : process_many [] st = (st, Return []).
Proof. reflexivity. Qed.

Lemma loop_app banned pre rest results st st1 acc :
  loop banned pre results st = (st1, Return acc) ->
  loop banned (pre ++ rest) results st = loop banned rest acc st1.
Proof.
  revert results st. induction pre as [|d pre IH]; intros results st; simpl.
  - intros [= <- <-]. reflexivity.
  - destruct (is_banned _ banned); [apply IH |].
    destruct (process d st) as [st' [b|e]].
    + apply IH.
    + destruct (is_CannotFindPreviousTrace e); [discriminate |].
      destruct (is_TxProcessorException e); [apply IH | discriminate].
Qed.

(** The results already recorded stay where they are. *)
Lemma loop_extends banned l results st st' r :
  loop banned l results st = (st', Return r) ->
  exists suffix, r = (results ++ suffix)%list.
Proof.
  revert results st. induction l as [|d l IH]; intros results st; simpl.
  - intros [= _ <-]. exists []. now rewrite app_nil_r.
  - assert (forall b st0, loop banned l (results ++ [b]) st0 = (st', Return r) ->
                          exists suffix, r = (results ++ suffix)%list) as Hstep.
    { intros b st0 H. apply IH in H as [suffix ->].
      exists (b :: suffix). now rewrite <- app_assoc. }
    destruct (is_banned _ banned); [apply Hstep |].
    destruct (process d st) as [st1 [b|e]]; [apply Hstep |].
    destruct (is_CannotFindPreviousTrace e); [discriminate |].
    destruct (is_TxProcessorException e); [apply Hstep | discriminate].
Qed.



(** *** Error isolation in the batch *)


(** *** Marking the calls processed *)

Lemma update_processed_spec ids st st2 :
  update_processed ids st = (st2, Return tt) ->
  decoded_updates (db st2) = (decoded_updates (db st) ++ [ids])%list
  /\ forall k, internal_txs_decoded (db st2) !! k
               = (fun processed => if bool_decide (k ∈ ids) then true else processed)
                   <$> internal_txs_decoded (db st) !! k.
Proof.
  unfold update_processed, modify_db. intros [= <-]. simpl. split; [reflexivity |].
  intros k. rewrite map_lookup_imap.
  destruct (internal_txs_decoded (db st) !! k); reflexivity.
Qed.

(** C4.  When a batch runs to its end, whatever the outcome of each call
    (success, rejection, absorbed exception, banned wallet), exactly one
    UPDATE statement has been issued on the table of decoded calls, after
    the loop, for the ids of all the calls of the batch (none for an empty
    batch); after it every call of the batch that is a row of the table is
    marked processed, and no other row has changed. *)
Theorem batch_marks_every_call_processed (l : list InternalTxDecoded)
    (st st' : State) (results : list bool) :
  process_many l st = (st', Return results) ->
  decoded_updates (db st')
  = (decoded_updates (db st)
     ++ match l with [] => [] | _ => [List.map internal_tx_id l] end)%list
  /\ (forall d, d ∈ l ->
        is_Some (internal_txs_decoded (db st) !! internal_tx_id d) ->
        internal_txs_decoded (db st') !! internal_tx_id d = Some true)
  /\ (forall k, k ∉ List.map internal_tx_id l ->
        internal_txs_decoded (db st') !! k = internal_txs_decoded (db st) !! k)
  /\ length results = length l.
Proof.
  intros H. destruct (decide (l = [])) as [-> | Hne].
  - rewrite process_many_empty in H. injection H as <- <-.
    rewrite app_nil_r. repeat split; auto. intros d Hd. inversion Hd.
  - destruct (loop (get_banned_addresses (contract_addresses l) (db st)) l [] st)
      as [st1 [r|e1]] eqn:E.
    + destruct (process_many_returns _ _ _ _ Hne E) as (st2 & c & Hu & Heq & _).
      rewrite Heq in H. injection H as <- <-.
      destruct (loop_respects_decoded _ _ _ _ _ _ E) as [Ht Hlog].
      destruct (update_processed_spec _ _ _ Hu) as [Hlog2 Ht2].
      simpl. rewrite Hlog2, Hlog. split; [| split; [| split]].
      * destruct l; [congruence | reflexivity].
      * intros d Hd [p Hp]. rewrite Ht2, Ht, Hp. simpl.
        rewrite bool_decide_eq_true_2; [reflexivity |].
        apply list_elem_of_In, in_map, list_elem_of_In, Hd.
      * intros k Hk. rewrite Ht2, Ht.
        destruct (internal_txs_decoded (db st) !! k); [| reflexivity].
        simpl. now rewrite bool_decide_eq_false_2.
      * apply loop_length in E. exact E.
    + destruct (process_many_raises _ _ _ _ Hne E) as (c & Heq & _).
      rewrite Heq in H. discriminate.
Qed.

(** *** Dispatch on the function name *)

Lemma process_dispatch_exec_transaction d st :
  function_name d = "execTransaction" ->
  1000 <= gas_used (internal_tx d) ->
  process d st
  = (found ← get_last_safe_status_for_address (_from (internal_tx d));
     match found with
     | None => ret false
     | Some (safe_last_status, _) =>
         process_exec_transaction HexBytes safe_tx_failure_events_topics
           safe_tx_hash parse_signature get_chain_id d safe_last_status;;
         ret true
     end) st.
Proof.
  intros Hfn Hgas. unfold __process_decoded_transaction.
  apply Z.ltb_ge in Hgas. rewrite Hgas, Hfn. reflexivity.
Qed.

(** *** [execTransaction] *)

Lemma store_new_safe_status_spec s itx st st' r :
  store_new_safe_status s itx st = (st', Return r) ->
  let s' := set_internal_tx s itx in
  r = s'
  /\ safe_last_status_cache st' = <[address s := s']> (safe_last_status_cache st)
  /\ safe_last_statuses (db st') = <[address s := s']> (safe_last_statuses (db st))
  /\ safe_statuses (db st') = <[id itx := s']> (safe_statuses (db st)).
Proof.
  unfold store_new_safe_status, mbind, M_bind, bind, modify_db, modify_cache.
  simpl. intros [= <- <-]. simpl. auto.
Qed.

Lemma process_exec_transaction_spec d s st st' u :
  process_exec_transaction HexBytes safe_tx_failure_events_topics
    safe_tx_hash parse_signature get_chain_id d s st = (st', Return u) ->
  let s' := set_internal_tx (set_nonce s (resolved_nonce d s + 1)) (internal_tx d) in
  safe_last_status_cache st' !! address s = Some s'
  /\ safe_last_statuses (db st') !! address s = Some s'
  /\ safe_statuses (db st') !! id (internal_tx d) = Some s'.
Proof.
  unfold process_exec_transaction. intros H.
  apply bind_Return_inv in H as (n & st1 & Hn & H).
  assert (n = resolved_nonce d s) as ->.
  { unfold resolved_nonce. destruct (arguments d !! "nonce") as [v|].
    - destruct v; try discriminate. now injection Hn as _ <-.
    - now injection Hn as _ <-. }
  repeat peel H.
  injection H as <- _.
  match goal with
  | Hs : store_new_safe_status _ _ _ = _ |- _ =>
      apply store_new_safe_status_spec in Hs as (_ & Hc & Hl & Hh)
  end.
  simpl in *. rewrite Hc, Hl, Hh, !lookup_insert_eq. auto.
Qed.

(** C2.  When an [execTransaction] call of wallet [a] is processed with
    the status [s] of that wallet in hand, the call is reported
    successful, and the status stored in the cache, in the table of latest
    statuses and as the snapshot of this call is [s] with its nonce set to
    exactly the resolved nonce plus one, the resolved nonce being the
    [nonce] argument when the call has one and the nonce of [s]
    otherwise. *)
Theorem exec_transaction_advances_nonce (d : InternalTxDecoded)
    (st st1 st' : State) (r : bool) (a : string) (s : SafeLastStatus)
    (shared : bool) :
  function_name d = "execTransaction" ->
  1000 <= gas_used (internal_tx d) ->
  _from (internal_tx d) = Some a ->
  get_last_safe_status_for_address (Some a) st = (st1, Return (Some (s, shared))) ->
  address s = a ->
  process d st = (st', Return r) ->
  let s' := set_internal_tx (set_nonce s (resolved_nonce d s + 1)) (internal_tx d) in
  r = true
  /\ nonce s' = resolved_nonce d s + 1
  /\ safe_last_status_cache st' !! a = Some s'
  /\ safe_last_statuses (db st') !! a = Some s'
  /\ safe_statuses (db st') !! id (internal_tx d) = Some s'.
Proof.
  intros Hfn Hgas Hfrom Hget Haddr H s'.
  rewrite process_dispatch_exec_transaction in H by assumption.
  rewrite Hfrom in H. erewrite bind_Return in H by exact Hget.
  apply bind_Return_inv in H as (u & st2 & Hexec & H).
  injection H as <- <-.
  apply process_exec_transaction_spec in Hexec as (Hc & Hl & Hh).
  rewrite Haddr in Hc, Hl. auto.
Qed.

(** *** The status in hand *)

Lemma last_for_address_address a database s :
  last_for_address a database = Some s -> address s = a.
Proof.
  unfold last_for_address. revert s.
  apply (map_fold_weak_ind
           (fun r _ => forall s, r = Some s -> address s = a)).
  - discriminate.
  - intros i x m r _ IH s.
    destruct (String.eqb (address x) a) eqn:E; [| apply IH].
    apply String.eqb_eq in E.
    destruct r as [b|].
    + destruct (mined_compare x b); intros [= <-]; auto.
    + intros [= <-]. exact E.
Qed.

Lemma set_address_id s : set_address s (address s) = s.
Proof. destruct s; reflexivity. Qed.

(** What [get_last_safe_status_for_address] returns and leaves behind. *)
Lemma get_last_safe_status_spec a st st1 s shared :
  get_last_safe_status_for_address (Some a) st = (st1, Return (Some (s, shared))) ->
  safe_last_status_cache st1 = safe_last_status_cache st
  /\ (if shared then st1 = st /\ safe_last_status_cache st !! a = Some s
      else safe_last_status_cache st !! a = None
           /\ address s = a
           /\ exists row, safe_last_statuses (db st1) !! a = Some row
                          /\ set_address row a = s).
Proof.
  unfold get_last_safe_status_for_address, get_or_generate.
  unfold mbind, M_bind, bind, get_cache, get_db, modify_db. simpl.
  destruct (safe_last_status_cache st !! a) as [c|] eqn:Ec.
  - intros [= <- <- <-]. auto.
  - destruct (safe_last_statuses (db st) !! a) as [row|] eqn:Er.
    + intros [= <- <- <-]. eauto 6.
    + destruct (last_for_address a (db st)) as [h|] eqn:Eh; [| discriminate].
      intros [= <- <- <-]. simpl. split; [reflexivity |].
      split; [reflexivity |].
      apply last_for_address_address in Eh. split; [exact Eh |].
      exists h. rewrite <- Eh at 2. rewrite set_address_id. split; [| reflexivity].
      rewrite Eh. apply lookup_insert_eq.
Qed.

(** A status read from the database carries the address it was asked for. *)
Lemma status_from_database_is_the_wallets a st st1 s :
  get_last_safe_status_for_address (Some a) st = (st1, Return (Some (s, false))) ->
  address s = a.
Proof. intros H. apply get_last_safe_status_spec in H. tauto. Qed.

Lemma get_last_again a st st1 s shared :
  get_last_safe_status_for_address (Some a) st = (st1, Return (Some (s, shared))) ->
  get_last_safe_status_for_address (Some a) st1 = (st1, Return (Some (s, shared))).
Proof.
  intros H. pose proof (get_last_safe_status_spec _ _ _ _ _ H) as [Hc Hs].
  destruct shared.
  - destruct Hs as [-> _]. exact H.
  - destruct Hs as (Hnone & _ & row & Hrow & Hs).
    unfold get_last_safe_status_for_address, get_or_generate.
    unfold mbind, M_bind, bind, get_cache, get_db. simpl.
    rewrite Hc, Hnone, Hrow. simpl. now rewrite Hs.
Qed.

Lemma getitem_Some args k v st :
  args !! k = Some v -> getitem args k st = (st, Return v).
Proof. intros H. unfold getitem. now rewrite H. Qed.

(** *** Removing an owner that is not there *)

Lemma process_dispatch_swap_owner d st :
  function_name d = "swapOwner" ->
  1000 <= gas_used (internal_tx d) ->
  process d st
  = (found ← get_last_safe_status_for_address (_from (internal_tx d));
     match found with
     | None => ret false
     | Some (safe_last_status, _) =>
         old_owner_v ← getitem (arguments d) "oldOwner";
         new_owner_v ← getitem (arguments d) "newOwner";
         s ← swap_owner (internal_tx d) safe_last_status old_owner_v new_owner_v;
         store_new_safe_status s (internal_tx d);;
         ret true
     end) st.
Proof.
  intros Hfn Hgas. unfold __process_decoded_transaction.
  apply Z.ltb_ge in Hgas. rewrite Hgas, Hfn. reflexivity.
Qed.

Lemma process_dispatch_remove_owner d st :
  function_name d = "removeOwner"
  \/ function_name d = "removeOwnerWithThreshold" ->
  1000 <= gas_used (internal_tx d) ->
  process d st
  = (found ← get_last_safe_status_for_address (_from (internal_tx d));
     match found with
     | None => ret false
     | Some (safe_last_status, shared) =>
         threshold_v ← getitem (arguments d) "_threshold";
         new_threshold ← (if truthy threshold_v then as_int threshold_v
                          else ret (threshold safe_last_status));
         let s := set_threshold safe_last_status new_threshold in
         assign (_from (internal_tx d)) shared s;;
         owner_v ← getitem (arguments d) "owner";
         s ← swap_owner (internal_tx d) s owner_v VNone;
         store_new_safe_status s (internal_tx d);;
         ret true
     end) st.
Proof.
  intros Hfn Hgas. unfold __process_decoded_transaction.
  apply Z.ltb_ge in Hgas. rewrite Hgas.
  destruct Hfn as [-> | ->]; reflexivity.
Qed.

(** C7.  For a [removeOwner], [removeOwnerWithThreshold] or [swapOwner]
    call whose target owner is not in the owner list of the wallet's
    current status, processing raises [OwnerCannotBeRemoved]; nothing is
    written to the database (no snapshot, no latest row), the owner list
    of every cached status is what it was, and the wallet's current status
    still has the same owner list. *)
Theorem removing_absent_owner_raises (d : InternalTxDecoded)
    (st st1 : State) (s : SafeLastStatus) (shared : bool) (owner_v : value) :
  owner_removal_call d owner_v ->
  1000 <= gas_used (internal_tx d) ->
  get_last_safe_status_for_address (_from (internal_tx d)) st
  = (st1, Return (Some (s, shared))) ->
  value_in owner_v (owners s) = false ->
  exists st',
    process d st = (st', Raise OwnerCannotBeRemoved)
    /\ db st' = db st1
    /\ (forall k, owners <$> safe_last_status_cache st' !! k
                  = owners <$> safe_last_status_cache st1 !! k)
    /\ exists st2 s2 shared2,
         get_last_safe_status_for_address (_from (internal_tx d)) st'
         = (st2, Return (Some (s2, shared2)))
         /\ owners s2 = owners s.
Proof.
  intros Hcall Hgas Hget Hnotin.
  destruct (_from (internal_tx d)) as [a|] eqn:Hfrom; [| discriminate].
  destruct Hcall as [(Hfn & Hold & [nv Hnew]) | (Hfn & Howner & tv & Htv & Hint)].
  - exists st1. split; [| split; [reflexivity | split; [reflexivity |]]].
    + rewrite process_dispatch_swap_owner by assumption.
      rewrite Hfrom. erewrite bind_Return by exact Hget.
      cbv beta iota.
      erewrite bind_Return by (apply getitem_Some; exact Hold).
      erewrite bind_Return by (apply getitem_Some; exact Hnew).
      unfold swap_owner. rewrite Hnotin. reflexivity.
    + exists st1, s, shared. split; [| reflexivity].
      eapply get_last_again; eauto.
  - pose proof (get_last_safe_status_spec _ _ _ _ _ Hget) as [Hc Hs].
    set (t := if truthy tv then match tv with VInt n => n | _ => 0 end
              else threshold s).
    assert ((if truthy tv then as_int tv else ret (threshold s)) st1
            = (st1, Return t)) as Ht.
    { unfold t. destruct (truthy tv) eqn:E; [| reflexivity].
      destruct (Hint eq_refl) as [n ->]. reflexivity. }
    destruct (assign (Some a) shared (set_threshold s t) st1) as [st' o] eqn:Ea.
    assert (o = Return tt
            /\ db st' = db st1
            /\ safe_last_status_cache st'
               = if shared then <[a := set_threshold s t]> (safe_last_status_cache st1)
                 else safe_last_status_cache st1) as (-> & Hdb & Hcache).
    { unfold assign, modify_cache in Ea. destruct shared;
        injection Ea as <- <-; auto. }
    exists st'. split; [| split; [exact Hdb | split]].
    + rewrite process_dispatch_remove_owner by assumption.
      rewrite Hfrom. erewrite bind_Return by exact Hget.
      cbv beta iota.
      erewrite bind_Return by (apply getitem_Some; exact Htv).
      erewrite bind_Return by exact Ht.
      cbv zeta. erewrite bind_Return by exact Ea.
      erewrite bind_Return by (apply getitem_Some; exact Howner).
      unfold swap_owner. simpl owners. rewrite Hnotin. reflexivity.
    + intros k. rewrite Hcache. destruct shared; [| reflexivity].
      destruct Hs as [-> Hs].
      destruct (decide (a = k)) as [<- | Hne].
      * rewrite lookup_insert_eq, Hs. reflexivity.
      * now rewrite lookup_insert_ne.
    + destruct shared.
      * exists st', (set_threshold s t), true. split; [| reflexivity].
        unfold get_last_safe_status_for_address.
        unfold mbind, M_bind, bind, get_cache.
        rewrite Hcache, lookup_insert_eq. reflexivity.
      * exists st', s, false. split; [| reflexivity].
        assert (st' = st1) as ->.
        { destruct st', st1; simpl in *; congruence. }
        eapply get_last_again; eauto.
Qed.

(** *** The master copy change *)




(** *** Module transactions *)

Lemma process_dispatch_module d st :
  function_name d = "execTransactionFromModule"
  \/ function_name d = "execTransactionFromModuleReturnData" ->
  1000 <= gas_used (internal_tx d) ->
  process d st
  = (found ← get_last_safe_status_for_address (_from (internal_tx d));
     match found with
     | None => ret false
     | Some _ =>
         process_module_transaction HexBytes safe_tx_module_failure_topics
           ethereum_tracing_client process_aa_transaction d;;
         ret true
     end) st.
Proof.
  intros Hfn Hgas. unfold __process_decoded_transaction.
  apply Z.ltb_ge in Hgas. rewrite Hgas.
  destruct Hfn as [-> | ->]; simpl;
    unfold mbind, M_bind, bind;
    destruct (get_last_safe_status_for_address _ st) as [st1 [[[s sh]|]|e]];
    reflexivity.
Qed.

Lemma process_module_transaction_respects_statuses d :
  respects same_statuses
    (process_module_transaction HexBytes safe_tx_module_failure_topics
       ethereum_tracing_client process_aa_transaction d).
Proof. unfold process_module_transaction. respects_go. Qed.

Lemma get_or_create_relevant_respects_module_transactions itx :
  respects same_module_transactions (get_or_create_relevant itx).
Proof. unfold get_or_create_relevant. respects_go. Qed.

Lemma process_module_transaction_records d st st' u :
  process_module_transaction HexBytes safe_tx_module_failure_topics
    ethereum_tracing_client process_aa_transaction d st = (st', Return u) ->
  is_Some (module_transactions (db st') !! id (internal_tx d)).
Proof.
  unfold process_module_transaction. intros H.
  repeat peel H. injection H as <- _.
  match goal with
  | Hr : get_or_create_relevant _ _ = _ |- _ =>
      apply get_or_create_relevant_respects_module_transactions in Hr;
      unfold same_module_transactions in Hr; rewrite Hr
  end.
  match goal with
  | Hg : get_db _ = _ |- _ => unfold get_db in Hg; injection Hg as <- <-
  end.
  match goal with
  | Hm : match module_transactions _ !! _ with _ => _ end _ = _ |- _ =>
      rename Hm into Hcreate
  end.
  destruct (module_transactions (db _) !! id (internal_tx d)) eqn:E.
  - injection Hcreate as <-. rewrite E. eauto.
  - repeat peel Hcreate.
    unfold modify_db in Hcreate. injection Hcreate as <- _.
    simpl. rewrite lookup_insert_eq. eauto.
Qed.

(** C3 (as the code has it).  A call named [execTransactionFromModule] is
    processed exactly as the same call named
    [execTransactionFromModuleReturnData]: both names enter the
    module-transaction handling.  When that handling returns, the call is
    reported successful and a [ModuleTransaction] row exists for it; the
    wallet statuses (latest rows, snapshots, cache, hence the nonce) are
    what they were once the wallet's status had been read. *)
Theorem module_call_names_share_handling (d : InternalTxDecoded) (st : State) :
  function_name d = "execTransactionFromModule" ->
  1000 <= gas_used (internal_tx d) ->
  process d st
  = process (with_function_name d "execTransactionFromModuleReturnData") st
  /\ forall st1 found st' r,
       get_last_safe_status_for_address (_from (internal_tx d)) st
       = (st1, Return (Some found)) ->
       process d st = (st', Return r) ->
       r = true
       /\ same_statuses st1 st'
       /\ is_Some (module_transactions (db st') !! id (internal_tx d)).
Proof.
  intros Hfn Hgas. split.
  - rewrite process_dispatch_module by auto.
    rewrite (process_dispatch_module
               (with_function_name d "execTransactionFromModuleReturnData"))
      by (simpl; auto).
    reflexivity.
  - intros st1 found st' r Hget H.
    rewrite process_dispatch_module in H by auto.
    erewrite bind_Return in H by exact Hget. cbv beta iota in H.
    apply bind_Return_inv in H as (u & st2 & Hm & H).
    injection H as <- <-. split; [reflexivity |]. split.
    + eapply process_module_transaction_respects_statuses; eauto.
    + eapply process_module_transaction_records; eauto.
Qed.

(** *** The previous-trace lookup *)

Lemma process_dispatch_approve_hash d st :
  function_name d = "approveHash" ->
  1000 <= gas_used (internal_tx d) ->
  process d st
  = (found ← get_last_safe_status_for_address (_from (internal_tx d));
     match found with
     | None => ret false
     | Some _ =>
         process_approve_hash HexBytes build_for_owner
           ethereum_tracing_client d;;
         ret true
     end) st.
Proof.
  intros Hfn Hgas. unfold __process_decoded_transaction.
  apply Z.ltb_ge in Hgas. rewrite Hgas, Hfn. simpl.
  unfold mbind, M_bind, bind;
    destruct (get_last_safe_status_for_address _ st) as [st1 [[[s sh]|]|e]];
    reflexivity.
Qed.

(** In the module branch the RPC error of the lookup is caught and turned
    into "no trace", hence into the hard failure. *)
Lemma module_lookup_rpc_error_is_hard_failure d st st1 found tracing :
  (function_name d = "execTransactionFromModule"
   \/ function_name d = "execTransactionFromModuleReturnData") ->
  1000 <= gas_used (internal_tx d) ->
  get_last_safe_status_for_address (_from (internal_tx d)) st
  = (st1, Return (Some found)) ->
  arguments d !! "module" = None ->
  ethereum_tracing_client = Some tracing ->
  tracing (tx_hash (ethereum_tx (internal_tx d))) (trace_address (internal_tx d))
  = RpcRaise ->
  process d st = (st1, Raise CannotFindPreviousTrace).
Proof.
  intros Hfn Hgas Hget Hmodule Hclient Hrpc.
  rewrite process_dispatch_module by auto.
  erewrite bind_Return by exact Hget. cbv beta iota.
  unfold process_module_transaction. rewrite Hmodule.
  unfold except_Web3RPCError, get_previous_trace. rewrite Hclient, Hrpc.
  reflexivity.
Qed.

(** C9 (what the code does).  In the [approveHash] branch the lookup is
    not guarded: when the call has no [owner] argument and the tracing
    node answers with an RPC error, processing raises [Web3RPCError]
    itself, not [CannotFindPreviousTrace]; the batch does not absorb it
    either. *)
Theorem approve_hash_lookup_rpc_error_escapes (d : InternalTxDecoded)
    (st st1 : State) (found : SafeLastStatus * bool)
    (tracing : list N -> list Z -> rpc_result) :
  function_name d = "approveHash" ->
  1000 <= gas_used (internal_tx d) ->
  get_last_safe_status_for_address (_from (internal_tx d)) st
  = (st1, Return (Some found)) ->
  is_Some (arguments d !! "hashToApprove") ->
  arguments d !! "owner" = None ->
  ethereum_tracing_client = Some tracing ->
  tracing (tx_hash (ethereum_tx (internal_tx d))) (trace_address (internal_tx d))
  = RpcRaise ->
  process d st = (st1, Raise Web3RPCError)
  /\ (is_banned (_from (internal_tx d))
        (get_banned_addresses (contract_addresses [d]) (db st)) = false ->
      exists cache', process_many [d] st
                     = (mkState (db st) cache', Raise Web3RPCError)).
Proof.
  intros Hfn Hgas Hget [hv Hhash] Howner Hclient Hrpc.
  assert (process d st = (st1, Raise Web3RPCError)) as Hp.
  { rewrite process_dispatch_approve_hash by auto.
    erewrite bind_Return by exact Hget. cbv beta iota.
    apply bind_Raise. unfold process_approve_hash.
    erewrite bind_Return by (apply getitem_Some; exact Hhash).
    rewrite Howner. unfold get_previous_trace. rewrite Hclient, Hrpc.
    reflexivity. }
  split; [exact Hp |]. intros Hban.
  assert (loop (get_banned_addresses (contract_addresses [d]) (db st)) [d] [] st
          = (st1, Raise Web3RPCError)) as Hloop.
  { simpl. simpl in Hban. rewrite Hban, Hp. reflexivity. }
  destruct (process_many_raises [d] st st1 Web3RPCError) as (c & Heq & _);
    [discriminate | exact Hloop |].
  eauto.
Qed.

(** *** Invalidation of the cache *)


Lemma process_one_unfold d st :
  process_one d st
  = atomic
      (clear_cache (_from (internal_tx d));;
       try_finally
         (processed_successfully ← process d;
          set_processed d;;
          ret processed_successfully)
         (clear_cache (_from (internal_tx d));; ret tt)) st.
Proof. reflexivity. Qed.





End ProcessorFacts.

(** ** The cache between two operations

    The batch clears the cache only when it ends.  That is enough: a cached
    status always sits under the address of the call that stored it, so
    what a batch or a single call stores it also clears, and a processor
    that starts with an empty cache finds it empty at the start of every
    operation. *)

(** Runs a definition of the monad on a state, one test at a time. *)
Ltac run_step :=
  match goal with
  | |- context [match ?x with _ => _ end] =>
      lazymatch x with
      | context [match _ with _ => _ end] => fail
      | _ => destruct x eqn:?
      end
  | |- context [if bool_decide ?P then _ else _] =>
      destruct (bool_decide P) eqn:?
  end.

Ltac cache_good_finish Hinv :=
  try exact Hinv;
  repeat match goal with
         | H : safe_last_status_cache _ !! _ = Some _ |- _ =>
             let H1 := fresh in
             let H2 := fresh in
             destruct (Hinv _ _ H) as [H1 H2]; clear H
         | H : last_for_address _ _ = Some _ |- _ =>
             apply last_for_address_address in H
         end;
  let k := fresh "k" in
  let s := fresh "s" in
  let Hk := fresh "Hk" in
  intros k s Hk; cbn [fst db safe_last_status_cache] in Hk;
  repeat match type of Hk with
         | <[_ := _]> _ !! _ = Some _ =>
             apply lookup_insert_Some in Hk as [[<- <-] | [? Hk]]
         end;
  first
    [ exact (Hinv _ _ Hk)
    | cbn [address set_internal_tx set_nonce set_owners set_threshold
           set_master_copy set_fallback_handler set_guard set_enabled_modules
           set_address];
      first
        [ solve [split; [reflexivity | assumption]]
        | solve [split; [assumption | congruence]]
        | solve [split; congruence]
        | simplify_eq/=;
          first
            [ solve [split; [reflexivity | assumption]]
            | solve [split; [assumption | congruence]]
            | solve [split; congruence] ] ] ].

Section CacheInvariant.

Variable parse_base_version : string -> option Version.
Variable HexBytes : value -> option (list N).
Variable safe_tx_failure_events_topics : list (list N).
Variable safe_tx_module_failure_topics : list (list N).
Variable safe_tx_hash : SafeTx -> list N.
Variable parse_signature : list N -> list N -> list SafeSignature.
Variable build_for_owner : string -> list N -> SafeSignature.
Variable get_chain_id : Z.
Variable ethereum_tracing_client : option (list N -> list Z -> rpc_result).
Variable process_aa_transaction : option string -> EthereumTx -> nat.

Local Abbreviation process :=
  (__process_decoded_transaction parse_base_version HexBytes
     safe_tx_failure_events_topics safe_tx_module_failure_topics safe_tx_hash
     parse_signature build_for_owner get_chain_id ethereum_tracing_client
     process_aa_transaction).
Local Abbreviation process_one :=
  (process_decoded_transaction parse_base_version HexBytes
     safe_tx_failure_events_topics safe_tx_module_failure_topics safe_tx_hash
     parse_signature build_for_owner get_chain_id ethereum_tracing_client
     process_aa_transaction).
Local Abbreviation process_many :=
  (process_decoded_transactions parse_base_version HexBytes
     safe_tx_failure_events_topics safe_tx_module_failure_topics safe_tx_hash
     parse_signature build_for_owner get_chain_id ethereum_tracing_client
     process_aa_transaction).
Local Abbreviation loop :=
  (process_loop parse_base_version HexBytes
     safe_tx_failure_events_topics safe_tx_module_failure_topics safe_tx_hash
     parse_signature build_for_owner get_chain_id ethereum_tracing_client
     process_aa_transaction).

Lemma process_keeps_cache_good d addresses st :
  _from (internal_tx d) ∈ addresses ->
  cache_good addresses st ->
  cache_good addresses (fst (process d st)).
Proof.
  intros HA Hinv.
  destruct (_from (internal_tx d)) as [a|] eqn:Hfrom.
  - unfold __process_decoded_transaction. rewrite Hfrom.
    unfold process_setup, process_exec_transaction, process_approve_hash,
      process_module_transaction, get_last_safe_status_for_address,
      get_or_generate, swap_owner, disable_module, store_new_safe_status,
      assign, get_or_create_relevant, get_safe_version_from_master_copy,
      is_failed, is_module_failed, get_previous_trace, except_Web3RPCError,
      getitem, as_str, as_int, as_str_list, as_opt_str, require,
      mbind, M_bind, bind, ret, raise, get_db, get_cache, modify_db, modify_cache.
    rewrite Hfrom.
    repeat (run_step; cbn beta iota zeta; try exact Hinv).
    all: cache_good_finish Hinv.
  - unfold __process_decoded_transaction. rewrite Hfrom.
    unfold process_setup, get_last_safe_status_for_address,
      getitem, require, mbind, M_bind, bind, ret, raise.
    rewrite Hfrom.
    repeat (run_step; cbn beta iota zeta; try exact Hinv).
Qed.

Lemma loop_keeps_cache_good banned l addresses results st :
  (forall d, d ∈ l -> _from (internal_tx d) ∈ addresses) ->
  cache_good addresses st ->
  cache_good addresses (fst (loop banned l results st)).
Proof.
  revert results st. induction l as [|d l IH]; intros results st Hl Hinv.
  - exact Hinv.
  - assert (forall d', d' ∈ l -> _from (internal_tx d') ∈ addresses) as Hl'.
    { intros d' Hd'. apply Hl. now right. }
    assert (cache_good addresses (fst (process d st))) as Hstep.
    { apply process_keeps_cache_good; [| exact Hinv]. apply Hl. left. }
    simpl. destruct (is_banned _ banned); [now apply IH |].
    destruct (process d st) as [st1 [r|e]]; simpl in Hstep.
    + now apply IH.
    + destruct (is_CannotFindPreviousTrace e); [exact Hstep |].
      destruct (is_TxProcessorException e); [now apply IH | exact Hstep].
Qed.

Lemma contract_addresses_spec l d :
  d ∈ l -> _from (internal_tx d) ∈ contract_addresses l.
Proof.
  intros Hd. unfold contract_addresses.
  apply list_elem_of_In, in_map_iff. exists d. split; [reflexivity |].
  now apply list_elem_of_In.
Qed.

(** Whatever a batch stored in the cache is gone when it ends: a cache that
    held nothing but well-placed statuses of the batch's wallets, an empty
    one above all, is empty afterwards. *)
Lemma process_many_leaves_cache_empty l st :
  l <> [] ->
  cache_good (contract_addresses l) st ->
  safe_last_status_cache (fst (process_many l st)) = ∅.
Proof.
  intros Hne Hinv.
  pose proof (loop_keeps_cache_good
                (get_banned_addresses (contract_addresses l) (db st)) l
                (contract_addresses l) [] st (contract_addresses_spec l) Hinv)
    as Hloop.
  destruct (loop (get_banned_addresses (contract_addresses l) (db st)) l [] st)
    as [st1 [r|e]] eqn:E; simpl in Hloop.
  - destruct (process_many_returns _ _ _ _ _ _ _ _ _ _ _ _ _ _ Hne E)
      as (st2 & c & _ & Heq & Hdel & Hmono).
    rewrite Heq. simpl. apply map_eq. intros k. rewrite lookup_empty.
    destruct (Hmono k) as [H | H]; [exact H |].
    destruct (safe_last_status_cache st1 !! k) as [s|] eqn:Ek; [| exact H].
    apply Hdel. now apply (Hloop k s).
  - destruct (process_many_raises _ _ _ _ _ _ _ _ _ _ _ _ _ _ Hne E)
      as (c & Heq & Hdel & Hmono).
    rewrite Heq. simpl. apply map_eq. intros k. rewrite lookup_empty.
    destruct (Hmono k) as [H | H]; [exact H |].
    destruct (safe_last_status_cache st1 !! k) as [s|] eqn:Ek; [| exact H].
    apply Hdel. now apply (Hloop k s).
Qed.

Lemma cache_good_empty addresses database :
  cache_good addresses (mkState database ∅).
Proof. intros k s Hk. simpl in Hk. rewrite lookup_empty in Hk. discriminate. Qed.

(** A processor whose cache is empty when a batch starts has an empty cache
    when the batch is over, however it ends. *)
Lemma process_many_empty_cache_stays_empty l database :
  safe_last_status_cache (fst (process_many l (mkState database ∅))) = ∅.
Proof.
  destruct (decide (l = [])) as [-> | Hne]; [reflexivity |].
  apply process_many_leaves_cache_empty; [exact Hne | apply cache_good_empty].
Qed.

(** With a well-placed cache, the status in hand carries the wallet's
    address, whether it came from the cache or from the database. *)
Lemma status_in_hand_is_the_wallets addresses a st st1 s shared :
  cache_good addresses st ->
  get_last_safe_status_for_address (Some a) st = (st1, Return (Some (s, shared))) ->
  address s = a.
Proof.
  intros Hinv H. apply get_last_safe_status_spec in H as [_ H].
  destruct shared.
  - destruct H as [_ H]. now apply (Hinv a s).
  - tauto.
Qed.


End CacheInvariant.

(** ** Tactics and facts for the further properties *)

Lemma get_last_none_unchanged a st st1 :
  get_last_safe_status_for_address a st = (st1, Return None) -> st1 = st.
Proof.
  unfold get_last_safe_status_for_address, get_or_generate.
  destruct a as [a|]; [| now intros [= <-]].
  unfold mbind, M_bind, bind, get_cache, get_db, modify_db, ret.
  destruct (safe_last_status_cache st !! a); [discriminate |].
  destruct (safe_last_statuses (db st) !! a); [discriminate |].
  destruct (last_for_address a (db st)); [discriminate |].
  now intros [= <-].
Qed.

Ltac in_list := repeat first [apply list_elem_of_here | apply list_elem_of_further].

Lemma eqb_of_not_in (fn n : string) (l : list string) :
  fn ∉ l -> n ∈ l -> String.eqb fn n = false.
Proof. intros Hfn Hn. apply String.eqb_neq. now intros ->. Qed.

(** Evaluates the membership tests on a function name that is known. *)
Ltac eval_membership :=
  repeat match goal with
         | |- context [bool_decide (?x ∈ ?l)] =>
             let b := eval vm_compute in (bool_decide (x ∈ l)) in
             change (bool_decide (x ∈ l)) with b
         end.

(** Runs the plumbing of the monad. *)
Ltac mrun :=
  cbv beta iota zeta
    delta [mbind mret M_bind M_ret bind ret raise get_db get_cache modify_db
           modify_cache getitem as_str as_int as_str_list as_opt_str require].

Lemma bind_ext {A B} (m : M A) (k1 k2 : A -> M B) st :
  (forall a st1, m st = (st1, Return a) -> k1 a st1 = k2 a st1) ->
  (m ≫= k1) st = (m ≫= k2) st.
Proof.
  intros H. unfold mbind, M_bind, bind.
  destruct (m st) as [st1 [a|e]]; [now apply H | reflexivity].
Qed.

Ltac mrun_in H :=
  cbv beta iota zeta
    delta [mbind mret M_bind M_ret bind ret raise get_db get_cache modify_db
           modify_cache getitem as_str as_int as_str_list as_opt_str require]
    in H.

(** Takes the tests of a run that is known to have returned, one by one. *)
Ltac case_step H :=
  match type of H with
  | context [match ?x with _ => _ end] =>
      lazymatch x with
      | context [match _ with _ => _ end] => fail
      | _ => destruct x eqn:?
      end
  | context [if bool_decide ?P then _ else _] =>
      destruct (bool_decide P) eqn:?
  end.

(** ** The queries of [models.py] *)

Ltac lex_step x y z :=
  destruct (Z.compare_spec x y), (Z.compare_spec y z), (Z.compare_spec x z);
  try discriminate; try congruence; try lia.

Lemma mined_compare_trans a b c :
  mined_compare a b <> Gt -> mined_compare b c <> Gt -> mined_compare a c <> Gt.
Proof.
  unfold mined_compare, compare_desc_opt.
  lex_step (nonce a) (nonce b) (nonce c).
  lex_step (block_number (status_internal_tx a)) (block_number (status_internal_tx b))
    (block_number (status_internal_tx c)).
  destruct (transaction_index (ethereum_tx (status_internal_tx a))) as [x|],
    (transaction_index (ethereum_tx (status_internal_tx b))) as [y|],
    (transaction_index (ethereum_tx (status_internal_tx c))) as [z|];
    try discriminate; try congruence.
  - lex_step x y z.
    lex_step (id (status_internal_tx a)) (id (status_internal_tx b))
      (id (status_internal_tx c)).
  - lex_step (id (status_internal_tx a)) (id (status_internal_tx b))
      (id (status_internal_tx c)).
Qed.

Lemma mined_compare_antisym a b :
  mined_compare a b = CompOpp (mined_compare b a).
Proof.
  unfold mined_compare, compare_desc_opt.
  rewrite (Z.compare_antisym (nonce a) (nonce b)).
  destruct (Z.compare (nonce a) (nonce b)); try reflexivity. cbn.
  rewrite (Z.compare_antisym (block_number (status_internal_tx a))).
  destruct (Z.compare (block_number (status_internal_tx a)) _); try reflexivity. cbn.
  destruct (transaction_index (ethereum_tx (status_internal_tx a))) as [x|],
    (transaction_index (ethereum_tx (status_internal_tx b))) as [y|];
    try reflexivity.
  - rewrite (Z.compare_antisym x y). destruct (Z.compare x y); try reflexivity. cbn.
    apply Z.compare_antisym.
  - apply Z.compare_antisym.
Qed.

Lemma mined_compare_refl a : mined_compare a a = Eq.
Proof.
  unfold mined_compare, compare_desc_opt. rewrite !Z.compare_refl.
  destruct (transaction_index _); [rewrite Z.compare_refl |]; reflexivity.
Qed.

(** [first_by_mined] gives a row that passes the filter and that no other
    such row comes before; nothing when no row passes. *)
Lemma first_by_mined_spec keep table :
  match first_by_mined keep table with
  | Some s =>
      (exists k, table !! k = Some s) /\ keep s = true
      /\ forall k s', table !! k = Some s' -> keep s' = true ->
                      mined_compare s' s <> Gt
  | None => forall k s', table !! k = Some s' -> keep s' = false
  end.
Proof.
  unfold first_by_mined.
  apply (map_fold_weak_ind
           (fun r m =>
              match r with
              | Some s =>
                  (exists k, m !! k = Some s) /\ keep s = true
                  /\ forall k s', m !! k = Some s' -> keep s' = true ->
                                  mined_compare s' s <> Gt
              | None => forall k s', m !! k = Some s' -> keep s' = false
              end)).
  - intros k s' Hk. rewrite lookup_empty in Hk. discriminate.
  - intros i x m r Hi IH.
    assert (forall s, (exists k, m !! k = Some s) -> exists k, <[i:=x]> m !! k = Some s)
      as Hkeep.
    { intros s [k Hk]. exists k. rewrite lookup_insert_ne; [exact Hk | congruence]. }
    destruct (keep x) eqn:Ex.
    + destruct r as [b|].
      * destruct IH as (Hb & Hkb & Hmax).
        destruct (mined_compare x b) eqn:Ec.
        -- split; [auto |]. split; [exact Hkb |]. intros k s' Hk Hs'.
           destruct (decide (i = k)) as [<- | Hne].
           ++ rewrite lookup_insert_eq in Hk. injection Hk as <-. congruence.
           ++ rewrite lookup_insert_ne in Hk by exact Hne. eauto.
        -- split; [auto |]. split; [exact Hkb |]. intros k s' Hk Hs'.
           destruct (decide (i = k)) as [<- | Hne].
           ++ rewrite lookup_insert_eq in Hk. injection Hk as <-. congruence.
           ++ rewrite lookup_insert_ne in Hk by exact Hne. eauto.
        -- split; [exists i; apply lookup_insert_eq |]. split; [exact Ex |].
           intros k s' Hk Hs'. destruct (decide (i = k)) as [<- | Hne].
           ++ rewrite lookup_insert_eq in Hk. injection Hk as <-.
              rewrite mined_compare_refl. discriminate.
           ++ rewrite lookup_insert_ne in Hk by exact Hne.
              apply (mined_compare_trans s' b x); [eauto |].
              rewrite mined_compare_antisym, Ec. discriminate.
      * split; [exists i; apply lookup_insert_eq |]. split; [exact Ex |].
        intros k s' Hk Hs'. destruct (decide (i = k)) as [<- | Hne].
        -- rewrite lookup_insert_eq in Hk. injection Hk as <-.
           rewrite mined_compare_refl. discriminate.
        -- rewrite lookup_insert_ne in Hk by exact Hne.
           rewrite (IH k s' Hk) in Hs'. discriminate.
    + destruct r as [b|].
      * destruct IH as (Hb & Hkb & Hmax). split; [auto |]. split; [exact Hkb |].
        intros k s' Hk Hs'. destruct (decide (i = k)) as [<- | Hne].
        -- rewrite lookup_insert_eq in Hk. injection Hk as <-. congruence.
        -- rewrite lookup_insert_ne in Hk by exact Hne. eauto.
      * intros k s' Hk. destruct (decide (i = k)) as [<- | Hne].
        -- rewrite lookup_insert_eq in Hk. injection Hk as <-. exact Ex.
        -- rewrite lookup_insert_ne in Hk by exact Hne. eauto.
Qed.

Lemma last_for_address_first_by_mined a database :
  last_for_address a database
  = first_by_mined (fun s => String.eqb (address s) a) (safe_statuses database).
Proof. reflexivity. Qed.

(** X1.  [last_for_address] gives a snapshot of the wallet that no other
    snapshot of the wallet comes before in the order of [sorted_by_mined]
    (so none has a higher nonce), and nothing exactly when the wallet has no
    snapshot. *)
Theorem last_for_address_is_latest (a : string) (database : Database) :
  match last_for_address a database with
  | Some s =>
      (exists k, safe_statuses database !! k = Some s)
      /\ address s = a
      /\ forall k s', safe_statuses database !! k = Some s' ->
                      address s' = a ->
                      mined_compare s' s <> Gt /\ nonce s' <= nonce s
  | None =>
      forall k s', safe_statuses database !! k = Some s' -> address s' <> a
  end.
Proof.
  rewrite last_for_address_first_by_mined.
  pose proof (first_by_mined_spec (fun s => String.eqb (address s) a)
                (safe_statuses database)) as H.
  destruct (first_by_mined _ _) as [s|].
  - destruct H as (Hin & Ha & Hmax). split; [exact Hin |].
    split; [now apply String.eqb_eq |].
    intros k s' Hk Hs'. apply String.eqb_eq in Hs'.
    pose proof (Hmax k s' Hk Hs') as Hc. split; [exact Hc |].
    unfold mined_compare in Hc.
    destruct (Z.compare_spec (nonce s') (nonce s)); [lia | lia | congruence].
  - intros k s' Hk Hs'. apply String.eqb_eq in Hs'.
    rewrite (H k s' Hk) in Hs'. discriminate.
Qed.

(** X2.  [previous] gives the snapshot of the same wallet that comes first
    among those with a lower nonce than this one; nothing when no snapshot
    of the wallet has a lower nonce. *)
Theorem previous_is_latest_below (self : SafeLastStatus) (database : Database) :
  match previous self database with
  | Some s =>
      (exists k, safe_statuses database !! k = Some s)
      /\ address s = address self
      /\ nonce s < nonce self
      /\ forall k s', safe_statuses database !! k = Some s' ->
                      address s' = address self ->
                      nonce s' < nonce self ->
                      mined_compare s' s <> Gt /\ nonce s' <= nonce s
  | None =>
      forall k s', safe_statuses database !! k = Some s' ->
                   address s' = address self ->
                   nonce self <= nonce s'
  end.
Proof.
  unfold previous.
  pose proof (first_by_mined_spec
                (fun s => String.eqb (address s) (address self)
                          && (nonce s <? nonce self)%Z)
                (safe_statuses database)) as H.
  destruct (first_by_mined _ _) as [s|].
  - destruct H as (Hin & Ha & Hmax). apply andb_true_iff in Ha as [Ha Hn].
    apply String.eqb_eq in Ha. apply Z.ltb_lt in Hn.
    split; [exact Hin |]. split; [exact Ha |]. split; [exact Hn |].
    intros k s' Hk Ha' Hn'.
    assert (mined_compare s' s <> Gt) as Hc.
    { apply (Hmax k s' Hk). apply andb_true_iff.
      split; [now apply String.eqb_eq | now apply Z.ltb_lt]. }
    split; [exact Hc |]. unfold mined_compare in Hc.
    destruct (Z.compare_spec (nonce s') (nonce s)); [lia | lia | congruence].
  - intros k s' Hk Ha'. specialize (H k s' Hk).
    apply andb_false_iff in H as [H | H].
    + apply String.eqb_neq in H. contradiction.
    + apply Z.ltb_ge in H. exact H.
Qed.

Lemma last_nonce_spec (safe : string) (txs : gmap (list N) MultisigTransaction) :
  match last_nonce safe txs with
  | Some n =>
      (exists h t, txs !! h = Some t /\ mt_safe t = safe
                   /\ mt_ethereum_tx_id t <> None /\ mt_nonce t = n)
      /\ forall h t, txs !! h = Some t -> mt_safe t = safe ->
                     mt_ethereum_tx_id t <> None -> mt_nonce t <= n
  | None =>
      forall h t, txs !! h = Some t -> mt_safe t = safe ->
                  mt_ethereum_tx_id t = None
  end.
Proof.
  unfold last_nonce.
  apply (map_fold_weak_ind
           (fun r m =>
              match r with
              | Some n =>
                  (exists h t, m !! h = Some t /\ mt_safe t = safe
                               /\ mt_ethereum_tx_id t <> None /\ mt_nonce t = n)
                  /\ forall h t, m !! h = Some t -> mt_safe t = safe ->
                                 mt_ethereum_tx_id t <> None -> mt_nonce t <= n
              | None =>
                  forall h t, m !! h = Some t -> mt_safe t = safe ->
                              mt_ethereum_tx_id t = None
              end)).
  - intros h t Hh. rewrite lookup_empty in Hh. discriminate.
  - intros i x m r Hi IH.
    assert (forall h t, m !! h = Some t -> <[i:=x]> m !! h = Some t) as Hkeep.
    { intros h t Hh. rewrite lookup_insert_ne; [exact Hh | congruence]. }
    destruct (executed x && String.eqb (mt_safe x) safe) eqn:E.
    + apply andb_true_iff in E as [He Hs].
      apply executed_true in He. apply String.eqb_eq in Hs.
      destruct r as [m0|].
      * destruct IH as ((h0 & t0 & Hh0 & Hs0 & He0 & Hn0) & Hmax). split.
        -- destruct (Z.max_spec (mt_nonce x) m0) as [[_ ->] | [_ ->]].
           ++ exists h0, t0. auto.
           ++ exists i, x. rewrite lookup_insert_eq. auto.
        -- intros h t Hh Hst Het. destruct (decide (i = h)) as [<- | Hne].
           ++ rewrite lookup_insert_eq in Hh. injection Hh as <-. lia.
           ++ rewrite lookup_insert_ne in Hh by exact Hne.
              specialize (Hmax h t Hh Hst Het). lia.
      * split.
        -- exists i, x. rewrite lookup_insert_eq. auto.
        -- intros h t Hh Hst Het. destruct (decide (i = h)) as [<- | Hne].
           ++ rewrite lookup_insert_eq in Hh. injection Hh as <-. lia.
           ++ rewrite lookup_insert_ne in Hh by exact Hne.
              specialize (IH h t Hh Hst). contradiction.
    + assert (mt_safe x = safe -> mt_ethereum_tx_id x = None) as Hx.
      { intros Hs. apply andb_false_iff in E as [E | E].
        - unfold executed in E. now destruct (mt_ethereum_tx_id x).
        - apply String.eqb_neq in E. contradiction. }
      destruct r as [m0|].
      * destruct IH as ((h0 & t0 & Hh0 & Hrest) & Hmax). split.
        -- exists h0, t0. auto.
        -- intros h t Hh Hst Het. destruct (decide (i = h)) as [<- | Hne].
           ++ rewrite lookup_insert_eq in Hh. injection Hh as <-.
              specialize (Hx Hst). contradiction.
           ++ rewrite lookup_insert_ne in Hh by exact Hne. eauto.
      * intros h t Hh Hst. destruct (decide (i = h)) as [<- | Hne].
        -- rewrite lookup_insert_eq in Hh. injection Hh as <-. auto.
        -- rewrite lookup_insert_ne in Hh by exact Hne. eauto.
Qed.

(** X3.  [last_nonce] is the highest nonce among the executed transactions of
    the wallet, and [None] exactly when the wallet has no executed
    transaction. *)
Theorem last_nonce_is_highest_executed (safe : string)
    (txs : gmap (list N) MultisigTransaction) :
  (forall n,
     last_nonce safe txs = Some n
     <-> (exists h t, txs !! h = Some t /\ mt_safe t = safe
                      /\ mt_ethereum_tx_id t <> None /\ mt_nonce t = n)
         /\ forall h t, txs !! h = Some t -> mt_safe t = safe ->
                        mt_ethereum_tx_id t <> None -> mt_nonce t <= n)
  /\ (last_nonce safe txs = None
      <-> forall h t, txs !! h = Some t -> mt_safe t = safe ->
                      mt_ethereum_tx_id t = None).
Proof.
  pose proof (last_nonce_spec safe txs) as H.
  destruct (last_nonce safe txs) as [m|].
  - destruct H as ((h0 & t0 & Hh0 & Hs0 & He0 & Hn0) & Hle). split.
    + intros n. split.
      * intros [= <-]. eauto 10.
      * intros ((h & t & Hh & Hs & He & Hn) & Hle'). f_equal.
        specialize (Hle h t Hh Hs He). specialize (Hle' h0 t0 Hh0 Hs0 He0). lia.
    + split; [discriminate |]. intros Hnone.
      specialize (Hnone h0 t0 Hh0 Hs0). contradiction.
  - split.
    + intros n. split; [discriminate |].
      intros ((h & t & Hh & Hs & He & _) & _). specialize (H h t Hh Hs). contradiction.
    + split; [intros _; exact H | reflexivity].
Qed.

(** X4.  With the unsigned nonces of the column, the nonce [queued] compares
    with is [last_nonce], [-1] when the wallet has no executed transaction:
    the queued transactions are the ones not executed, of the wallet, with a
    nonce above it. *)
Theorem queued_threshold_is_last_nonce (safe : string)
    (txs : gmap (list N) MultisigTransaction) :
  map_Forall (fun _ t => 0 <= mt_nonce t) txs ->
  max_executed_nonce (Some safe) txs = default (-1) (last_nonce safe txs)
  /\ forall h t,
       queued (Some safe) txs !! h = Some t
       <-> txs !! h = Some t /\ mt_ethereum_tx_id t = None /\ mt_safe t = safe
           /\ default (-1) (last_nonce safe txs) < mt_nonce t.
Proof.
  intros Hnonneg.
  assert (max_executed_nonce (Some safe) txs = default (-1) (last_nonce safe txs))
    as Hmax.
  { pose proof (last_nonce_spec safe txs) as Hlast.
    pose proof (max_executed_nonce_spec (Some safe) txs) as Hspec.
    destruct (last_nonce safe txs) as [n|]; cbn.
    - destruct Hlast as ((h0 & t0 & Hh0 & Hs0 & He0 & Hn0) & Hle).
      pose proof (Hnonneg h0 t0 Hh0) as H0. cbn in H0.
      assert (max_executed_nonce (Some safe) txs < n + 1) as Hup.
      { apply Hspec. split; [lia |]. intros h t Hh He [= Hs].
        specialize (Hle h t Hh Hs He). lia. }
      assert (~ max_executed_nonce (Some safe) txs < n) as Hlow.
      { intros Hlt. apply Hspec in Hlt as [_ Hlt].
        specialize (Hlt h0 t0 Hh0 He0 (f_equal Some Hs0)). lia. }
      lia.
    - assert (max_executed_nonce (Some safe) txs < 0) as Hup.
      { apply Hspec. split; [lia |]. intros h t Hh He [= Hs].
        specialize (Hlast h t Hh Hs). contradiction. }
      assert (~ max_executed_nonce (Some safe) txs < -1) as Hlow.
      { intros Hlt. apply Hspec in Hlt as [Hlt _]. lia. }
      lia. }
  split; [exact Hmax |].
  intros h t. unfold queued. rewrite map_lookup_filter_Some. cbn.
  rewrite Hmax, is_safe_true. unfold executed. split.
  - intros (Hh & He & Hn & [= Hs]). destruct (mt_ethereum_tx_id t); [discriminate |].
    auto.
  - intros (Hh & He & Hs & Hn). rewrite He, Hs. auto.
Qed.

(** X5.  [get_or_generate] for a wallet whose latest row is missing: with a
    snapshot in the history it stores the latest snapshot as the latest row
    and returns it, and asking again returns the same without a change;
    without a snapshot it returns nothing and changes nothing. *)
Theorem get_or_generate_rebuilds_latest_row (a : string) (st : State) :
  safe_last_statuses (db st) !! a = None ->
  match last_for_address a (db st) with
  | Some s =>
      exists st',
        get_or_generate a st = (st', Return (Some s))
        /\ safe_last_statuses (db st') !! a = Some s
        /\ get_or_generate a st' = (st', Return (Some s))
  | None => get_or_generate a st = (st, Return None)
  end.
Proof.
  intros Hnone. unfold get_or_generate at 1 3. mrun. rewrite Hnone.
  destruct (last_for_address a (db st)) as [s|] eqn:E; [| reflexivity].
  apply last_for_address_address in E. subst a.
  eexists. split; [reflexivity |]. cbn. split; [apply lookup_insert_eq |].
  unfold get_or_generate. mrun. cbn. rewrite lookup_insert_eq.
  now rewrite set_address_id.
Qed.

Lemma distinct_nonces_spec a up_to database n :
  n ∈ distinct_nonces a up_to database
  <-> exists k s, safe_statuses database !! k = Some s
                  /\ address s = a /\ nonce s = n /\ n <= up_to.
Proof.
  unfold distinct_nonces.
  apply (map_fold_weak_ind
           (fun (r : gset Z) m =>
              n ∈ r <-> exists k s, m !! k = Some s
                                    /\ address s = a /\ nonce s = n /\ n <= up_to)).
  - split; [set_solver |]. intros (k & s & Hk & _).
    rewrite lookup_empty in Hk. discriminate.
  - intros i x m r Hi IH.
    assert ((exists k s, <[i:=x]> m !! k = Some s
                         /\ address s = a /\ nonce s = n /\ n <= up_to)
            <-> (address x = a /\ nonce x = n /\ n <= up_to)
                \/ exists k s, m !! k = Some s
                               /\ address s = a /\ nonce s = n /\ n <= up_to)
      as ->.
    { split.
      - intros (k & s & Hk & Hs). destruct (decide (i = k)) as [<- | Hne].
        + rewrite lookup_insert_eq in Hk. injection Hk as <-. now left.
        + rewrite lookup_insert_ne in Hk by exact Hne. right. eauto.
      - intros [Hx | (k & s & Hk & Hs)].
        + exists i, x. rewrite lookup_insert_eq. auto.
        + exists k, s. rewrite lookup_insert_ne; [auto | congruence]. }
    rewrite <- IH.
    destruct (String.eqb_spec (address x) a) as [Ha | Ha]; cbn.
    + destruct (Z.leb_spec (nonce x) up_to) as [Hle | Hgt].
      * rewrite elem_of_union, elem_of_singleton. split.
        -- intros [-> | Hr]; [left; auto | now right].
        -- intros [(_ & <- & _) | Hr]; [now left | now right].
      * split; [now right |]. intros [(_ & <- & Hle) | Hr]; [lia | exact Hr].
    + split; [now right |]. intros [(Hx & _) | Hr]; [contradiction | exact Hr].
Qed.

(** X6.  With the unsigned nonces of the column, [is_corrupted] is truthy
    exactly when the wallet has a snapshot at or below the nonce of the
    status and some nonce from 0 up to that nonce has no snapshot.  A wallet
    without any snapshot is never reported corrupted. *)
Theorem is_corrupted_iff_nonce_missing (self : SafeLastStatus)
    (database : Database) :
  (forall k s, safe_statuses database !! k = Some s -> 0 <= nonce s) ->
  truthy_int_or_bool (is_corrupted self database) = true
  <-> (exists k s, safe_statuses database !! k = Some s
                   /\ address s = address self /\ nonce s <= nonce self)
      /\ exists n, 0 <= n <= nonce self
                   /\ forall k s, safe_statuses database !! k = Some s ->
                                  address s = address self -> nonce s <> n.
Proof.
  intros Hnonneg. unfold is_corrupted.
  set (found := distinct_nonces (address self) (nonce self) database).
  set (all := list_to_set (seqZ 0 (nonce self + 1)) : gset Z).
  assert (forall n, n ∈ all <-> 0 <= n <= nonce self) as Hall.
  { intros n. unfold all. rewrite elem_of_list_to_set, elem_of_seqZ. lia. }
  assert (0 <= nonce self -> Z.of_nat (size all) = nonce self + 1) as Hsize.
  { intros H0. unfold all. rewrite size_list_to_set by apply NoDup_seqZ.
    rewrite length_seqZ. lia. }
  assert (found ⊆ all) as Hsub.
  { intros n Hn. apply distinct_nonces_spec in Hn as (k & s & Hk & _ & <- & Hle).
    apply Hall. specialize (Hnonneg k s Hk). lia. }
  assert (forall n, n ∈ found
                    <-> exists k s, safe_statuses database !! k = Some s
                                    /\ address s = address self /\ nonce s = n
                                    /\ n <= nonce self) as Hfound
    by (intros n; apply distinct_nonces_spec).
  destruct (Z.eqb_spec (Z.of_nat (size found)) 0) as [H0 | H0]; cbn.
  - rewrite H0. cbn. split; [discriminate |].
    intros ((k & s & Hk & Ha & Hle) & _). exfalso.
    assert (nonce s ∈ found) as Hin by (apply Hfound; eauto 10).
    assert (size found = 0%nat) as Hz by lia.
    apply size_empty_iff in Hz. apply Hz in Hin.
    now apply not_elem_of_empty in Hin.
  - rewrite Z.leb_le. split.
    + intros Hle. assert (found ≠ ∅) as Hne.
      { intros Hempty. apply H0. rewrite Hempty, size_empty. reflexivity. }
      apply set_choose_L in Hne as [n0 Hn0].
      pose proof Hn0 as Hn0'. apply Hfound in Hn0' as (k & s & Hk & Ha & <- & Hle0).
      split; [eauto 10 |].
      assert (0 <= nonce self) as Hpos by (specialize (Hnonneg k s Hk); lia).
      assert (all ∖ found ≠ ∅) as Hdiff.
      { intros Hempty.
        assert (all ⊆ found) as Hsup.
        { intros m Hm. destruct (decide (m ∈ found)) as [Hin | Hout]; [exact Hin |].
          exfalso. assert (m ∈ all ∖ found) as Hd
            by (apply elem_of_difference; auto).
          rewrite Hempty in Hd. now apply not_elem_of_empty in Hd. }
        apply subseteq_size in Hsup. specialize (Hsize Hpos). lia. }
      apply set_choose_L in Hdiff as [n Hn].
      apply elem_of_difference in Hn as [Hn Hnot]. exists n.
      split; [now apply Hall |].
      intros k' s' Hk' Ha' Hn'. apply Hnot. apply Hfound.
      exists k', s'. apply Hall in Hn. repeat split; auto; lia.
    + intros ((k & s & Hk & Ha & Hle) & n & Hn & Hgap).
      assert (0 <= nonce self) as Hpos by lia.
      assert (found ⊆ all ∖ {[n]}) as Hsub'.
      { intros m Hm. apply elem_of_difference. split; [now apply Hsub |].
        rewrite elem_of_singleton. intros ->.
        apply Hfound in Hm as (k' & s' & Hk' & Ha' & Hn' & _).
        exact (Hgap k' s' Hk' Ha' Hn'). }
      apply subseteq_size in Hsub'.
      assert (size (all ∖ {[n]}) + 1 = size all)%nat as Hminus.
      { assert (all = {[n]} ∪ all ∖ {[n]}) as Hsplit.
        { apply set_eq. intros m.
          rewrite elem_of_union, elem_of_difference, elem_of_singleton.
          split.
          - intros Hm. destruct (decide (m = n)); [now left | now right].
          - intros [-> | [Hm _]]; [now apply Hall | exact Hm]. }
        assert (({[n]} : gset Z) ## all ∖ {[n]}) as Hdisj.
        { intros m Hm1 Hm2. apply elem_of_difference in Hm2 as [_ Hm2].
          contradiction. }
        pose proof (size_union ({[n]} : gset Z) (all ∖ {[n]}) Hdisj) as Hu.
        rewrite <- Hsplit, size_singleton in Hu. lia. }
      specialize (Hsize Hpos). lia.
Qed.

Lemma queue_compare_trans a b c :
  queue_compare a b <> Gt -> queue_compare b c <> Gt -> queue_compare a c <> Gt.
Proof.
  unfold queue_compare, compare_asc_opt.
  lex_step (is_setup a) (is_setup b) (is_setup c).
  lex_step (block_number (internal_tx a)) (block_number (internal_tx b))
    (block_number (internal_tx c)).
  destruct (transaction_index (ethereum_tx (internal_tx a))) as [x|],
    (transaction_index (ethereum_tx (internal_tx b))) as [y|],
    (transaction_index (ethereum_tx (internal_tx c))) as [z|];
    try discriminate; try congruence.
  - lex_step x y z.
    lex_step (internal_tx_id a) (internal_tx_id b) (internal_tx_id c).
  - lex_step (internal_tx_id a) (internal_tx_id b) (internal_tx_id c).
Qed.

Lemma queue_compare_antisym a b :
  queue_compare a b = CompOpp (queue_compare b a).
Proof.
  unfold queue_compare, compare_asc_opt.
  rewrite (Z.compare_antisym (is_setup a) (is_setup b)).
  destruct (Z.compare (is_setup a) (is_setup b)); try reflexivity. cbn.
  rewrite (Z.compare_antisym (block_number (internal_tx a))).
  destruct (Z.compare (block_number (internal_tx a)) _); try reflexivity. cbn.
  destruct (transaction_index (ethereum_tx (internal_tx a))) as [x|],
    (transaction_index (ethereum_tx (internal_tx b))) as [y|];
    try reflexivity.
  - rewrite (Z.compare_antisym x y). destruct (Z.compare x y); try reflexivity. cbn.
    apply Z.compare_antisym.
  - apply Z.compare_antisym.
Qed.

Lemma queue_leb_true a b : queue_leb a b = true <-> queue_compare a b <> Gt.
Proof. unfold queue_leb. destruct (queue_compare a b); split; congruence. Qed.

Lemma queue_insert_permutation d l : queue_insert d l ≡ₚ d :: l.
Proof.
  induction l as [|x l IH]; [reflexivity |]. cbn.
  destruct (queue_leb d x); [reflexivity |].
  rewrite IH. apply Permutation_swap.
Qed.

Lemma queue_insert_sorted d l :
  StronglySorted (fun a b => queue_compare a b <> Gt) l ->
  StronglySorted (fun a b => queue_compare a b <> Gt) (queue_insert d l).
Proof.
  induction l as [|x l IH]; intros Hs; cbn.
  - repeat constructor.
  - apply StronglySorted_inv in Hs as [Hl Hx].
    destruct (queue_leb d x) eqn:E.
    + apply queue_leb_true in E. constructor; [now constructor |].
      constructor; [exact E |].
      eapply Forall_impl; [exact Hx |]. cbn. intros y Hy.
      now apply (queue_compare_trans d x y).
    + constructor; [now apply IH |].
      rewrite queue_insert_permutation. constructor; [| exact Hx].
      rewrite queue_compare_antisym. unfold queue_leb in E.
      destruct (queue_compare d x); cbn; congruence.
Qed.

Lemma sorted_lookup {A} (R : A -> A -> Prop) l i j a b :
  StronglySorted R l -> l !! i = Some a -> l !! j = Some b -> (i < j)%nat -> R a b.
Proof.
  intros Hs. revert i j. induction Hs as [|x l Hl IH Hx]; intros i j Hi Hj Hlt.
  - rewrite lookup_nil in Hi. discriminate.
  - destruct i as [|i], j as [|j]; try lia.
    + cbn in Hi, Hj. injection Hi as <-.
      rewrite Forall_forall in Hx. apply Hx. eapply list_elem_of_lookup_2. exact Hj.
    + cbn in Hi, Hj. apply (IH i j Hi Hj). lia.
Qed.

Lemma order_by_processing_queue_permutation rows :
  order_by_processing_queue rows ≡ₚ rows.
Proof.
  unfold order_by_processing_queue. induction rows as [|d rows IH]; [reflexivity |].
  cbn. now rewrite queue_insert_permutation, IH.
Qed.

Lemma order_by_processing_queue_sorted rows :
  StronglySorted (fun a b => queue_compare a b <> Gt)
    (order_by_processing_queue rows).
Proof.
  unfold order_by_processing_queue. induction rows as [|d rows IH]; [constructor |].
  cbn. apply queue_insert_sorted, IH.
Qed.

Lemma filter_nil {A} (f : A -> bool) l :
  (forall x, x ∈ l -> f x = false) -> List.filter f l = [].
Proof.
  induction l as [|x l IH]; intros H; [reflexivity |]. cbn.
  rewrite (H x) by left. apply IH. intros y Hy. apply H. now right.
Qed.

(** X7.  [order_by_processing_queue] returns the same rows, sorted: a [setup]
    call never comes after a call that is not one, and among [setup] calls
    and among the others the block numbers never decrease. *)
Theorem order_by_processing_queue_sorts (rows : list InternalTxDecoded) :
  order_by_processing_queue rows ≡ₚ rows
  /\ StronglySorted (fun a b => queue_compare a b <> Gt)
       (order_by_processing_queue rows)
  /\ forall i j di dj,
       order_by_processing_queue rows !! i = Some di ->
       order_by_processing_queue rows !! j = Some dj ->
       (i < j)%nat ->
       (function_name dj = "setup" -> function_name di = "setup")
       /\ ((function_name di = "setup" <-> function_name dj = "setup") ->
           block_number (internal_tx di) <= block_number (internal_tx dj)).
Proof.
  pose proof (order_by_processing_queue_permutation rows) as Hperm.
  pose proof (order_by_processing_queue_sorted rows) as Hsorted.
  split; [exact Hperm |]. split; [exact Hsorted |].
  intros i j di dj Hi Hj Hlt.
  pose proof (sorted_lookup _ _ i j di dj Hsorted Hi Hj Hlt) as Hc. cbn in Hc.
  unfold queue_compare, is_setup in Hc.
  destruct (String.eqb_spec (function_name di) "setup") as [E | E],
    (String.eqb_spec (function_name dj) "setup") as [E' | E']; cbn in Hc.
  - split; [auto |]. intros _.
    destruct (Z.compare_spec (block_number (internal_tx di))
                (block_number (internal_tx dj))); [lia | lia | congruence].
  - split; [auto |]. tauto.
  - congruence.
  - split; [tauto |]. intros _.
    destruct (Z.compare_spec (block_number (internal_tx di))
                (block_number (internal_tx dj))); [lia | lia | congruence].
Qed.

(** ** Version changes in steps *)

Lemma version_le_lt_trans a b c :
  PyVersion.le a b = true -> PyVersion.lt b c = true -> PyVersion.lt a c = true.
Proof.
  unfold PyVersion.le, PyVersion.lt. intros Hab Hbc.
  destruct (PyVersion.compare b c) eqn:Ebc; try discriminate.
  destruct (PyVersion.compare a b) eqn:Eab; try discriminate.
  - now rewrite (PyVersionFacts.compare_eq_l a b c Eab), Ebc.
  - now rewrite (PyVersionFacts.compare_lt_trans a b c Eab Ebc).
Qed.

Lemma version_le_trans a b c :
  PyVersion.le a b = true -> PyVersion.le b c = true -> PyVersion.le a c = true.
Proof.
  intros Hab Hbc. unfold PyVersion.le in Hbc.
  destruct (PyVersion.compare b c) eqn:Ebc; try discriminate.
  - unfold PyVersion.le in *.
    now rewrite (PyVersionFacts.compare_eq_r b c a Ebc) in Hab.
  - assert (PyVersion.lt b c = true) as Hlt by (unfold PyVersion.lt; now rewrite Ebc).
    pose proof (version_le_lt_trans a b c Hab Hlt) as H.
    unfold PyVersion.lt, PyVersion.le in *.
    now destruct (PyVersion.compare a c).
Qed.

Lemma breaking_in_order parse_base_version a b va vb :
  parse_base_version a = Some va ->
  parse_base_version b = Some vb ->
  PyVersion.le va vb = true ->
  is_version_breaking_signatures parse_base_version a b
  = Some (breaking_between va vb signature_breaking_versions).
Proof.
  intros Ha Hb Hle. unfold is_version_breaking_signatures.
  rewrite Ha, Hb, swap_orders_versions.
  unfold smaller_version, larger_version. now rewrite Hle.
Qed.

(** X8.  For versions [a <= b <= c], a change from [a] to [c] breaks
    signatures exactly when the change from [a] to [b] or the change from
    [b] to [c] does; a change between two equal versions never does. *)
Theorem is_version_breaking_signatures_composes
    (parse_base_version : string -> option Version) (a b c : string)
    (va vb vc : Version) :
  parse_base_version a = Some va ->
  parse_base_version b = Some vb ->
  parse_base_version c = Some vc ->
  PyVersion.le va vb = true ->
  PyVersion.le vb vc = true ->
  exists ab bc ac,
    is_version_breaking_signatures parse_base_version a b = Some ab
    /\ is_version_breaking_signatures parse_base_version b c = Some bc
    /\ is_version_breaking_signatures parse_base_version a c = Some ac
    /\ ac = ab || bc
    /\ (PyVersion.compare va vb = Eq -> ab = false).
Proof.
  intros Ha Hb Hc Hab Hbc.
  pose proof (version_le_trans va vb vc Hab Hbc) as Hac.
  rewrite (breaking_in_order _ a b va vb), (breaking_in_order _ b c vb vc),
    (breaking_in_order _ a c va vc) by assumption.
  eexists _, _, _. repeat split.
  - apply eq_true_iff_eq. rewrite orb_true_iff, !breaking_between_spec.
    unfold boundary_between. split.
    + intros (bv & Hin & Hlt & Hle).
      destruct (PyVersion.le bv vb) eqn:E.
      * left. eauto.
      * right. exists bv. split; [exact Hin |]. split; [| exact Hle].
        rewrite PyVersionFacts.lt_not_le, E. reflexivity.
    + intros [(bv & Hin & Hlt & Hle) | (bv & Hin & Hlt & Hle)].
      * exists bv. split; [exact Hin |]. split; [exact Hlt |].
        now apply (version_le_trans bv vb vc).
      * exists bv. split; [exact Hin |]. split; [| exact Hle].
        now apply (version_le_lt_trans va vb bv).
  - intros Heq.
    destruct (breaking_between va vb signature_breaking_versions) eqn:E;
      [| reflexivity].
    apply breaking_between_spec in E as (bv & _ & Hlt & Hle).
    exfalso. apply (PyVersionFacts.no_boundary_backwards vb va bv).
    + unfold PyVersion.le. rewrite PyVersionFacts.compare_antisym, Heq. reflexivity.
    + exact Hlt.
    + exact Hle.
Qed.

(** ** Uniqueness of the confirmations *)

#[global] Instance keeps_confirmations_unique_preorder :
  PreOrder keeps_confirmations_unique.
Proof.
  split.
  - intros st H. exact H.
  - intros a b c H1 H2 H. apply H2, H1, H.
Qed.

Lemma same_confirmation_key h o c :
  same_confirmation h o c = true <-> confirmation_key c = Some (h, o).
Proof.
  unfold same_confirmation, confirmation_key.
  rewrite andb_true_iff, bool_decide_eq_true, String.eqb_eq.
  destruct (mc_multisig_transaction_hash c) as [h'|]; cbn.
  - split; [intros [[= ->] ->]; reflexivity | intros [= -> ->]; auto].
  - split; [intros [? _]; discriminate | discriminate].
Qed.

Lemma save_confirmation_keys h o c' l :
  confirmation_key c' = Some (h, o) ->
  omap confirmation_key (save_confirmation h o c' l) = omap confirmation_key l.
Proof.
  intros Hc'. unfold save_confirmation.
  induction l as [|c l IH]; [reflexivity |]. cbn.
  destruct (same_confirmation h o c) eqn:E.
  - apply same_confirmation_key in E. rewrite Hc', E. cbn. now rewrite IH.
  - now rewrite IH.
Qed.

Lemma find_none_key h o l :
  List.find (same_confirmation h o) l = None ->
  (h, o) ∉ omap confirmation_key l.
Proof.
  intros Hfind Hin. apply list_elem_of_omap in Hin as (c & Hc & Hkey).
  apply list_elem_of_In in Hc.
  pose proof (find_none _ _ Hfind c Hc) as Hno.
  apply same_confirmation_key in Hkey. congruence.
Qed.

Lemma omap_snoc_key (l : list MultisigConfirmation) c :
  omap confirmation_key (l ++ [c])%list
  = (omap confirmation_key l ++ match confirmation_key c with
                                | Some k => [k]
                                | None => []
                                end)%list.
Proof.
  rewrite omap_app. cbn. now destruct (confirmation_key c).
Qed.

Lemma get_or_create_confirmation_unique h o defaults l :
  confirmation_key defaults = Some (h, o) ->
  unique_confirmations l ->
  unique_confirmations (get_or_create_confirmation h o defaults l).2
  /\ confirmation_key (get_or_create_confirmation h o defaults l).1 = Some (h, o).
Proof.
  intros Hd Hu. unfold get_or_create_confirmation.
  destruct (List.find (same_confirmation h o) l) as [c|] eqn:E; cbn.
  - split; [exact Hu |]. apply find_some in E as [_ E].
    now apply same_confirmation_key.
  - split; [| exact Hd]. unfold unique_confirmations.
    rewrite omap_snoc_key, Hd. apply NoDup_app. split; [exact Hu |].
    split; [| apply NoDup_singleton].
    intros k Hk Hk'. apply list_elem_of_singleton in Hk'. subst k.
    exact (find_none_key h o l E Hk).
Qed.

Lemma save_confirmation_unique h o c' l :
  confirmation_key c' = Some (h, o) ->
  unique_confirmations l ->
  unique_confirmations (save_confirmation h o c' l).
Proof.
  intros Hc' Hu. unfold unique_confirmations. now rewrite save_confirmation_keys.
Qed.

Lemma confirm_signature_unique itx h l safe_signature :
  unique_confirmations l ->
  unique_confirmations (confirm_signature itx h l safe_signature).
Proof.
  intros Hu. unfold confirm_signature.
  match goal with
  | |- context [get_or_create_confirmation ?h ?o ?d ?l] =>
      destruct (get_or_create_confirmation_unique h o d l eq_refl Hu) as [Hu' Hc];
      destruct (get_or_create_confirmation h o d l) as [c l']
  end.
  cbn in Hu', Hc. destruct (bool_decide _); [exact Hu' |].
  apply save_confirmation_unique; [| exact Hu'].
  unfold confirmation_key in *. cbn. exact Hc.
Qed.

Lemma fold_confirm_signature_unique itx h signatures l :
  unique_confirmations l ->
  unique_confirmations (fold_left (confirm_signature itx h) signatures l).
Proof.
  revert l. induction signatures as [|x signatures IH]; intros l Hu; [exact Hu |].
  cbn. apply IH. now apply confirm_signature_unique.
Qed.

Lemma filter_unique (f : MultisigConfirmation -> bool) l :
  unique_confirmations l -> unique_confirmations (List.filter f l).
Proof.
  unfold unique_confirmations. induction l as [|c l IH]; intros Hu; [exact Hu |].
  assert (forall k, k ∈ omap confirmation_key (List.filter f l) ->
                    k ∈ omap confirmation_key l) as Hsub.
  { intros k Hk. apply list_elem_of_omap in Hk as (c' & Hc' & Hkey).
    apply list_elem_of_omap. exists c'. split; [| exact Hkey].
    apply list_elem_of_In, filter_In in Hc' as [Hc' _]. now apply list_elem_of_In. }
  cbn in Hu |- *. destruct (f c); cbn.
  - destruct (confirmation_key c) as [k|].
    + apply NoDup_cons in Hu as [Hk Hu]. apply NoDup_cons. auto.
    + auto.
  - destruct (confirmation_key c) as [k|].
    + apply NoDup_cons in Hu as [_ Hu]. auto.
    + auto.
Qed.

Lemma respects_read {B} R (k : Database -> M B) :
  (forall st st' o, k (db st) st = (st', o) -> R st st') ->
  respects R (get_db ≫= k).
Proof. intros H st st' o. apply H. Qed.

Ltac unique_side :=
  let st := fresh "st" in
  let Hu := fresh "Hu" in
  intros st Hu; cbn;
  first [ exact Hu
        | apply filter_unique; exact Hu
        | apply fold_confirm_signature_unique; exact Hu ].

Ltac unique_go approve :=
  repeat first
    [ match goal with |- PreOrder _ => apply _ end
    | approve
    | apply respects_ret
    | apply respects_raise
    | apply respects_get_db
    | apply respects_get_cache
    | apply respects_bind; [ .. | intros ]
    | apply respects_except
    | apply respects_modify_db; solve [unique_side]
    | apply respects_modify_cache; solve [unique_side]
    | match goal with
      | |- respects _ (match ?x with _ => _ end) => destruct x
      | |- respects _ (if ?x then _ else _) => destruct x
      end
    | progress unfold getitem, as_str, as_int, as_str_list, as_opt_str, require,
        is_failed, is_module_failed, get_safe_version_from_master_copy,
        get_last_safe_status_for_address, get_or_generate, assign,
        store_new_safe_status, swap_owner, disable_module, get_previous_trace,
        get_or_create_relevant, process_module_transaction,
        process_exec_transaction, process_setup ].

(** ** Further properties of the processor *)

Section FurtherProcessorFacts.

Variable parse_base_version : string -> option Version.
Variable HexBytes : value -> option (list N).
Variable safe_tx_failure_events_topics : list (list N).
Variable safe_tx_module_failure_topics : list (list N).
Variable safe_tx_hash : SafeTx -> list N.
Variable parse_signature : list N -> list N -> list SafeSignature.
Variable build_for_owner : string -> list N -> SafeSignature.
Variable get_chain_id : Z.
Variable ethereum_tracing_client : option (list N -> list Z -> rpc_result).
Variable process_aa_transaction : option string -> EthereumTx -> nat.

Local Abbreviation process :=
  (__process_decoded_transaction parse_base_version HexBytes
     safe_tx_failure_events_topics safe_tx_module_failure_topics safe_tx_hash
     parse_signature build_for_owner get_chain_id ethereum_tracing_client
     process_aa_transaction).
Local Abbreviation process_one :=
  (process_decoded_transaction parse_base_version HexBytes
     safe_tx_failure_events_topics safe_tx_module_failure_topics safe_tx_hash
     parse_signature build_for_owner get_chain_id ethereum_tracing_client
     process_aa_transaction).
Local Abbreviation process_many :=
  (process_decoded_transactions parse_base_version HexBytes
     safe_tx_failure_events_topics safe_tx_module_failure_topics safe_tx_hash
     parse_signature build_for_owner get_chain_id ethereum_tracing_client
     process_aa_transaction).
Local Abbreviation loop :=
  (process_loop parse_base_version HexBytes
     safe_tx_failure_events_topics safe_tx_module_failure_topics safe_tx_hash
     parse_signature build_for_owner get_chain_id ethereum_tracing_client
     process_aa_transaction).
(** X9.  A call other than a [setup] (or a [setup] of the null address) for a
    wallet that has no status, cached, stored or to rebuild, is reported
    unsuccessful whatever its function and arguments, and nothing
    changes. *)
Theorem call_for_unknown_wallet_is_skipped (d : InternalTxDecoded) (st st1 : State) :
  function_name d <> "setup" \/ _from (internal_tx d) = Some NULL_ADDRESS ->
  get_last_safe_status_for_address (_from (internal_tx d)) st = (st1, Return None) ->
  process d st = (st, Return false).
Proof.
  intros Hfn Hget. pose proof (get_last_none_unchanged _ _ _ Hget) as ->.
  unfold __process_decoded_transaction.
  destruct (gas_used (internal_tx d) <? 1000)%Z; [reflexivity |].
  assert ((function_name d =? "setup")%string
          && negb (bool_decide (_from (internal_tx d) = Some NULL_ADDRESS)) = false) as ->.
  { destruct Hfn as [Hfn | Hfn].
    - apply String.eqb_neq in Hfn. now rewrite Hfn.
    - rewrite (bool_decide_eq_true_2 _ Hfn). apply andb_false_r. }
  erewrite bind_Return by exact Hget. reflexivity.
Qed.

(** X10.  A call whose function name is not one the processor knows is reported
    unsuccessful; the state is the one the lookup of the status left, or the
    initial one when the gas guard rejected the call first. *)
Theorem unknown_function_is_rejected (d : InternalTxDecoded) (st st1 : State) found :
  function_name d ∉ known_function_names ->
  get_last_safe_status_for_address (_from (internal_tx d)) st
  = (st1, Return (Some found)) ->
  process d st = (if (gas_used (internal_tx d) <? 1000)%Z then st else st1, Return false).
Proof.
  intros Hfn Hget. unfold __process_decoded_transaction.
  destruct (gas_used (internal_tx d) <? 1000)%Z eqn:Hgas; [reflexivity |].
  pose proof (fun n => eqb_of_not_in _ n _ Hfn) as E.
  rewrite (E "setup") by (unfold known_function_names; in_list).
  cbn [andb].
  erewrite bind_Return by exact Hget. destruct found as [s shared].
  rewrite !bool_decide_eq_false_2.
  2,3: intros Hin; apply Hfn; unfold known_function_names;
       repeat (apply elem_of_cons in Hin as [-> | Hin]; [in_list |]);
       inversion Hin.
  rewrite (E "swapOwner"), (E "changeThreshold"), (E "changeMasterCopy"),
    (E "setFallbackHandler"), (E "setGuard"), (E "enableModule"),
    (E "disableModule"), (E "approveHash"), (E "execTransaction"),
    (E "execTransactionFromModule")
    by (unfold known_function_names; in_list).
  reflexivity.
Qed.

(** X11.  A [disableModule] call for a module that is not enabled raises
    [ModuleCannotBeDisabled], and nothing is stored. *)
Theorem disabling_absent_module_raises (d : InternalTxDecoded) (st st1 : State)
    (s : SafeLastStatus) (shared : bool) (module_v : value) :
  1000 <= gas_used (internal_tx d) ->
  function_name d = "disableModule" ->
  arguments d !! "module" = Some module_v ->
  get_last_safe_status_for_address (_from (internal_tx d)) st
  = (st1, Return (Some (s, shared))) ->
  value_in module_v (enabled_modules s) = false ->
  process d st = (st1, Raise ModuleCannotBeDisabled).
Proof.
  intros Hgas Hfn Harg Hget Hin. unfold __process_decoded_transaction.
  rewrite Hfn. cbn -[Z.ltb get_last_safe_status_for_address].
  destruct (Z.ltb_spec (gas_used (internal_tx d)) 1000); [lia |].
  erewrite bind_Return by exact Hget. cbv beta iota. eval_membership.
  mrun. rewrite Harg. unfold disable_module. mrun. rewrite Hin. reflexivity.
Qed.

(** X12.  A [removeOwner] call with a threshold, for an owner the wallet does
    not have, on a status that sits in the cache: [OwnerCannotBeRemoved] is
    raised after the threshold was assigned, so the cached status keeps the
    new threshold although the database is untouched. *)
Theorem failed_owner_removal_keeps_new_threshold (d : InternalTxDecoded)
    (st : State) (a : string) (s : SafeLastStatus) (n : Z) (owner_v : value) :
  1000 <= gas_used (internal_tx d) ->
  function_name d = "removeOwner" \/ function_name d = "removeOwnerWithThreshold" ->
  _from (internal_tx d) = Some a ->
  safe_last_status_cache st !! a = Some s ->
  arguments d !! "_threshold" = Some (VInt n) ->
  n <> 0 ->
  arguments d !! "owner" = Some owner_v ->
  value_in owner_v (owners s) = false ->
  process d st
  = (mkState (db st) (<[a := set_threshold s n]> (safe_last_status_cache st)),
     Raise OwnerCannotBeRemoved).
Proof.
  intros Hgas Hfn Hfrom Hc Ht Hn Ho Hin. unfold __process_decoded_transaction.
  destruct (Z.ltb_spec (gas_used (internal_tx d)) 1000); [lia |].
  assert ((function_name d =? "setup")%string = false) as ->
    by (destruct Hfn as [-> | ->]; reflexivity).
  cbn [andb]. rewrite Hfrom.
  unfold get_last_safe_status_for_address, mbind, M_bind, bind, get_cache, ret.
  rewrite Hc.
  assert (bool_decide (function_name d ∈ ["addOwnerWithThreshold"; "removeOwner";
                                            "removeOwnerWithThreshold"]) = true) as ->.
  { apply bool_decide_eq_true_2. destruct Hfn as [-> | ->]; in_list. }
  assert ((function_name d =? "addOwnerWithThreshold")%string = false) as ->
    by (destruct Hfn as [-> | ->]; reflexivity).
  assert (truthy (VInt n) = true) as Htruthy.
  { simpl. now apply negb_true_iff, Z.eqb_neq. }
  unfold assign, swap_owner. mrun.
  rewrite Ht. mrun. rewrite Htruthy. mrun.
  rewrite Ho. mrun. cbn [owners set_threshold]. rewrite Hin. reflexivity.
Qed.

Lemma new_threshold_run v s st :
  (truthy v = true -> exists n, v = VInt n) ->
  (if truthy v then as_int v else ret (threshold s)) st
  = (st, Return (new_threshold v s)).
Proof.
  intros Hv. destruct (truthy v) eqn:E.
  - destruct (Hv eq_refl) as [n ->]. simpl in E. unfold new_threshold.
    apply negb_true_iff in E. now rewrite E.
  - destruct v as [|n| |]; try reflexivity. simpl in E. unfold new_threshold.
    apply negb_false_iff in E. now rewrite E.
Qed.

Lemma store_new_safe_status_stored s itx st :
  exists st',
    store_new_safe_status s itx st = (st', Return (set_internal_tx s itx))
    /\ stored_status st' (address s) (set_internal_tx s itx)
    /\ (forall k, k <> address s ->
          safe_last_status_cache st' !! k = safe_last_status_cache st !! k)
    /\ multisig_transactions (db st') = multisig_transactions (db st)
    /\ multisig_confirmations (db st') = multisig_confirmations (db st)
    /\ safe_contract_delegates (db st') = safe_contract_delegates (db st)
    /\ safe_message_confirmations (db st') = safe_message_confirmations (db st).
Proof.
  eexists. split; [reflexivity |]. cbn. repeat split.
  - apply lookup_insert_eq.
  - apply lookup_insert_eq.
  - apply lookup_insert_eq.
  - intros k Hk. now apply lookup_insert_ne.
Qed.

Lemma replace_owner_length old new l :
  length (replace_owner old new l) = length l.
Proof. unfold replace_owner. apply length_map. Qed.

Lemma replace_owner_removes old new l :
  new <> old -> old ∉ replace_owner old new l.
Proof.
  intros Hne Hin. unfold replace_owner in Hin.
  apply list_elem_of_In, in_map_iff in Hin as (c & Hc & _).
  destruct (String.eqb_spec c old); congruence.
Qed.

Lemma replace_owner_adds old new l :
  old ∈ l -> new ∈ replace_owner old new l.
Proof.
  intros Hin. unfold replace_owner. apply list_elem_of_In, in_map_iff.
  exists old. rewrite String.eqb_refl. split; [reflexivity |].
  now apply list_elem_of_In.
Qed.

Lemma replace_owner_same old l : replace_owner old old l = l.
Proof.
  unfold replace_owner. induction l as [|c l IH]; [reflexivity |].
  cbn. rewrite IH. now destruct (String.eqb_spec c old) as [-> |].
Qed.

Lemma replace_owner_changes old new l :
  old ∈ l -> new <> old -> l <> replace_owner old new l.
Proof.
  intros Hin Hne E. apply (replace_owner_removes old new l Hne). now rewrite <- E.
Qed.

Lemma value_in_str o l : value_in (VStr o) l = true <-> o ∈ l.
Proof. apply bool_decide_eq_true. Qed.

(** X13.  A [swapOwner] call for an owner of the wallet succeeds and stores
    (cache, latest row and snapshot) the status with the new owner in the
    place of the old one: same length, the new owner in, the old one out
    when they differ, threshold and nonce kept.  The delegates of the old
    owner for this wallet are deleted, unless the owner is swapped with
    itself. *)
Theorem swap_owner_replaces_in_place (d : InternalTxDecoded) (st st1 : State)
    (s : SafeLastStatus) (shared : bool) (old new : string) :
  1000 <= gas_used (internal_tx d) ->
  function_name d = "swapOwner" ->
  arguments d !! "oldOwner" = Some (VStr old) ->
  arguments d !! "newOwner" = Some (VStr new) ->
  new <> "" ->
  get_last_safe_status_for_address (_from (internal_tx d)) st
  = (st1, Return (Some (s, shared))) ->
  old ∈ owners s ->
  exists st' s',
    process d st = (st', Return true)
    /\ stored_status st' (address s) s'
    /\ owners s' = replace_owner old new (owners s)
    /\ length (owners s') = length (owners s)
    /\ new ∈ owners s'
    /\ (new <> old -> old ∉ owners s')
    /\ threshold s' = threshold s
    /\ nonce s' = nonce s
    /\ safe_contract_delegates (db st')
       = safe_contract_delegates
           (if bool_decide (new = old) then db st1
            else remove_delegates_for_owner_in_safe (address s) old (db st1)).
Proof.
  intros Hgas Hfn Hold Hnew Hne Hget Hin. unfold __process_decoded_transaction.
  rewrite Hfn. cbn -[Z.ltb get_last_safe_status_for_address].
  destruct (Z.ltb_spec (gas_used (internal_tx d)) 1000); [lia |].
  erewrite bind_Return by exact Hget. cbv beta iota. eval_membership.
  mrun. rewrite Hold, Hnew. unfold swap_owner. mrun.
  rewrite (proj2 (value_in_str old (owners s)) Hin). cbn [negb truthy].
  apply String.eqb_neq in Hne. rewrite Hne. cbn [negb]. mrun.
  fold (replace_owner old new (owners s)).
  destruct (decide (new = old)) as [-> | Hdiff].
  - rewrite replace_owner_same, !bool_decide_eq_true_2 by reflexivity.
    mrun. destruct (store_new_safe_status_stored (set_owners s (owners s))
                      (internal_tx d)
                      (mkState (delete_message_confirmations old
                                  (remove_unused_confirmations (_from (internal_tx d))
                                     (nonce (set_owners s (owners s))) old (db st1)))
                               (safe_last_status_cache st1)))
      as (st' & E & Hst & _ & _ & _ & Hdel & _).
    cbn [db safe_last_status_cache] in E |- *. rewrite E.
    exists st', (set_internal_tx (set_owners s (owners s)) (internal_tx d)).
    split; [reflexivity |]. split; [exact Hst |]. cbn.
    repeat split; first [done | rewrite Hdel; reflexivity].
  - rewrite (bool_decide_eq_false_2 (owners s = _))
      by now apply replace_owner_changes.
    rewrite (bool_decide_eq_false_2 (new = old)) by assumption.
    mrun. destruct (store_new_safe_status_stored
                      (set_owners s (replace_owner old new (owners s)))
                      (internal_tx d)
                      (mkState (delete_message_confirmations old
                                  (remove_unused_confirmations (_from (internal_tx d))
                                     (nonce (set_owners s (replace_owner old new (owners s))))
                                     old
                                     (remove_delegates_for_owner_in_safe (address s) old
                                        (db st1))))
                               (safe_last_status_cache st1)))
      as (st' & E & Hst & _ & _ & _ & Hdel & _).
    cbn [db safe_last_status_cache address set_owners] in E |- *. rewrite E.
    eexists st', _. split; [reflexivity |]. split; [exact Hst |]. cbn.
    repeat split.
    + apply replace_owner_length.
    + now apply replace_owner_adds.
    + intros _. now apply replace_owner_removes.
    + rewrite Hdel. reflexivity.
Qed.

Lemma list_remove_permutation o l : o ∈ l -> o :: list_remove o l ≡ₚ l.
Proof.
  induction l as [|y l IH]; intros Hin; [inversion Hin |].
  cbn. destruct (String.eqb_spec y o) as [-> | Hne]; [reflexivity |].
  apply elem_of_cons in Hin as [-> | Hin]; [congruence |].
  rewrite Permutation_swap. now rewrite IH.
Qed.

Lemma list_remove_head o l : list_remove o (o :: l) = l.
Proof. cbn. now rewrite String.eqb_refl. Qed.

Lemma list_remove_last o l : o ∉ l -> list_remove o (l ++ [o]) = l.
Proof.
  induction l as [|y l IH]; intros Hin; cbn.
  - now rewrite String.eqb_refl.
  - apply not_elem_of_cons in Hin as [Hne Hin].
    destruct (String.eqb_spec y o) as [-> | _]; [congruence |]. now rewrite IH.
Qed.

Lemma assign_run a shared s st :
  assign a shared s st = (fst (assign a shared s st), Return tt)
  /\ db (fst (assign a shared s st)) = db st.
Proof. unfold assign. destruct a as [a|], shared; split; reflexivity. Qed.

(** The state an owner call leaves when the owner is there to add or remove. *)
Lemma process_add_owner_run d st st1 s shared o v :
  1000 <= gas_used (internal_tx d) ->
  function_name d = "addOwnerWithThreshold" ->
  arguments d !! "owner" = Some (VStr o) ->
  threshold_argument d v ->
  get_last_safe_status_for_address (_from (internal_tx d)) st
  = (st1, Return (Some (s, shared))) ->
  let s2 := set_threshold s (new_threshold v s) in
  process d st
  = (fst (store_new_safe_status (set_owners s2 (o :: owners s)) (internal_tx d)
            (fst (assign (_from (internal_tx d)) shared s2 st1))),
     Return true).
Proof.
  intros Hgas Hfn Ho [Hv Hint] Hget s2. unfold __process_decoded_transaction.
  rewrite Hfn. cbn -[Z.ltb get_last_safe_status_for_address].
  destruct (Z.ltb_spec (gas_used (internal_tx d)) 1000); [lia |].
  erewrite bind_Return by exact Hget. cbv beta iota. eval_membership.
  unfold getitem. rewrite Hv, Ho.
  erewrite bind_Return by reflexivity.
  erewrite bind_Return by (apply new_threshold_run; exact Hint).
  erewrite bind_Return by apply assign_run.
  reflexivity.
Qed.

Lemma process_remove_owner_run d st st1 s shared o v :
  1000 <= gas_used (internal_tx d) ->
  function_name d = "removeOwner" \/ function_name d = "removeOwnerWithThreshold" ->
  arguments d !! "owner" = Some (VStr o) ->
  threshold_argument d v ->
  get_last_safe_status_for_address (_from (internal_tx d)) st
  = (st1, Return (Some (s, shared))) ->
  o ∈ owners s ->
  let s2 := set_threshold s (new_threshold v s) in
  let st2 := fst (assign (_from (internal_tx d)) shared s2 st1) in
  process d st
  = (fst (store_new_safe_status (set_owners s2 (list_remove o (owners s)))
            (internal_tx d)
            (mkState
               (delete_message_confirmations o
                  (remove_unused_confirmations (_from (internal_tx d)) (nonce s) o
                     (remove_delegates_for_owner_in_safe (address s) o (db st1))))
               (safe_last_status_cache st2))),
     Return true).
Proof.
  intros Hgas Hfn Ho [Hv Hint] Hget Hin s2 st2. unfold __process_decoded_transaction.
  destruct (Z.ltb_spec (gas_used (internal_tx d)) 1000); [lia |].
  assert ((function_name d =? "setup")%string = false) as ->
    by (destruct Hfn as [-> | ->]; reflexivity).
  cbn [andb].
  erewrite bind_Return by exact Hget. cbv beta iota.
  assert (bool_decide (function_name d ∈ ["addOwnerWithThreshold"; "removeOwner";
                                            "removeOwnerWithThreshold"]) = true) as ->.
  { apply bool_decide_eq_true_2. destruct Hfn as [-> | ->]; in_list. }
  assert ((function_name d =? "addOwnerWithThreshold")%string = false) as ->
    by (destruct Hfn as [-> | ->]; reflexivity).
  unfold getitem. rewrite Hv, Ho.
  erewrite bind_Return by reflexivity.
  erewrite bind_Return by (apply new_threshold_run; exact Hint).
  erewrite bind_Return by apply assign_run.
  erewrite bind_Return by reflexivity.
  destruct (assign_run (_from (internal_tx d)) shared s2 st1) as [_ Hdb].
  unfold swap_owner. cbn [owners set_threshold truthy].
  rewrite (proj2 (value_in_str o (owners s)) Hin). cbn [negb]. mrun.
  subst st2 s2. cbn [db safe_last_status_cache].
  rewrite Hdb. reflexivity.
Qed.

Lemma get_last_cached a st s :
  safe_last_status_cache st !! a = Some s ->
  get_last_safe_status_for_address (Some a) st = (st, Return (Some (s, true))).
Proof.
  intros H. unfold get_last_safe_status_for_address. mrun. now rewrite H.
Qed.

Lemma store_new_safe_status_run s itx st :
  store_new_safe_status s itx st
  = (fst (store_new_safe_status s itx st), Return (set_internal_tx s itx)).
Proof. reflexivity. Qed.

(** Which confirmations [remove_unused_confirmations] leaves. *)
Lemma remove_unused_confirmations_spec safe n o database c :
  c ∈ multisig_confirmations (remove_unused_confirmations safe n o database)
  <-> c ∈ multisig_confirmations database
      /\ ~ (mc_owner c = o
            /\ exists h t,
                 mc_multisig_transaction c = Some h
                 /\ multisig_transactions database !! h = Some t
                 /\ mt_ethereum_tx_id t = None
                 /\ Some (mt_safe t) = safe
                 /\ n <= mt_nonce t).
Proof.
  unfold remove_unused_confirmations. cbn. rewrite list_elem_of_In, filter_In,
    <- list_elem_of_In.
  apply and_iff_compat_l. rewrite negb_true_iff, andb_false_iff. split.
  - intros [Hne | Hm] (Ho & h & t & Hh & Ht & Hex & Hs & Hn).
    + apply String.eqb_neq in Hne. contradiction.
    + rewrite Hh, Ht in Hm. unfold executed in Hm. rewrite Hex in Hm.
      rewrite (proj2 (is_safe_true safe t) Hs) in Hm.
      apply Z.leb_le in Hn. rewrite Hn in Hm. discriminate.
  - intros Hnot. destruct (String.eqb_spec (mc_owner c) o) as [Ho | Hne];
      [right | now left].
    destruct (mc_multisig_transaction c) as [h|] eqn:Hh; [| reflexivity].
    destruct (multisig_transactions database !! h) as [t|] eqn:Ht; [| reflexivity].
    destruct (negb (executed t) && is_safe safe t && (n <=? mt_nonce t)%Z) eqn:E;
      [| reflexivity].
    exfalso. apply Hnot. split; [exact Ho |]. exists h, t.
    apply andb_true_iff in E as [E En]. apply andb_true_iff in E as [Ee Es].
    split; [reflexivity |]. split; [exact Ht |]. split; [| split].
    + apply negb_true_iff in Ee. unfold executed in Ee.
      now destruct (mt_ethereum_tx_id t).
    + now apply is_safe_true.
    + now apply Z.leb_le.
Qed.

(** X14.  A [removeOwner] or [removeOwnerWithThreshold] call for an owner of the
    wallet succeeds and stores the status with one occurrence of the owner
    removed and with the threshold of the call (the old one when the call
    has none).  The delegates of the owner for this wallet are deleted, and
    so are exactly the owner's confirmations of transactions of this wallet
    that are not executed and have a nonce at or above the wallet's; no
    transaction is touched. *)
Theorem remove_owner_removes_one_occurrence (d : InternalTxDecoded)
    (st st1 : State) (s : SafeLastStatus) (shared : bool) (o : string)
    (v : value) :
  1000 <= gas_used (internal_tx d) ->
  function_name d = "removeOwner" \/ function_name d = "removeOwnerWithThreshold" ->
  arguments d !! "owner" = Some (VStr o) ->
  threshold_argument d v ->
  get_last_safe_status_for_address (_from (internal_tx d)) st
  = (st1, Return (Some (s, shared))) ->
  o ∈ owners s ->
  exists st' s',
    process d st = (st', Return true)
    /\ stored_status st' (address s) s'
    /\ owners s' = list_remove o (owners s)
    /\ o :: owners s' ≡ₚ owners s
    /\ threshold s' = new_threshold v s
    /\ nonce s' = nonce s
    /\ safe_contract_delegates (db st')
       = safe_contract_delegates
           (remove_delegates_for_owner_in_safe (address s) o (db st1))
    /\ (forall c,
          c ∈ multisig_confirmations (db st')
          <-> c ∈ multisig_confirmations (db st1)
              /\ ~ (mc_owner c = o
                    /\ exists h t,
                         mc_multisig_transaction c = Some h
                         /\ multisig_transactions (db st1) !! h = Some t
                         /\ mt_ethereum_tx_id t = None
                         /\ Some (mt_safe t) = _from (internal_tx d)
                         /\ nonce s <= mt_nonce t))
    /\ multisig_transactions (db st') = multisig_transactions (db st1).
Proof.
  intros Hgas Hfn Ho Hv Hget Hin.
  pose proof (process_remove_owner_run d st st1 s shared o v Hgas Hfn Ho Hv Hget Hin)
    as Hrun. cbv zeta in Hrun.
  match type of Hrun with
  | _ = (fst (store_new_safe_status ?s2 ?itx ?st2), _) =>
      destruct (store_new_safe_status_stored s2 itx st2)
        as (st' & E & Hst & _ & Htx & Hconf & Hdel & _);
      rewrite E in Hrun; exists st', (set_internal_tx s2 itx)
  end.
  split; [exact Hrun |]. split; [exact Hst |].
  cbn [owners threshold nonce set_internal_tx set_owners set_threshold].
  split; [reflexivity |]. split; [now apply list_remove_permutation |].
  split; [reflexivity |]. split; [reflexivity |].
  split; [rewrite Hdel; reflexivity |].
  split; [| rewrite Htx; reflexivity].
  intros c. rewrite Hconf.
  exact (remove_unused_confirmations_spec (_from (internal_tx d)) (nonce s) o
           (remove_delegates_for_owner_in_safe (address s) o (db st1)) c).
Qed.

Lemma process_enable_module_run d st st1 s shared m :
  1000 <= gas_used (internal_tx d) ->
  function_name d = "enableModule" ->
  arguments d !! "module" = Some (VStr m) ->
  get_last_safe_status_for_address (_from (internal_tx d)) st
  = (st1, Return (Some (s, shared))) ->
  process d st
  = (fst (store_new_safe_status
            (set_enabled_modules s (enabled_modules s ++ [m])%list)
            (internal_tx d) st1),
     Return true).
Proof.
  intros Hgas Hfn Hm Hget. unfold __process_decoded_transaction.
  rewrite Hfn. cbn -[Z.ltb get_last_safe_status_for_address].
  destruct (Z.ltb_spec (gas_used (internal_tx d)) 1000); [lia |].
  erewrite bind_Return by exact Hget. cbv beta iota. eval_membership.
  unfold getitem. rewrite Hm. reflexivity.
Qed.

Lemma process_disable_module_run d st st1 s shared m :
  1000 <= gas_used (internal_tx d) ->
  function_name d = "disableModule" ->
  arguments d !! "module" = Some (VStr m) ->
  get_last_safe_status_for_address (_from (internal_tx d)) st
  = (st1, Return (Some (s, shared))) ->
  m ∈ enabled_modules s ->
  process d st
  = (fst (store_new_safe_status
            (set_enabled_modules s (list_remove m (enabled_modules s)))
            (internal_tx d) st1),
     Return true).
Proof.
  intros Hgas Hfn Hm Hget Hin. unfold __process_decoded_transaction.
  rewrite Hfn. cbn -[Z.ltb get_last_safe_status_for_address].
  destruct (Z.ltb_spec (gas_used (internal_tx d)) 1000); [lia |].
  erewrite bind_Return by exact Hget. cbv beta iota. eval_membership.
  unfold getitem. rewrite Hm. unfold disable_module.
  mrun. rewrite (proj2 (value_in_str m (enabled_modules s)) Hin). reflexivity.
Qed.

(** X15.  An [addOwnerWithThreshold] call followed by a [removeOwner] call for
    the same owner: both succeed, the second from the status the first left
    in the cache, and the owners stored at the end are the initial ones. *)
Theorem add_then_remove_owner_round_trip (d1 d2 : InternalTxDecoded)
    (st st1 : State) (s : SafeLastStatus) (shared : bool) (o : string)
    (v1 v2 : value) :
  1000 <= gas_used (internal_tx d1) ->
  1000 <= gas_used (internal_tx d2) ->
  function_name d1 = "addOwnerWithThreshold" ->
  function_name d2 = "removeOwner" \/ function_name d2 = "removeOwnerWithThreshold" ->
  _from (internal_tx d1) = Some (address s) ->
  _from (internal_tx d2) = Some (address s) ->
  arguments d1 !! "owner" = Some (VStr o) ->
  arguments d2 !! "owner" = Some (VStr o) ->
  threshold_argument d1 v1 ->
  threshold_argument d2 v2 ->
  get_last_safe_status_for_address (Some (address s)) st
  = (st1, Return (Some (s, shared))) ->
  exists st2 st3 s3,
    process d1 st = (st2, Return true)
    /\ process d2 st2 = (st3, Return true)
    /\ stored_status st3 (address s) s3
    /\ owners s3 = owners s.
Proof.
  intros Hgas1 Hgas2 Hfn1 Hfn2 Hfrom1 Hfrom2 Ho1 Ho2 Hv1 Hv2 Hget.
  rewrite <- Hfrom1 in Hget.
  pose proof (process_add_owner_run d1 st st1 s shared o v1 Hgas1 Hfn1 Ho1 Hv1 Hget)
    as Hrun1. cbv zeta in Hrun1.
  match type of Hrun1 with
  | _ = (fst (store_new_safe_status ?s2 ?itx ?st2), _) =>
      destruct (store_new_safe_status_stored s2 itx st2)
        as (st2' & E & (Hc & _) & _);
      rewrite E in Hrun1; cbn [fst] in Hrun1; cbn [address set_owners set_threshold] in Hc;
      set (s2' := set_internal_tx s2 itx) in *
  end.
  apply get_last_cached in Hc. rewrite <- Hfrom2 in Hc.
  assert (o ∈ owners s2') as Hin by (cbn; left).
  pose proof (process_remove_owner_run d2 st2' st2' s2' true o v2 Hgas2 Hfn2 Ho2 Hv2
                Hc Hin) as Hrun2. cbv zeta in Hrun2.
  match type of Hrun2 with
  | _ = (fst (store_new_safe_status ?s3 ?itx ?st3), _) =>
      destruct (store_new_safe_status_stored s3 itx st3)
        as (st3' & E3 & Hst & _);
      rewrite E3 in Hrun2; cbn [fst] in Hrun2;
      exists st2', st3', (set_internal_tx s3 itx)
  end.
  split; [exact Hrun1 |]. split; [exact Hrun2 |]. split; [exact Hst |].
  cbn. now rewrite String.eqb_refl.
Qed.

(** X16.  An [enableModule] call followed by a [disableModule] call for the same
    module: both succeed and the modules stored at the end are the initial
    ones, in the same order when the module was not enabled before. *)
Theorem enable_then_disable_module_round_trip (d1 d2 : InternalTxDecoded)
    (st st1 : State) (s : SafeLastStatus) (shared : bool) (m : string) :
  1000 <= gas_used (internal_tx d1) ->
  1000 <= gas_used (internal_tx d2) ->
  function_name d1 = "enableModule" ->
  function_name d2 = "disableModule" ->
  _from (internal_tx d1) = Some (address s) ->
  _from (internal_tx d2) = Some (address s) ->
  arguments d1 !! "module" = Some (VStr m) ->
  arguments d2 !! "module" = Some (VStr m) ->
  get_last_safe_status_for_address (Some (address s)) st
  = (st1, Return (Some (s, shared))) ->
  exists st2 st3 s3,
    process d1 st = (st2, Return true)
    /\ process d2 st2 = (st3, Return true)
    /\ stored_status st3 (address s) s3
    /\ enabled_modules s3 ≡ₚ enabled_modules s
    /\ (m ∉ enabled_modules s -> enabled_modules s3 = enabled_modules s).
Proof.
  intros Hgas1 Hgas2 Hfn1 Hfn2 Hfrom1 Hfrom2 Hm1 Hm2 Hget.
  rewrite <- Hfrom1 in Hget.
  pose proof (process_enable_module_run d1 st st1 s shared m Hgas1 Hfn1 Hm1 Hget)
    as Hrun1.
  match type of Hrun1 with
  | _ = (fst (store_new_safe_status ?s2 ?itx ?st2), _) =>
      destruct (store_new_safe_status_stored s2 itx st2)
        as (st2' & E & (Hc & _) & _);
      rewrite E in Hrun1; cbn [fst] in Hrun1; cbn [address set_enabled_modules] in Hc;
      set (s2' := set_internal_tx s2 itx) in *
  end.
  apply get_last_cached in Hc. rewrite <- Hfrom2 in Hc.
  assert (m ∈ enabled_modules s2') as Hin.
  { cbn. apply elem_of_app. right. left. }
  pose proof (process_disable_module_run d2 st2' st2' s2' true m Hgas2 Hfn2 Hm2
                Hc Hin) as Hrun2.
  match type of Hrun2 with
  | _ = (fst (store_new_safe_status ?s3 ?itx ?st3), _) =>
      destruct (store_new_safe_status_stored s3 itx st3)
        as (st3' & E3 & Hst & _);
      rewrite E3 in Hrun2; cbn [fst] in Hrun2;
      exists st2', st3', (set_internal_tx s3 itx)
  end.
  split; [exact Hrun1 |]. split; [exact Hrun2 |]. split; [exact Hst |].
  cbn [enabled_modules set_internal_tx set_enabled_modules s2'] in Hin |- *.
  split.
  - apply (Permutation_cons_inv (a := m)).
    rewrite (list_remove_permutation _ _ Hin).
    symmetry. apply Permutation_cons_append.
  - intros Hnot. now apply list_remove_last.
Qed.

(** X17.  A [setup] call of a wallet other than the null address succeeds and
    stores the status of the call (owners and threshold of the call, nonce
    0, master copy the callee, fallback handler the one given or the null
    address, no guard, no module), whatever status the wallet had.  The
    contract row is created when missing; a known one keeps its [banned]
    flag, and keeps its transaction when it has one. *)
Theorem setup_stores_first_status (d : InternalTxDecoded) (st : State)
    (a master : string) (owner_list : list string) (t : Z)
    (fallback : option string) :
  1000 <= gas_used (internal_tx d) ->
  function_name d = "setup" ->
  _from (internal_tx d) = Some a ->
  a <> NULL_ADDRESS ->
  to (internal_tx d) = Some master ->
  arguments d !! "_owners" = Some (VList owner_list) ->
  arguments d !! "_threshold" = Some (VInt t) ->
  arguments d !! "fallbackHandler" = VStr <$> fallback ->
  exists st' contract,
    process d st = (st', Return true)
    /\ stored_status st' a
         (mkSafeLastStatus (internal_tx d) a owner_list t 0 master
            (default NULL_ADDRESS fallback) None [])
    /\ safe_contracts (db st') !! a = Some contract
    /\ (forall k, k <> a -> safe_contracts (db st') !! k = safe_contracts (db st) !! k)
    /\ match safe_contracts (db st) !! a with
       | Some known =>
           banned contract = banned known
           /\ (truthy_opt_bytes (sc_ethereum_tx_id known) = true -> contract = known)
           /\ (truthy_opt_bytes (sc_ethereum_tx_id known) = false ->
               sc_ethereum_tx_id contract = Some (tx_hash (ethereum_tx (internal_tx d))))
       | None =>
           contract = mkSafeContract (Some (tx_hash (ethereum_tx (internal_tx d)))) false
       end.
Proof.
  intros Hgas Hfn Hfrom Hnull Hto Ho Ht Hf. unfold __process_decoded_transaction.
  rewrite Hfn, Hfrom. cbn -[Z.ltb get_last_safe_status_for_address process_setup].
  destruct (Z.ltb_spec (gas_used (internal_tx d)) 1000); [lia |].
  rewrite bool_decide_eq_false_2 by congruence. cbn [negb].
  unfold process_setup. mrun. rewrite Ho, Ht, Hf, Hfrom, Hto. mrun.
  assert (default (VStr NULL_ADDRESS) (VStr <$> fallback)
          = VStr (default NULL_ADDRESS fallback)) as -> by now destruct fallback.
  destruct (safe_contracts (db st) !! a) as [known|] eqn:Ek.
  - destruct (truthy_opt_bytes (sc_ethereum_tx_id known)) eqn:Etx; mrun.
    + eexists _, known. split; [reflexivity |]. cbn.
      split; [repeat split; apply lookup_insert_eq |].
      split; [exact Ek |]. split; [reflexivity |]. repeat split; congruence.
    + eexists _, _. split; [reflexivity |]. cbn.
      split; [repeat split; apply lookup_insert_eq |].
      split; [apply lookup_insert_eq |].
      split; [intros k Hk; now apply lookup_insert_ne |].
      repeat split; congruence.
  - eexists _, _. split; [reflexivity |]. cbn.
    split; [repeat split; apply lookup_insert_eq |].
    split; [apply lookup_insert_eq |].
    split; [intros k Hk; now apply lookup_insert_ne |]. reflexivity.
Qed.

(** X18.  The single-call entry point absorbs nothing: whatever processing the
    call raises, once the cache entry of the wallet was dropped, is raised
    to the caller, with the database as it was before the call and no cache
    entry left for the wallet. *)
Theorem single_call_propagates_exceptions (d : InternalTxDecoded)
    (st st2 : State) (e : exn) :
  process d (fst (clear_cache (_from (internal_tx d)) st)) = (st2, Raise e) ->
  exists cache',
    process_one d st = (mkState (db st) cache', Raise e)
    /\ forall k, _from (internal_tx d) = Some k -> cache' !! k = None.
Proof.
  intros H. rewrite process_one_unfold. unfold atomic.
  destruct (clear_cache_spec (_from (internal_tx d)) st) as (b & c1 & E1 & _ & _).
  rewrite E1 in H. cbn [fst] in H.
  erewrite bind_Return by exact E1. unfold try_finally.
  erewrite bind_Raise by exact H.
  destruct (clear_cache_spec (_from (internal_tx d)) st2) as (b2 & c2 & E2 & Hdel & _).
  erewrite bind_Return by exact E2. unfold ret. cbn.
  exists c2. split; [reflexivity |]. intros k Hk. now apply Hdel.
Qed.

(** X19.  When the single-call entry point returns, the result is that of
    processing the call, the row of the call existed, it is now marked
    processed, no other row changed, and one statement on that row was
    issued. *)
Theorem single_call_marks_its_row (d : InternalTxDecoded) (st st' : State)
    (r : bool) :
  process_one d st = (st', Return r) ->
  (exists st2, process d (fst (clear_cache (_from (internal_tx d)) st))
               = (st2, Return r))
  /\ is_Some (internal_txs_decoded (db st) !! internal_tx_id d)
  /\ internal_txs_decoded (db st')
     = <[internal_tx_id d := true]> (internal_txs_decoded (db st))
  /\ decoded_updates (db st')
     = (decoded_updates (db st) ++ [[internal_tx_id d]])%list.
Proof.
  rewrite process_one_unfold. unfold atomic. intros H.
  destruct (clear_cache_spec (_from (internal_tx d)) st) as (b & c1 & E1 & _ & _).
  erewrite bind_Return in H by exact E1. rewrite E1. cbn [fst].
  unfold try_finally in H.
  destruct (process d (mkState (db st) c1)) as [st2 [r2|e]] eqn:Ep.
  - destruct (process_respects_decoded _ _ _ _ _ _ _ _ _ _ d _ _ _ Ep) as [Ht Hlog].
    cbn [db] in Ht, Hlog.
    erewrite bind_Return in H by exact Ep.
    destruct (internal_txs_decoded (db st2) !! internal_tx_id d) as [p|] eqn:Erow.
    + erewrite bind_Return in H
        by (unfold set_processed; mrun; rewrite Erow; reflexivity).
      unfold ret in H. cbv beta iota in H.
      match type of H with
      | context [(clear_cache ?a ≫= _) ?s] =>
          destruct (clear_cache_spec a s) as (b2 & c2 & E2 & _)
      end.
      erewrite bind_Return in H by exact E2. cbv beta iota in H.
      injection H as <- <-. cbn. rewrite <- Ht, <- Hlog.
      split; [eauto |]. split; [eauto |]. split; reflexivity.
    + erewrite bind_Raise in H
        by (unfold set_processed; mrun; rewrite Erow; reflexivity).
      destruct (clear_cache_spec (_from (internal_tx d)) st2) as (b2 & c2 & E2 & _).
      erewrite bind_Return in H by exact E2. discriminate.
  - erewrite bind_Raise in H by exact Ep.
    destruct (clear_cache_spec (_from (internal_tx d)) st2) as (b2 & c2 & E2 & _).
    erewrite bind_Return in H by exact E2. discriminate.
Qed.

Lemma is_banned_spec a addresses database :
  is_banned (Some a) (get_banned_addresses addresses database) = true
  <-> Some a ∈ addresses
      /\ exists c, safe_contracts database !! a = Some c /\ banned c = true.
Proof.
  unfold is_banned, get_banned_addresses. rewrite bool_decide_eq_true, elem_of_dom.
  split.
  - intros [c Hc]. apply map_lookup_filter_Some in Hc as (Hc & Hb & Ha).
    split; [exact Ha | eauto].
  - intros (Ha & c & Hc & Hb). exists c. apply map_lookup_filter_Some. auto.
Qed.

Lemma process_many_returned l st st' results :
  l <> [] ->
  process_many l st = (st', Return results) ->
  exists st1,
    loop (get_banned_addresses (contract_addresses l) (db st)) l [] st
    = (st1, Return results).
Proof.
  intros Hne H.
  destruct (loop (get_banned_addresses (contract_addresses l) (db st)) l [] st)
    as [st1 [r|e]] eqn:E.
  - destruct (process_many_returns _ _ _ _ _ _ _ _ _ _ _ _ _ _ Hne E)
      as (st2 & c & _ & Heq & _).
    rewrite Heq in H. injection H as _ <-. eauto.
  - destruct (process_many_raises _ _ _ _ _ _ _ _ _ _ _ _ _ _ Hne E)
      as (c & Heq & _).
    rewrite Heq in H. discriminate.
Qed.

(** X20.  In a batch, a call of a wallet that is banned when the batch starts
    is passed over: the loop goes on from the same state with [False]
    recorded, and a batch that returns has [False] at the position of the
    call. *)
Theorem banned_call_is_skipped (pre post : list InternalTxDecoded)
    (d : InternalTxDecoded) (st st1 : State) (acc : list bool)
    (a : string) (c : SafeContract) :
  let batch := (pre ++ d :: post)%list in
  let banned_addresses :=
    get_banned_addresses (contract_addresses batch) (db st) in
  _from (internal_tx d) = Some a ->
  safe_contracts (db st) !! a = Some c ->
  banned c = true ->
  loop banned_addresses pre [] st = (st1, Return acc) ->
  loop banned_addresses batch [] st
  = loop banned_addresses post (acc ++ [false])%list st1
  /\ forall st' results,
       process_many batch st = (st', Return results) ->
       results !! length pre = Some false.
Proof.
  intros batch banned_addresses Hfrom Hc Hb Hpre.
  assert (batch <> []) as Hne by (unfold batch; destruct pre; discriminate).
  assert (is_banned (_from (internal_tx d)) banned_addresses = true) as Hban.
  { rewrite Hfrom. apply is_banned_spec. split; [| eauto].
    rewrite <- Hfrom. apply contract_addresses_spec.
    unfold batch. apply elem_of_app. right. left. }
  assert (loop banned_addresses batch [] st
          = loop banned_addresses post (acc ++ [false])%list st1) as Hgo.
  { unfold batch.
    rewrite (loop_app _ _ _ _ _ _ _ _ _ _ _ _ _ _ _ _ _ Hpre).
    simpl. now rewrite Hban. }
  split; [exact Hgo |].
  intros st' results H.
  apply process_many_returned in H as [st3 H]; [| exact Hne].
  fold banned_addresses in H. rewrite Hgo in H.
  apply loop_extends in H as [suffix ->].
  pose proof (loop_length _ _ _ _ _ _ _ _ _ _ _ _ _ _ _ _ Hpre) as Hlen.
  simpl in Hlen.
  rewrite <- app_assoc, lookup_app_r by lia.
  now rewrite Hlen, Nat.sub_diag.
Qed.

Lemma process_many_decoded_after l st st' results :
  l <> [] ->
  process_many l st = (st', Return results) ->
  forall k, internal_txs_decoded (db st') !! k
            = (fun p => if bool_decide (k ∈ List.map internal_tx_id l) then true else p)
                <$> internal_txs_decoded (db st) !! k.
Proof.
  intros Hne H k.
  destruct (process_many_returned l st st' results Hne H) as [st1 E].
  destruct (process_many_returns _ _ _ _ _ _ _ _ _ _ _ _ _ _ Hne E)
    as (st2 & c & Hu & Heq & _).
  rewrite Heq in H. injection H as <-.
  destruct (loop_respects_decoded _ _ _ _ _ _ _ _ _ _ _ _ _ _ _ _ E) as [Ht _].
  destruct (update_processed_spec _ _ _ Hu) as [_ Ht2].
  cbn. now rewrite Ht2, Ht.
Qed.

(** X21.  When a batch over the pending calls ([pending_for_safes]) returns,
    no call is pending any more, for any wallet, no wallet has calls out of
    order, and the batch returned one result per call that was pending. *)
Theorem batch_over_pending_calls_empties_the_queue (rows : list InternalTxDecoded)
    (st st' : State) (results : list bool) :
  process_many (pending_for_safes (db st) rows) st = (st', Return results) ->
  pending_for_safes (db st') rows = []
  /\ (forall safe_address, pending_for_safe safe_address (db st') rows = [])
  /\ (forall safe_address, out_of_order_for_safe safe_address (db st') rows = false)
  /\ length results = length (not_processed (db st) rows).
Proof.
  intros H.
  assert (pending_for_safes (db st) rows ≡ₚ not_processed (db st) rows) as Hperm
    by apply order_by_processing_queue_permutation.
  assert (length results = length (not_processed (db st) rows)) as Hlen.
  { rewrite <- Hperm.
    destruct (decide (pending_for_safes (db st) rows = [])) as [E | Hne].
    - rewrite E in H |- *. rewrite process_many_empty in H. now injection H as _ <-.
    - apply process_many_returned in H as [st1 H]; [| exact Hne].
      apply loop_length in H. exact H. }
  assert (not_processed (db st') rows = []) as Hnone.
  { destruct (decide (pending_for_safes (db st) rows = [])) as [E | Hne].
    - rewrite E, process_many_empty in H. injection H as <- _.
      rewrite E in Hperm. symmetry in Hperm. now apply Permutation_nil_r in Hperm.
    - pose proof (process_many_decoded_after _ _ _ _ Hne H) as Hafter.
      apply filter_nil. intros d Hd. unfold is_not_processed.
      apply bool_decide_eq_false_2. rewrite Hafter.
      destruct (internal_txs_decoded (db st) !! internal_tx_id d) as [[|]|] eqn:Erow;
        cbn; try discriminate.
      + now destruct (bool_decide _).
      + rewrite bool_decide_eq_true_2; [discriminate |].
        apply list_elem_of_In, in_map, list_elem_of_In. rewrite Hperm.
        unfold not_processed. apply list_elem_of_In, filter_In.
        split; [now apply list_elem_of_In |].
        unfold is_not_processed. now apply bool_decide_eq_true_2. }
  assert (pending_for_safes (db st') rows = []) as Hpending.
  { unfold pending_for_safes. now rewrite Hnone. }
  split; [exact Hpending |]. split; [| split; [| exact Hlen]].
  - intros safe_address. unfold pending_for_safe. now rewrite Hpending.
  - intros safe_address. unfold out_of_order_for_safe.
    assert (not_processed (db st') (for_safe safe_address rows) = []) as ->.
    { apply filter_nil. intros d Hd. apply list_elem_of_In, filter_In in Hd as [Hd _].
      destruct (is_not_processed (db st') d) eqn:E; [| reflexivity].
      assert (d ∈ not_processed (db st') rows) as Hin.
      { apply list_elem_of_In, filter_In. auto. }
      rewrite Hnone in Hin. inversion Hin. }
    now destruct (max_block_number _).
Qed.

Lemma process_approve_hash_keeps_unique d :
  respects keeps_confirmations_unique
    (process_approve_hash HexBytes build_for_owner ethereum_tracing_client d).
Proof.
  unfold process_approve_hash.
  apply respects_bind; [apply _ | unique_go ltac:(fail) | intros hash_v].
  apply respects_bind; [apply _ | unique_go ltac:(fail) | intros owner_o].
  apply respects_bind; [apply _ | unique_go ltac:(fail) | intros owner].
  apply respects_bind; [apply _ | unique_go ltac:(fail) | intros h].
  apply respects_read. intros st st' o.
  match goal with
  | |- context [get_or_create_confirmation ?h ?o ?d ?l] =>
      pose proof (fun Hu => get_or_create_confirmation_unique h o d l eq_refl Hu)
        as Hcreate;
      destruct (get_or_create_confirmation h o d l) as [c l']
  end.
  unfold modify_db. intros [= <- _] Hu. cbn.
  destruct (Hcreate Hu) as [Hu' Hc]. cbn in Hu', Hc.
  destruct (truthy_opt_bytes (mc_ethereum_tx_id c)); [exact Hu' |].
  apply save_confirmation_unique; [| exact Hu'].
  unfold confirmation_key in *. cbn. exact Hc.
Qed.

Lemma process_respects_unique d :
  respects keeps_confirmations_unique (process d).
Proof.
  unfold __process_decoded_transaction.
  unique_go ltac:(apply process_approve_hash_keeps_unique).
Qed.

Lemma loop_respects_unique banned l results :
  respects keeps_confirmations_unique (loop banned l results).
Proof.
  revert results. induction l as [|d l IH]; intros results; simpl.
  - unique_go ltac:(fail).
  - destruct (is_banned _ banned); [apply IH |].
    intros st st' o.
    destruct (process d st) as [st1 [r|e]] eqn:E.
    + intros H. transitivity st1; [eapply process_respects_unique | eapply IH]; eauto.
    + destruct (is_CannotFindPreviousTrace e).
      * intros [= <- _]. eapply process_respects_unique; eauto.
      * destruct (is_TxProcessorException e).
        -- intros H. transitivity st1;
             [eapply process_respects_unique | eapply IH]; eauto.
        -- intros [= <- _]. eapply process_respects_unique; eauto.
Qed.

Lemma clear_cache_respects_unique a :
  respects keeps_confirmations_unique (clear_cache a).
Proof. unfold clear_cache. unique_go ltac:(fail). Qed.

Lemma clear_caches_respects_unique l :
  respects keeps_confirmations_unique (clear_caches l).
Proof.
  induction l as [|a l IH]; simpl.
  - unique_go ltac:(fail).
  - apply respects_bind; [apply _ | apply clear_cache_respects_unique |].
    intros _. exact IH.
Qed.

(** X22.  The processor never leaves two confirmations of one owner for one
    transaction hash (the unique constraint of the table): confirmations
    that were unique stay unique through the processing of a call, through
    the single-call entry point and through a batch, however they end. *)
Theorem processor_keeps_confirmations_unique :
  (forall d st st' o,
     process d st = (st', o) ->
     unique_confirmations (multisig_confirmations (db st)) ->
     unique_confirmations (multisig_confirmations (db st')))
  /\ (forall d st st' o,
        process_one d st = (st', o) ->
        unique_confirmations (multisig_confirmations (db st)) ->
        unique_confirmations (multisig_confirmations (db st')))
  /\ (forall l st st' o,
        process_many l st = (st', o) ->
        unique_confirmations (multisig_confirmations (db st)) ->
        unique_confirmations (multisig_confirmations (db st'))).
Proof.
  split; [| split].
  - intros d. apply process_respects_unique.
  - intros d. unfold process_decoded_transaction.
    apply (respects_atomic keeps_confirmations_unique);
      [| intros st st' _ Hu; exact Hu].
    unfold set_processed.
    unique_go ltac:(first [ apply clear_cache_respects_unique
                          | apply process_respects_unique
                          | apply respects_try_finally ]).
  - intros l. unfold process_decoded_transactions.
    apply (respects_atomic keeps_confirmations_unique);
      [| intros st st' _ Hu; exact Hu].
    destruct l as [|d l]; [apply respects_ret; apply _ |].
    unfold update_processed.
    unique_go ltac:(first [ apply clear_caches_respects_unique
                          | apply loop_respects_unique
                          | apply respects_try_finally ]).
    intros st st' o H. eapply loop_respects_unique. exact H.
Qed.

Lemma get_last_same_statuses a st1 st' r :
  same_statuses st1 st' ->
  get_last_safe_status_for_address a st1 = (st1, Return (Some r)) ->
  get_last_safe_status_for_address a st' = (st', Return (Some r)).
Proof.
  intros (Hl & Hs & Hc). unfold get_last_safe_status_for_address, get_or_generate.
  destruct a as [a|]; [| discriminate]. mrun. rewrite Hc.
  destruct (safe_last_status_cache st1 !! a); [now intros [= <-] |].
  mrun. rewrite Hl.
  destruct (safe_last_statuses (db st1) !! a) as [row|] eqn:Erow;
    [now intros [= <-] |].
  assert (last_for_address a (db st') = last_for_address a (db st1)) as ->
    by (unfold last_for_address; now rewrite Hs).
  destruct (last_for_address a (db st1)) as [s|] eqn:Elast; [| discriminate].
  mrun. intros H. exfalso.
  apply last_for_address_address in Elast. subst a.
  injection H as H _. rewrite <- H in Erow. cbn in Erow.
  rewrite lookup_insert_eq in Erow. discriminate.
Qed.

(** X23.  Processing a module call a second time, after it was recorded, is
    successful again and changes nothing: no second module transaction and
    no second relevant-transaction row. *)
Theorem module_call_is_recorded_once (d : InternalTxDecoded) (st st1 st' : State)
    (found : SafeLastStatus * bool) :
  function_name d = "execTransactionFromModule"
  \/ function_name d = "execTransactionFromModuleReturnData" ->
  1000 <= gas_used (internal_tx d) ->
  get_last_safe_status_for_address (_from (internal_tx d)) st
  = (st1, Return (Some found)) ->
  process d st = (st', Return true) ->
  is_Some (module_transactions (db st') !! id (internal_tx d))
  /\ process d st' = (st', Return true).
Proof.
  intros Hfn Hgas Hget H.
  rewrite process_dispatch_module in H by auto.
  erewrite bind_Return in H by exact Hget. cbv beta iota in H.
  apply bind_Return_inv in H as ([] & st2 & Hm & H). injection H as <-.
  split; [eapply process_module_transaction_records; exact Hm |].
  rewrite process_dispatch_module by auto.
  assert (get_last_safe_status_for_address (_from (internal_tx d)) st2
          = (st2, Return (Some found))) as Hget2.
  { apply (get_last_same_statuses _ st1).
    - eapply process_module_transaction_respects_statuses; exact Hm.
    - destruct (_from (internal_tx d)) as [a|] eqn:Ea; [| discriminate].
      destruct found as [s shared]. eapply get_last_again. exact Hget. }
  erewrite bind_Return by exact Hget2. cbv beta iota.
  enough (process_module_transaction HexBytes safe_tx_module_failure_topics
            ethereum_tracing_client process_aa_transaction d st2
          = (st2, Return tt)) as E
    by (erewrite bind_Return by exact E; reflexivity).
  revert Hm. clear.
  unfold process_module_transaction, get_or_create_relevant, is_module_failed,
    get_previous_trace, except_Web3RPCError.
  intros H. mrun_in H. mrun.
  repeat (case_step H; try discriminate).
  all: injection H as <-; cbn in *.
  all: repeat (progress (repeat match goal with
                                | E : ?x = _ |- context [?x] => rewrite E
                                end;
                         rewrite ?lookup_insert_eq, ?existsb_app,
                           ?String.eqb_refl, ?orb_true_r;
                         rewrite ?bool_decide_eq_true_2 by reflexivity;
                         cbn)).
  all: reflexivity.
Qed.


(** X25.  [is_module_failed] answers [True] exactly when some log of the
    transaction has two topics, is not from another address than the
    wallet's, has a module failure event as its first topic and a second
    topic that ends with the address of the module.  It changes nothing. *)
Theorem is_module_failed_iff_failure_log (tx : EthereumTx) (logs : list Log)
    (module : string) (module_bytes : list N) (safe_address : option string)
    (st : State) :
  tx_logs tx = Some logs ->
  HexBytes (VStr module) = Some module_bytes ->
  exists failed,
    is_module_failed HexBytes safe_tx_module_failure_topics tx (Some module)
      safe_address st = (st, Return failed)
    /\ (failed = true
        <-> exists log topic0 topic1,
              log ∈ logs
              /\ log_topics log = [topic0; topic1]
              /\ (forall a, log_address log = Some a -> Some a = safe_address)
              /\ topic0 ∈ safe_tx_module_failure_topics
              /\ last_20 topic1 = module_bytes).
Proof.
  intros Hlogs Hm. unfold is_module_failed. rewrite Hlogs. clear Hlogs.
  assert (exists failed,
            is_module_failed_logs HexBytes safe_tx_module_failure_topics logs
              (Some module) safe_address = Some failed
            /\ (failed = true
                <-> exists log topic0 topic1,
                      log ∈ logs
                      /\ log_topics log = [topic0; topic1]
                      /\ (forall a, log_address log = Some a -> Some a = safe_address)
                      /\ topic0 ∈ safe_tx_module_failure_topics
                      /\ last_20 topic1 = module_bytes)) as (failed & E & H).
  { induction logs as [|log rest IH]; cbn.
    - exists false. split; [reflexivity |]. split; [discriminate |].
      intros (log & t0 & t1 & Hin & _). inversion Hin.
    - destruct IH as (failed & IH & Hiff).
      set (this := exists topic0 topic1,
             log_topics log = [topic0; topic1]
             /\ (forall a, log_address log = Some a -> Some a = safe_address)
             /\ topic0 ∈ safe_tx_module_failure_topics
             /\ last_20 topic1 = module_bytes).
      assert (this -> (length (log_topics log) =? 2)%nat
                      && match log_address log with
                         | Some a => bool_decide (Some a = safe_address)
                         | None => true
                         end
                      && match log_topics log !! 0%nat with
                         | Some topic0 =>
                             bool_decide (topic0 ∈ safe_tx_module_failure_topics)
                         | None => false
                         end = true
                      /\ bool_decide (last_20 <$> log_topics log !! 1%nat
                                      = Some module_bytes) = true) as Hthis.
      { intros (t0 & t1 & Ht & Ha & Ht0 & Ht1). rewrite Ht. cbn. split.
        - rewrite (bool_decide_eq_true_2 _ Ht0), andb_true_r.
          destruct (log_address log) as [a|]; [| reflexivity].
          apply bool_decide_eq_true_2. now apply Ha.
        - apply bool_decide_eq_true_2. now rewrite Ht1. }
      assert ((exists log' topic0 topic1,
                 log' ∈ log :: rest
                 /\ log_topics log' = [topic0; topic1]
                 /\ (forall a, log_address log' = Some a -> Some a = safe_address)
                 /\ topic0 ∈ safe_tx_module_failure_topics
                 /\ last_20 topic1 = module_bytes)
              <-> this \/ failed = true) as Hsplit.
      { rewrite Hiff. unfold this. split.
        - intros (log' & t0 & t1 & Hin & H). apply elem_of_cons in Hin as [-> | Hin].
          + left. eauto.
          + right. eauto 10.
        - intros [(t0 & t1 & H) | (log' & t0 & t1 & Hin & H)].
          + exists log, t0, t1. split; [left | exact H].
          + exists log', t0, t1. split; [now right | exact H]. }
      destruct (_ && _ && _) eqn:E1.
      + rewrite Hm.
        destruct (bool_decide (last_20 <$> log_topics log !! 1%nat
                               = Some module_bytes)) eqn:E2.
        * exists true. split; [reflexivity |]. rewrite Hsplit.
          split; [intros _ | reflexivity]. left.
          apply andb_true_iff in E1 as [E1 Ht0].
          apply andb_true_iff in E1 as [Hlen Ha].
          apply Nat.eqb_eq in Hlen. apply bool_decide_eq_true in E2.
          destruct (log_topics log) as [|t0 [|t1 [|t2 topics]]]; try discriminate.
          cbn in Ht0, E2. injection E2 as E2.
          apply bool_decide_eq_true in Ht0.
          exists t0, t1. split; [reflexivity |]. split; [| auto].
          intros a Hlog. rewrite Hlog in Ha. now apply bool_decide_eq_true in Ha.
        * exists failed. split; [exact IH |]. rewrite Hsplit.
          split; [now right |]. intros [Ht | Hf]; [| exact Hf].
          apply Hthis in Ht as [_ Ht]. congruence.
      + exists failed. split; [exact IH |]. rewrite Hsplit.
        split; [now right |]. intros [Ht | Hf]; [| exact Hf].
        apply Hthis in Ht as [Ht _]. congruence. }
  exists failed. unfold require. rewrite E. split; [reflexivity | exact H].
Qed.

(** X26.  A [setGuard] call succeeds and stores the status with the guard of
    the call, and with no guard when the call gives the null address. *)
Theorem set_guard_with_null_address_clears (d : InternalTxDecoded)
    (st st1 : State) (s : SafeLastStatus) (shared : bool) (g : string) :
  1000 <= gas_used (internal_tx d) ->
  function_name d = "setGuard" ->
  arguments d !! "guard" = Some (VStr g) ->
  get_last_safe_status_for_address (_from (internal_tx d)) st
  = (st1, Return (Some (s, shared))) ->
  exists st' s',
    process d st = (st', Return true)
    /\ stored_status st' (address s) s'
    /\ s' = set_internal_tx
              (set_guard s (if bool_decide (g = NULL_ADDRESS) then None else Some g))
              (internal_tx d)
    /\ (g = NULL_ADDRESS -> guard s' = None)
    /\ (g <> NULL_ADDRESS -> guard s' = Some g).
Proof.
  intros Hgas Hfn Hg Hget. unfold __process_decoded_transaction.
  rewrite Hfn. cbn -[Z.ltb get_last_safe_status_for_address].
  destruct (Z.ltb_spec (gas_used (internal_tx d)) 1000); [lia |].
  erewrite bind_Return by exact Hget. cbv beta iota. eval_membership.
  unfold getitem. rewrite Hg.
  erewrite bind_Return by reflexivity.
  erewrite bind_Return by reflexivity.
  assert (bool_decide (Some g = Some NULL_ADDRESS) = bool_decide (g = NULL_ADDRESS))
    as -> by (apply bool_decide_ext; split; congruence).
  match goal with
  | |- context [store_new_safe_status ?s2 ?itx] =>
      destruct (store_new_safe_status_stored s2 itx st1) as (st' & E & Hst & _);
      exists st', (set_internal_tx s2 itx)
  end.
  erewrite bind_Return by exact E.
  split; [reflexivity |]. split; [exact Hst |]. split.
  - destruct (bool_decide (g = NULL_ADDRESS)); reflexivity.
  - cbn. split.
    + intros ->. now rewrite bool_decide_eq_true_2.
    + intros Hne. now rewrite bool_decide_eq_false_2.
Qed.

Lemma save_confirmation_others h o c' l c :
  confirmation_key c' = Some (h, o) ->
  confirmation_key c <> Some (h, o) ->
  c ∈ save_confirmation h o c' l <-> c ∈ l.
Proof.
  intros Hc' Hc. unfold save_confirmation.
  rewrite list_elem_of_In, in_map_iff. split.
  - intros (x & Hx & Hin). destruct (same_confirmation h o x) eqn:E.
    + congruence.
    + subst x. now apply list_elem_of_In.
  - intros Hin. exists c. split; [| now apply list_elem_of_In].
    destruct (same_confirmation h o c) eqn:E; [| reflexivity].
    apply same_confirmation_key in E. contradiction.
Qed.

(** X27.  An [approveHash] call that names the owner succeeds and leaves a
    confirmation of the owner for the hash: a new row, for the transaction
    of the call, when there was none; otherwise no row is added.  The
    confirmations of other owners or hashes are untouched. *)
Theorem approve_hash_records_confirmation (d : InternalTxDecoded)
    (st st1 : State) (found : SafeLastStatus * bool) (o : string)
    (hash_v : value) (h : list N) :
  1000 <= gas_used (internal_tx d) ->
  function_name d = "approveHash" ->
  arguments d !! "hashToApprove" = Some hash_v ->
  HexBytes hash_v = Some h ->
  arguments d !! "owner" = Some (VStr o) ->
  get_last_safe_status_for_address (_from (internal_tx d)) st
  = (st1, Return (Some found)) ->
  exists st',
    process d st = (st', Return true)
    /\ (exists c, c ∈ multisig_confirmations (db st')
                  /\ confirmation_key c = Some (h, o))
    /\ ((h, o) ∉ omap confirmation_key (multisig_confirmations (db st1)) ->
        multisig_confirmations (db st')
        = (multisig_confirmations (db st1)
           ++ [mkMultisigConfirmation (timestamp (internal_tx d))
                 (Some (tx_hash (ethereum_tx (internal_tx d)))) None (Some h) o
                 (Some (sig_export_signature (build_for_owner o h)))
                 (sig_signature_type (build_for_owner o h))])%list)
    /\ ((h, o) ∈ omap confirmation_key (multisig_confirmations (db st1)) ->
        length (multisig_confirmations (db st'))
        = length (multisig_confirmations (db st1)))
    /\ (forall c, confirmation_key c <> Some (h, o) ->
                  c ∈ multisig_confirmations (db st')
                  <-> c ∈ multisig_confirmations (db st1)).
Proof.
  intros Hgas Hfn Hhash Hh Ho Hget.
  rewrite process_dispatch_approve_hash by assumption.
  erewrite bind_Return by exact Hget. cbv beta iota.
  unfold process_approve_hash. mrun. rewrite Hhash, Ho. mrun. rewrite Hh. mrun.
  unfold get_or_create_confirmation.
  destruct (List.find (same_confirmation h o) (multisig_confirmations (db st1)))
    as [known|] eqn:Efind.
  - pose proof (find_some _ _ Efind) as [Hin Hkey].
    apply list_elem_of_In in Hin. apply same_confirmation_key in Hkey.
    assert ((h, o) ∈ omap confirmation_key (multisig_confirmations (db st1)))
      as Hhas by (apply list_elem_of_omap; eauto).
    destruct (truthy_opt_bytes (mc_ethereum_tx_id known)) eqn:Etx.
    + eexists. split; [reflexivity |]. cbn. split; [eauto |].
      split; [intros Hno; contradiction |]. split; [reflexivity |]. reflexivity.
    + set (known' := mkMultisigConfirmation (mc_created known)
                       (Some (tx_hash (ethereum_tx (internal_tx d))))
                       (mc_multisig_transaction known)
                       (mc_multisig_transaction_hash known) (mc_owner known)
                       (mc_signature known) (mc_signature_type known)).
      assert (confirmation_key known' = Some (h, o)) as Hkey' by exact Hkey.
      eexists. split; [reflexivity |]. cbn. split; [| split; [| split]].
      * exists known'. split; [| exact Hkey'].
        unfold save_confirmation. apply list_elem_of_In, in_map_iff.
        exists known. split; [| now apply list_elem_of_In].
        apply same_confirmation_key in Hkey. now rewrite Hkey.
      * intros Hno. contradiction.
      * intros _. unfold save_confirmation. apply length_map.
      * intros c Hc. now apply save_confirmation_others.
  - pose proof (find_none_key h o _ Efind) as Hno.
    set (new := mkMultisigConfirmation (timestamp (internal_tx d))
                  (Some (tx_hash (ethereum_tx (internal_tx d)))) None (Some h) o
                  (Some (sig_export_signature (build_for_owner o h)))
                  (sig_signature_type (build_for_owner o h))).
    assert (save_confirmation h o
              (mkMultisigConfirmation (mc_created new)
                 (Some (tx_hash (ethereum_tx (internal_tx d))))
                 (mc_multisig_transaction new) (mc_multisig_transaction_hash new)
                 (mc_owner new) (mc_signature new) (mc_signature_type new))
              (multisig_confirmations (db st1) ++ [new])%list
            = (multisig_confirmations (db st1) ++ [new])%list) as Hsave.
    { unfold save_confirmation. rewrite map_app. cbn.
      unfold same_confirmation at 2. cbn.
      rewrite bool_decide_eq_true_2 by reflexivity. rewrite String.eqb_refl. cbn.
      f_equal. rewrite <- (map_id (multisig_confirmations (db st1))) at 2.
      apply map_ext_in. intros c Hc.
      rewrite (find_none _ _ Efind c Hc). reflexivity. }
    assert ((if truthy_opt_bytes (mc_ethereum_tx_id new)
             then (multisig_confirmations (db st1) ++ [new])%list
             else save_confirmation h o
                    (mkMultisigConfirmation (mc_created new)
                       (Some (tx_hash (ethereum_tx (internal_tx d))))
                       (mc_multisig_transaction new) (mc_multisig_transaction_hash new)
                       (mc_owner new) (mc_signature new) (mc_signature_type new))
                    (multisig_confirmations (db st1) ++ [new])%list)
            = (multisig_confirmations (db st1) ++ [new])%list) as Hl.
    { destruct (truthy_opt_bytes (mc_ethereum_tx_id new)); [reflexivity | exact Hsave]. }
    fold new. rewrite Hl.
    eexists. split; [reflexivity |]. cbn. split; [| split; [| split]].
    + exists new. split; [| reflexivity]. apply elem_of_app. right. left.
    + intros _. reflexivity.
    + intros Hhas. contradiction.
    + intros c Hc. rewrite elem_of_app, list_elem_of_singleton. split.
      * intros [Hin | ->]; [exact Hin |]. exfalso. now apply Hc.
      * now left.
Qed.

(** X29.  A processor whose cache is empty when a batch starts has an empty
    cache when the batch is over, whether the batch returns or raises. *)
Theorem empty_cache_stays_empty_over_batch (l : list InternalTxDecoded)
    (st : State) :
  safe_last_status_cache st = ∅ ->
  safe_last_status_cache
    (fst (process_decoded_transactions parse_base_version HexBytes
            safe_tx_failure_events_topics safe_tx_module_failure_topics
            safe_tx_hash parse_signature build_for_owner get_chain_id
            ethereum_tracing_client process_aa_transaction l st))
  = ∅.
Proof.
  intros Hempty. destruct st as [database cache]. cbn in Hempty. subst cache.
  apply process_many_empty_cache_stays_empty.
Qed.

End FurtherProcessorFacts.

Section TracingClient.

Variable parse_base_version : string -> option Version.
Variable HexBytes : value -> option (list N).
Variable safe_tx_failure_events_topics : list (list N).
Variable safe_tx_module_failure_topics : list (list N).
Variable safe_tx_hash : SafeTx -> list N.
Variable parse_signature : list N -> list N -> list SafeSignature.
Variable build_for_owner : string -> list N -> SafeSignature.
Variable get_chain_id : Z.
Variable process_aa_transaction : option string -> EthereumTx -> nat.

Local Abbreviation process_with tracing :=
  (__process_decoded_transaction parse_base_version HexBytes
     safe_tx_failure_events_topics safe_tx_module_failure_topics safe_tx_hash
     parse_signature build_for_owner get_chain_id tracing
     process_aa_transaction).

(** X28.  The tracing node is consulted only for a module call without a
    [module] argument and for an [approveHash] call without an [owner]
    argument: for every other call the outcome does not depend on the
    tracing client, not even on whether there is one. *)
Theorem explicit_sender_needs_no_tracing_client (d : InternalTxDecoded)
    (st : State) (tracing1 tracing2 : option (list N -> list Z -> rpc_result)) :
  (function_name d ∈ ["execTransactionFromModule";
                      "execTransactionFromModuleReturnData"] ->
   is_Some (arguments d !! "module")) ->
  (function_name d = "approveHash" -> is_Some (arguments d !! "owner")) ->
  process_with tracing1 d st = process_with tracing2 d st.
Proof.
  intros Hmodule Howner. unfold __process_decoded_transaction.
  destruct (gas_used (internal_tx d) <? 1000)%Z; [reflexivity |].
  destruct (_ && _); [reflexivity |].
  apply bind_ext. intros [[s shared]|] st1 _; [| reflexivity].
  repeat match goal with
         | |- (if ?b then _ else _) _ = (if ?b then _ else _) _ =>
             destruct b eqn:?; [try reflexivity |]
         end; try reflexivity.
  - destruct Hmodule as [v Hv]; [eapply bool_decide_eq_true_1; eassumption |].
    unfold process_module_transaction. rewrite Hv. reflexivity.
  - destruct Howner as [v Hv]; [now apply String.eqb_eq |].
    unfold process_approve_hash. rewrite Hv. reflexivity.
Qed.

End TracingClient.

(** * The properties on concrete calls *)

Abbreviation at_fixture f tracing :=
  (f Fixture.parse_base_version Fixture.HexBytes
     Fixture.safe_tx_failure_events_topics Fixture.safe_tx_module_failure_topics
     Fixture.safe_tx_hash Fixture.parse_signature Fixture.build_for_owner
     Fixture.get_chain_id tracing Fixture.process_aa_transaction).

Lemma low_gas_call_is_rejected_witness :
  gas_used (internal_tx Fixture.low_gas_call) < 1000
  /\ at_fixture __process_decoded_transaction Fixture.tracing_none
       Fixture.low_gas_call Fixture.st0
     = (Fixture.st0, Return false).
Proof.
  assert (gas_used (internal_tx Fixture.low_gas_call) < 1000) as H
    by (vm_compute; reflexivity).
  split; [exact H |].
  exact (at_fixture low_gas_call_is_rejected Fixture.tracing_none
           Fixture.low_gas_call Fixture.st0 H).
Defined.


Lemma batch_marks_every_call_processed_witness :
  internal_txs_decoded
    (db (fst (at_fixture process_decoded_transactions Fixture.tracing_none
                [Fixture.add_owner_call; Fixture.remove_absent_owner_call;
                 Fixture.change_threshold_call] Fixture.st0)))
  !! internal_tx_id Fixture.remove_absent_owner_call = Some true.
Proof.
  destruct (at_fixture batch_marks_every_call_processed Fixture.tracing_none
              [Fixture.add_owner_call; Fixture.remove_absent_owner_call;
               Fixture.change_threshold_call] Fixture.st0
              (fst (at_fixture process_decoded_transactions Fixture.tracing_none
                      [Fixture.add_owner_call; Fixture.remove_absent_owner_call;
                       Fixture.change_threshold_call] Fixture.st0))
              [true; false; true]) as (_ & Hmarked & _).
  - vm_compute; reflexivity.
  - apply Hmarked.
    + apply list_elem_of_In. right. left. reflexivity.
    + exists false. vm_compute; reflexivity.
Defined.

Lemma exec_transaction_advances_nonce_witness :
  nonce <$> safe_last_status_cache
              (fst (at_fixture __process_decoded_transaction Fixture.tracing_none
                      Fixture.exec_transaction_call Fixture.st0))
            !! Fixture.wallet
  = Some (nonce Fixture.status0 + 1).
Proof.
  destruct (at_fixture exec_transaction_advances_nonce Fixture.tracing_none
              Fixture.exec_transaction_call Fixture.st0 Fixture.st0
              (fst (at_fixture __process_decoded_transaction Fixture.tracing_none
                      Fixture.exec_transaction_call Fixture.st0))
              true Fixture.wallet Fixture.status0 false)
    as (_ & _ & Hcache & _).
  - reflexivity.
  - vm_compute; discriminate.
  - reflexivity.
  - vm_compute; reflexivity.
  - reflexivity.
  - vm_compute; reflexivity.
  - rewrite Hcache. reflexivity.
Defined.

Lemma removing_absent_owner_raises_witness :
  exists st',
    at_fixture __process_decoded_transaction Fixture.tracing_none
      Fixture.remove_absent_owner_call Fixture.st0
    = (st', Raise OwnerCannotBeRemoved)
    /\ db st' = db Fixture.st0.
Proof.
  destruct (at_fixture removing_absent_owner_raises Fixture.tracing_none
              Fixture.remove_absent_owner_call Fixture.st0 Fixture.st0
              Fixture.status0 false (VStr "0xNobody"))
    as (st' & Hraise & Hdb & _).
  - right. split; [left; reflexivity |].
    split; [vm_compute; reflexivity |].
    exists (VInt 5). split; [vm_compute; reflexivity |].
    intros _. exists 5. reflexivity.
  - vm_compute; discriminate.
  - vm_compute; reflexivity.
  - vm_compute; reflexivity.
  - exists st'. split; assumption.
Defined.


Lemma module_call_names_share_handling_witness :
  at_fixture __process_decoded_transaction Fixture.tracing_none
    Fixture.module_call Fixture.st0
  = at_fixture __process_decoded_transaction Fixture.tracing_none
      (with_function_name Fixture.module_call
         "execTransactionFromModuleReturnData") Fixture.st0.
Proof.
  refine (proj1 (at_fixture module_call_names_share_handling Fixture.tracing_none
                   Fixture.module_call Fixture.st0 eq_refl _)).
  vm_compute; discriminate.
Defined.

Lemma approve_hash_lookup_rpc_error_escapes_witness :
  at_fixture __process_decoded_transaction Fixture.tracing_rpc_error
    Fixture.approve_hash_call Fixture.st0
  = (Fixture.st0, Raise Web3RPCError).
Proof.
  refine (proj1 (at_fixture approve_hash_lookup_rpc_error_escapes
                   Fixture.tracing_rpc_error Fixture.approve_hash_call
                   Fixture.st0 Fixture.st0 (Fixture.status0, false)
                   (fun _ _ => RpcRaise) eq_refl _ _ _ _ eq_refl eq_refl)).
  - vm_compute; discriminate.
  - vm_compute; reflexivity.
  - eexists. vm_compute; reflexivity.
  - vm_compute; reflexivity.
Defined.


(** C3, against the wording of the specification.  A call named
    [execTransactionFromModule] (exact name, no return data) is processed
    with a state change: it is reported successful and a [ModuleTransaction]
    row is created for it. *)
Lemma exec_transaction_from_module_is_recorded :
  function_name Fixture.module_call = "execTransactionFromModule"
  /\ snd (at_fixture __process_decoded_transaction Fixture.tracing_none
            Fixture.module_call Fixture.st0) = Return true
  /\ module_transactions (db Fixture.st0) !! 2 = None
  /\ module_transactions
       (db (fst (at_fixture __process_decoded_transaction Fixture.tracing_none
                   Fixture.module_call Fixture.st0))) !! 2
     = Some (mkModuleTransaction 100 Fixture.wallet "0xModule" (VStr "0xTo")
               (VInt 0) None (VInt 0) false)
  /\ fst (at_fixture __process_decoded_transaction Fixture.tracing_none
            Fixture.module_call Fixture.st0) <> Fixture.st0.
Proof.
  split; [reflexivity |]. split; [vm_compute; reflexivity |].
  split; [vm_compute; reflexivity |].
  assert (module_transactions
            (db (fst (at_fixture __process_decoded_transaction Fixture.tracing_none
                        Fixture.module_call Fixture.st0))) !! 2
          = Some (mkModuleTransaction 100 Fixture.wallet "0xModule" (VStr "0xTo")
                    (VInt 0) None (VInt 0) false)) as Hrow
    by (vm_compute; reflexivity).
  split; [exact Hrow |].
  intros Heq. rewrite Heq in Hrow. vm_compute in Hrow. discriminate Hrow.
Qed.


(** The batch of the specification: three calls of one wallet, the second
    removing an owner the wallet does not have.  The outcomes are
    [[True, False, True]], the three rows end marked processed by one
    statement, and the cache ends empty. *)
Example batch_with_one_invariant_violation :
  let r := at_fixture process_decoded_transactions Fixture.tracing_none
             [Fixture.add_owner_call; Fixture.remove_absent_owner_call;
              Fixture.change_threshold_call] Fixture.st0 in
  snd r = Return [true; false; true]
  /\ internal_txs_decoded (db (fst r))
     = list_to_map [(2, true); (3, true); (4, true)]
  /\ decoded_updates (db (fst r)) = [[2; 3; 4]]
  /\ safe_last_status_cache (fst r) = ∅
  /\ owners <$> safe_last_statuses (db (fst r)) !! Fixture.wallet
     = Some ["0xOwnerC"; "0xOwnerA"; "0xOwnerB"].
Proof. repeat split; vm_compute; reflexivity. Qed.

(** The same RPC error in the two branches that look up the previous trace:
    the module branch turns it into the hard failure, the [approveHash]
    branch lets it through. *)
Example rpc_error_in_the_two_lookups :
  snd (at_fixture __process_decoded_transaction Fixture.tracing_rpc_error
         (Fixture.call 2 "execTransactionFromModule"
            [("to", VStr "0xTo"); ("value", VInt 0); ("data", VStr "");
             ("operation", VInt 0)]) Fixture.st0)
  = Raise CannotFindPreviousTrace
  /\ snd (at_fixture __process_decoded_transaction Fixture.tracing_rpc_error
            Fixture.approve_hash_call Fixture.st0)
     = Raise Web3RPCError
  /\ snd (at_fixture process_decoded_transactions Fixture.tracing_rpc_error
            [Fixture.approve_hash_call] Fixture.st0)
     = Raise Web3RPCError
  /\ snd (at_fixture __process_decoded_transaction Fixture.tracing_none
            Fixture.approve_hash_call Fixture.st0)
     = Raise CannotFindPreviousTrace.
Proof. repeat split; vm_compute; reflexivity. Qed.

(** ** The further properties on concrete calls *)

Lemma last_for_address_is_latest_witness :
  last_for_address Fixture.wallet Fixture.db_with_gap = Some Fixture.status_nonce_2
  /\ nonce Fixture.status0 <= nonce Fixture.status_nonce_2.
Proof.
  pose proof (last_for_address_is_latest Fixture.wallet Fixture.db_with_gap) as H.
  assert (last_for_address Fixture.wallet Fixture.db_with_gap
          = Some Fixture.status_nonce_2) as E by (vm_compute; reflexivity).
  rewrite E in H. destruct H as (_ & _ & Hmax). split; [reflexivity |].
  apply (Hmax 1 Fixture.status0); vm_compute; reflexivity.
Defined.

Lemma previous_is_latest_below_witness :
  previous Fixture.status_nonce_2 Fixture.db_with_gap = Some Fixture.status0
  /\ nonce Fixture.status0 < nonce Fixture.status_nonce_2.
Proof.
  pose proof (previous_is_latest_below Fixture.status_nonce_2 Fixture.db_with_gap)
    as H.
  assert (previous Fixture.status_nonce_2 Fixture.db_with_gap
          = Some Fixture.status0) as E by (vm_compute; reflexivity).
  rewrite E in H. destruct H as (_ & _ & Hlt & _). split; [reflexivity | exact Hlt].
Defined.

Lemma last_nonce_is_highest_executed_witness :
  exists h t,
    multisig_transactions Fixture.db_with_queue !! h = Some t
    /\ mt_safe t = Fixture.wallet
    /\ mt_ethereum_tx_id t <> None
    /\ mt_nonce t = 0.
Proof.
  refine (proj1 (proj1 (proj1 (last_nonce_is_highest_executed Fixture.wallet
                                 (multisig_transactions Fixture.db_with_queue))
                          0) _)).
  vm_compute; reflexivity.
Defined.

Lemma queued_threshold_is_last_nonce_witness :
  max_executed_nonce (Some Fixture.wallet)
    (multisig_transactions Fixture.db_with_queue)
  = default (-1) (last_nonce Fixture.wallet
                    (multisig_transactions Fixture.db_with_queue)).
Proof.
  refine (proj1 (queued_threshold_is_last_nonce Fixture.wallet
                   (multisig_transactions Fixture.db_with_queue) _)).
  apply (bool_decide_unpack _). vm_compute. exact I.
Defined.

Lemma get_or_generate_rebuilds_latest_row_witness :
  exists st',
    get_or_generate Fixture.wallet (mkState Fixture.db_latest_row_lost ∅)
    = (st', Return (Some Fixture.status0))
    /\ safe_last_statuses (db st') !! Fixture.wallet = Some Fixture.status0.
Proof.
  pose proof (get_or_generate_rebuilds_latest_row Fixture.wallet
                (mkState Fixture.db_latest_row_lost ∅) eq_refl) as H.
  assert (last_for_address Fixture.wallet Fixture.db_latest_row_lost
          = Some Fixture.status0) as E by (vm_compute; reflexivity).
  cbn [db] in H. rewrite E in H. destruct H as (st' & H1 & H2 & _).
  exists st'. split; assumption.
Defined.

Lemma is_corrupted_iff_nonce_missing_witness :
  exists n, 0 <= n <= nonce Fixture.status_nonce_2
            /\ forall k s, safe_statuses Fixture.db_with_gap !! k = Some s ->
                           address s = address Fixture.status_nonce_2 ->
                           nonce s <> n.
Proof.
  refine (proj2 (proj1 (is_corrupted_iff_nonce_missing Fixture.status_nonce_2
                          Fixture.db_with_gap _) _)).
  - assert (map_Forall (fun _ s => 0 <= nonce s) (safe_statuses Fixture.db_with_gap))
      as H by (apply (bool_decide_unpack _); vm_compute; exact I).
    exact H.
  - vm_compute; reflexivity.
Defined.

Lemma order_by_processing_queue_sorts_witness :
  order_by_processing_queue
    [Fixture.change_threshold_call; Fixture.setup_call; Fixture.add_owner_call]
  ≡ₚ [Fixture.change_threshold_call; Fixture.setup_call; Fixture.add_owner_call].
Proof.
  exact (proj1 (order_by_processing_queue_sorts
                  [Fixture.change_threshold_call; Fixture.setup_call;
                   Fixture.add_owner_call])).
Defined.

Lemma is_version_breaking_signatures_composes_witness :
  exists ab bc ac,
    is_version_breaking_signatures Fixture.parse_base_version "1.0.0" "1.1.1"
    = Some ab
    /\ is_version_breaking_signatures Fixture.parse_base_version "1.1.1" "1.3.0"
       = Some bc
    /\ is_version_breaking_signatures Fixture.parse_base_version "1.0.0" "1.3.0"
       = Some ac
    /\ ac = ab || bc.
Proof.
  destruct (is_version_breaking_signatures_composes Fixture.parse_base_version
              "1.0.0" "1.1.1" "1.3.0"
              (PyVersion.mkVersion 0 [1; 0; 0]%N) (PyVersion.mkVersion 0 [1; 1; 1]%N)
              (PyVersion.mkVersion 0 [1; 3; 0]%N))
    as (ab & bc & ac & H1 & H2 & H3 & H4 & _).
  - vm_compute; reflexivity.
  - vm_compute; reflexivity.
  - vm_compute; reflexivity.
  - vm_compute; reflexivity.
  - vm_compute; reflexivity.
  - exists ab, bc, ac. auto.
Defined.

Lemma call_for_unknown_wallet_is_skipped_witness :
  at_fixture __process_decoded_transaction Fixture.tracing_none
    Fixture.change_threshold_call (mkState Fixture.db_without_status ∅)
  = (mkState Fixture.db_without_status ∅, Return false).
Proof.
  refine (at_fixture call_for_unknown_wallet_is_skipped Fixture.tracing_none
            Fixture.change_threshold_call (mkState Fixture.db_without_status ∅)
            (mkState Fixture.db_without_status ∅) _ _).
  - left. vm_compute; discriminate.
  - vm_compute; reflexivity.
Defined.

Lemma unknown_function_is_rejected_witness :
  at_fixture __process_decoded_transaction Fixture.tracing_none
    Fixture.unknown_function_call Fixture.st0
  = (Fixture.st0, Return false).
Proof.
  refine (at_fixture unknown_function_is_rejected Fixture.tracing_none
            Fixture.unknown_function_call Fixture.st0 Fixture.st0
            (Fixture.status0, false) _ _).
  - apply (bool_decide_unpack _). vm_compute. exact I.
  - vm_compute; reflexivity.
Defined.

Lemma disabling_absent_module_raises_witness :
  at_fixture __process_decoded_transaction Fixture.tracing_none
    Fixture.disable_module_call Fixture.st0
  = (Fixture.st0, Raise ModuleCannotBeDisabled).
Proof.
  refine (at_fixture disabling_absent_module_raises Fixture.tracing_none
            Fixture.disable_module_call Fixture.st0 Fixture.st0 Fixture.status0
            false (VStr "0xModule") _ eq_refl _ _ _).
  - vm_compute; discriminate.
  - vm_compute; reflexivity.
  - vm_compute; reflexivity.
  - vm_compute; reflexivity.
Defined.

Lemma failed_owner_removal_keeps_new_threshold_witness :
  at_fixture __process_decoded_transaction Fixture.tracing_none
    Fixture.remove_absent_owner_call Fixture.st_cached_beforehand
  = (mkState Fixture.db_without_status
       (<[Fixture.wallet := set_threshold Fixture.status0 5]>
          (safe_last_status_cache Fixture.st_cached_beforehand)),
     Raise OwnerCannotBeRemoved).
Proof.
  refine (at_fixture failed_owner_removal_keeps_new_threshold Fixture.tracing_none
            Fixture.remove_absent_owner_call Fixture.st_cached_beforehand
            Fixture.wallet Fixture.status0 5 (VStr "0xNobody") _ _ eq_refl _ _ _ _ _).
  - vm_compute; discriminate.
  - left. reflexivity.
  - vm_compute; reflexivity.
  - vm_compute; reflexivity.
  - discriminate.
  - vm_compute; reflexivity.
  - vm_compute; reflexivity.
Defined.

Lemma swap_owner_replaces_in_place_witness :
  exists st' s',
    at_fixture __process_decoded_transaction Fixture.tracing_none
      Fixture.swap_owner_call Fixture.st0 = (st', Return true)
    /\ safe_last_statuses (db st') !! Fixture.wallet = Some s'
    /\ owners s' = ["0xOwnerC"; "0xOwnerB"].
Proof.
  destruct (at_fixture swap_owner_replaces_in_place Fixture.tracing_none
              Fixture.swap_owner_call Fixture.st0 Fixture.st0 Fixture.status0 false
              "0xOwnerA" "0xOwnerC")
    as (st' & s' & Hrun & (_ & Hrow & _) & Howners & _).
  - vm_compute; discriminate.
  - reflexivity.
  - vm_compute; reflexivity.
  - vm_compute; reflexivity.
  - discriminate.
  - vm_compute; reflexivity.
  - apply (bool_decide_unpack _). vm_compute. exact I.
  - exists st', s'. split; [exact Hrun |]. split; [exact Hrow |].
    rewrite Howners. vm_compute; reflexivity.
Defined.

Lemma remove_owner_removes_one_occurrence_witness :
  exists st' s',
    at_fixture __process_decoded_transaction Fixture.tracing_none
      Fixture.remove_owner_call Fixture.st0 = (st', Return true)
    /\ safe_last_statuses (db st') !! Fixture.wallet = Some s'
    /\ owners s' = ["0xOwnerA"].
Proof.
  destruct (at_fixture remove_owner_removes_one_occurrence Fixture.tracing_none
              Fixture.remove_owner_call Fixture.st0 Fixture.st0 Fixture.status0 false
              "0xOwnerB" (VInt 1))
    as (st' & s' & Hrun & (_ & Hrow & _) & Howners & _).
  - vm_compute; discriminate.
  - left. reflexivity.
  - vm_compute; reflexivity.
  - split; [vm_compute; reflexivity |]. intros _. exists 1. reflexivity.
  - vm_compute; reflexivity.
  - apply (bool_decide_unpack _). vm_compute. exact I.
  - exists st', s'. split; [exact Hrun |]. split; [exact Hrow |].
    rewrite Howners. vm_compute; reflexivity.
Defined.

Lemma add_then_remove_owner_round_trip_witness :
  exists st2 st3 s3,
    at_fixture __process_decoded_transaction Fixture.tracing_none
      Fixture.add_owner_call Fixture.st0 = (st2, Return true)
    /\ at_fixture __process_decoded_transaction Fixture.tracing_none
         Fixture.remove_added_owner_call st2 = (st3, Return true)
    /\ safe_last_statuses (db st3) !! Fixture.wallet = Some s3
    /\ owners s3 = owners Fixture.status0.
Proof.
  destruct (at_fixture add_then_remove_owner_round_trip Fixture.tracing_none
              Fixture.add_owner_call Fixture.remove_added_owner_call
              Fixture.st0 Fixture.st0 Fixture.status0 false "0xOwnerC"
              (VInt 2) (VInt 1))
    as (st2 & st3 & s3 & H1 & H2 & (_ & Hrow & _) & Howners).
  - vm_compute; discriminate.
  - vm_compute; discriminate.
  - reflexivity.
  - left. reflexivity.
  - reflexivity.
  - reflexivity.
  - vm_compute; reflexivity.
  - vm_compute; reflexivity.
  - split; [vm_compute; reflexivity |]. intros _. exists 2. reflexivity.
  - split; [vm_compute; reflexivity |]. intros _. exists 1. reflexivity.
  - vm_compute; reflexivity.
  - exists st2, st3, s3. auto.
Defined.

Lemma enable_then_disable_module_round_trip_witness :
  exists st2 st3 s3,
    at_fixture __process_decoded_transaction Fixture.tracing_none
      Fixture.enable_module_call Fixture.st0 = (st2, Return true)
    /\ at_fixture __process_decoded_transaction Fixture.tracing_none
         Fixture.disable_module_call st2 = (st3, Return true)
    /\ safe_last_statuses (db st3) !! Fixture.wallet = Some s3
    /\ enabled_modules s3 = enabled_modules Fixture.status0.
Proof.
  destruct (at_fixture enable_then_disable_module_round_trip Fixture.tracing_none
              Fixture.enable_module_call Fixture.disable_module_call
              Fixture.st0 Fixture.st0 Fixture.status0 false "0xModule")
    as (st2 & st3 & s3 & H1 & H2 & (_ & Hrow & _) & _ & Hmodules).
  - vm_compute; discriminate.
  - vm_compute; discriminate.
  - reflexivity.
  - reflexivity.
  - reflexivity.
  - reflexivity.
  - vm_compute; reflexivity.
  - vm_compute; reflexivity.
  - vm_compute; reflexivity.
  - exists st2, st3, s3. split; [exact H1 |]. split; [exact H2 |].
    split; [exact Hrow |]. apply Hmodules. intros Hin. inversion Hin.
Defined.

Lemma setup_stores_first_status_witness :
  exists st',
    at_fixture __process_decoded_transaction Fixture.tracing_none
      Fixture.setup_call (mkState Fixture.empty_db ∅) = (st', Return true)
    /\ safe_last_statuses (db st') !! Fixture.wallet = Some Fixture.status0
    /\ safe_contracts (db st') !! Fixture.wallet
       = Some (mkSafeContract (Some [9%N]) false).
Proof.
  destruct (at_fixture setup_stores_first_status Fixture.tracing_none
              Fixture.setup_call (mkState Fixture.empty_db ∅) Fixture.wallet
              Fixture.master_copy_1_1_1 ["0xOwnerA"; "0xOwnerB"] 1 None)
    as (st' & contract & Hrun & (_ & Hrow & _) & Hcontract & _ & Hnew).
  - vm_compute; discriminate.
  - reflexivity.
  - reflexivity.
  - discriminate.
  - reflexivity.
  - vm_compute; reflexivity.
  - vm_compute; reflexivity.
  - vm_compute; reflexivity.
  - exists st'. split; [exact Hrun |]. split; [exact Hrow |].
    rewrite Hcontract. f_equal. exact Hnew.
Defined.

Lemma single_call_propagates_exceptions_witness :
  exists cache',
    at_fixture process_decoded_transaction Fixture.tracing_none
      Fixture.remove_absent_owner_call Fixture.st0
    = (mkState (db Fixture.st0) cache', Raise OwnerCannotBeRemoved).
Proof.
  destruct (at_fixture single_call_propagates_exceptions Fixture.tracing_none
              Fixture.remove_absent_owner_call Fixture.st0 Fixture.st0
              OwnerCannotBeRemoved)
    as (cache' & H & _).
  - vm_compute; reflexivity.
  - exists cache'. exact H.
Defined.

Lemma single_call_marks_its_row_witness :
  internal_txs_decoded
    (db (fst (at_fixture process_decoded_transaction Fixture.tracing_none
                Fixture.add_owner_call Fixture.st0)))
  = <[2 := true]> (internal_txs_decoded (db Fixture.st0)).
Proof.
  destruct (at_fixture single_call_marks_its_row Fixture.tracing_none
              Fixture.add_owner_call Fixture.st0
              (fst (at_fixture process_decoded_transaction Fixture.tracing_none
                      Fixture.add_owner_call Fixture.st0))
              true)
    as (_ & _ & H & _).
  - vm_compute; reflexivity.
  - exact H.
Defined.

Lemma banned_call_is_skipped_witness :
  at_fixture process_loop Fixture.tracing_none
    (get_banned_addresses (contract_addresses [Fixture.add_owner_call])
       Fixture.db_banned)
    [Fixture.add_owner_call] [] (mkState Fixture.db_banned ∅)
  = (mkState Fixture.db_banned ∅, Return [false]).
Proof.
  destruct (at_fixture banned_call_is_skipped Fixture.tracing_none
              [] [] Fixture.add_owner_call (mkState Fixture.db_banned ∅)
              (mkState Fixture.db_banned ∅) [] Fixture.wallet
              (mkSafeContract (Some [9%N]) true))
    as [H _].
  - reflexivity.
  - vm_compute; reflexivity.
  - reflexivity.
  - reflexivity.
  - exact H.
Defined.

Lemma batch_over_pending_calls_empties_the_queue_witness :
  pending_for_safes
    (db (fst (at_fixture process_decoded_transactions Fixture.tracing_none
                (pending_for_safes (db Fixture.st0)
                   [Fixture.add_owner_call; Fixture.remove_absent_owner_call;
                    Fixture.change_threshold_call]) Fixture.st0)))
    [Fixture.add_owner_call; Fixture.remove_absent_owner_call;
     Fixture.change_threshold_call]
  = [].
Proof.
  refine (proj1 (at_fixture batch_over_pending_calls_empties_the_queue
                   Fixture.tracing_none
                   [Fixture.add_owner_call; Fixture.remove_absent_owner_call;
                    Fixture.change_threshold_call] Fixture.st0 _
                   [true; false; true] _)).
  vm_compute; reflexivity.
Defined.

Lemma processor_keeps_confirmations_unique_witness :
  unique_confirmations
    (multisig_confirmations
       (db (fst (at_fixture __process_decoded_transaction Fixture.tracing_none
                   Fixture.approve_hash_by_owner_call Fixture.st0)))).
Proof.
  refine (proj1 (at_fixture processor_keeps_confirmations_unique
                   Fixture.tracing_none)
            Fixture.approve_hash_by_owner_call Fixture.st0 _ (Return true) _ _).
  - vm_compute; reflexivity.
  - apply NoDup_nil_2.
Defined.

Lemma module_call_is_recorded_once_witness :
  let st' := fst (at_fixture __process_decoded_transaction Fixture.tracing_none
                    Fixture.module_call Fixture.st0) in
  at_fixture __process_decoded_transaction Fixture.tracing_none
    Fixture.module_call st'
  = (st', Return true).
Proof.
  refine (proj2 (at_fixture module_call_is_recorded_once Fixture.tracing_none
                   Fixture.module_call Fixture.st0 Fixture.st0 _
                   (Fixture.status0, false) _ _ _ _)).
  - left. reflexivity.
  - vm_compute; discriminate.
  - vm_compute; reflexivity.
  - vm_compute; reflexivity.
Defined.


Lemma is_module_failed_iff_failure_log_witness :
  is_module_failed Fixture.HexBytes Fixture.safe_tx_module_failure_topics
    Fixture.module_failed_tx (Some "0xModule") (Some Fixture.wallet) Fixture.st0
  = (Fixture.st0, Return true).
Proof.
  destruct (is_module_failed_iff_failure_log Fixture.HexBytes
              Fixture.safe_tx_module_failure_topics Fixture.module_failed_tx
              [mkLog (Some Fixture.wallet)
                 [[2%N]; default [] (Fixture.HexBytes (VStr "0xModule"))] []]
              "0xModule" (default [] (Fixture.HexBytes (VStr "0xModule")))
              (Some Fixture.wallet) Fixture.st0 eq_refl eq_refl)
    as (failed & E & Hiff).
  rewrite E. f_equal. f_equal. apply Hiff.
  eexists _, _, _. split; [left |]. split; [reflexivity |].
  split; [intros a [= <-]; reflexivity |]. split; [left |].
  vm_compute; reflexivity.
Defined.

Lemma set_guard_with_null_address_clears_witness :
  exists st' s',
    at_fixture __process_decoded_transaction Fixture.tracing_none
      Fixture.set_guard_call Fixture.st0 = (st', Return true)
    /\ safe_last_statuses (db st') !! Fixture.wallet = Some s'
    /\ guard s' = None.
Proof.
  destruct (at_fixture set_guard_with_null_address_clears Fixture.tracing_none
              Fixture.set_guard_call Fixture.st0 Fixture.st0 Fixture.status0 false
              NULL_ADDRESS)
    as (st' & s' & Hrun & (_ & Hrow & _) & _ & Hnull & _).
  - vm_compute; discriminate.
  - reflexivity.
  - vm_compute; reflexivity.
  - vm_compute; reflexivity.
  - exists st', s'. split; [exact Hrun |]. split; [exact Hrow |].
    now apply Hnull.
Defined.

Lemma approve_hash_records_confirmation_witness :
  exists st',
    at_fixture __process_decoded_transaction Fixture.tracing_none
      Fixture.approve_hash_by_owner_call Fixture.st0 = (st', Return true)
    /\ length (multisig_confirmations (db st')) = 1%nat.
Proof.
  destruct (at_fixture approve_hash_records_confirmation Fixture.tracing_none
              Fixture.approve_hash_by_owner_call Fixture.st0 Fixture.st0
              (Fixture.status0, false) "0xOwnerA" (VStr "0xHash")
              (default [] (Fixture.HexBytes (VStr "0xHash"))))
    as (st' & Hrun & _ & Hnew & _).
  - vm_compute; discriminate.
  - reflexivity.
  - vm_compute; reflexivity.
  - vm_compute; reflexivity.
  - vm_compute; reflexivity.
  - vm_compute; reflexivity.
  - exists st'. split; [exact Hrun |]. rewrite Hnew; [reflexivity |].
    intros Hin. inversion Hin.
Defined.

Lemma explicit_sender_needs_no_tracing_client_witness :
  at_fixture __process_decoded_transaction Fixture.tracing_rpc_error
    Fixture.module_call Fixture.st0
  = at_fixture __process_decoded_transaction None Fixture.module_call Fixture.st0.
Proof.
  refine (explicit_sender_needs_no_tracing_client Fixture.parse_base_version
            Fixture.HexBytes Fixture.safe_tx_failure_events_topics
            Fixture.safe_tx_module_failure_topics Fixture.safe_tx_hash
            Fixture.parse_signature Fixture.build_for_owner Fixture.get_chain_id
            Fixture.process_aa_transaction Fixture.module_call Fixture.st0
            Fixture.tracing_rpc_error None _ _).
  - intros _. eexists. vm_compute; reflexivity.
  - intros H. discriminate H.
Defined.

Lemma empty_cache_stays_empty_over_batch_witness :
  safe_last_status_cache
    (fst (at_fixture process_decoded_transactions Fixture.tracing_none
            [Fixture.add_owner_call; Fixture.remove_absent_owner_call;
             Fixture.change_threshold_call] Fixture.st0))
  = ∅.
Proof.
  exact (at_fixture empty_cache_stays_empty_over_batch Fixture.tracing_none
           [Fixture.add_owner_call; Fixture.remove_absent_owner_call;
            Fixture.change_threshold_call] Fixture.st0 eq_refl).
Defined.

